(** * agentlib: a Rocq model of the agent core

    A shallow embedding of the TypeScript sources of agentlib (reasoning
    engines, tool-invocation protocol, middleware pipeline and memory
    providers), and the properties established about them.

    Conventions.
    - JavaScript numbers that the code uses as counters and budgets are
      integers of type [Z]; a number inside a value is a safe integer, one
      that a number holds exactly and prints as its decimal digits; arrays
      are lists; [Map]s keyed by strings are [gmap string _] when only
      lookup, insert and delete are used and association lists when
      insertion order is observable.
    - A rejected promise or a thrown exception is the [Throw] outcome of the
      state-and-error monad [M]; the state reached before the throw is kept,
      as it is in the source, where [ctx.state] is mutated in place.
    - Dates and the per-session metadata records of the memory providers
      (ids, creation and access times, agent names, tags) are not modelled:
      no operation modelled here reads them.
    - Strings are sequences of code units; [length] is [String.length]. *)

From stdpp Require Import base gmap strings list pretty.
From Stdlib Require Import Ascii ZArith Lia.

Local Open Scope Z_scope.

(* ===================================================================== *)
(** * JavaScript values and built-ins *)
(* ===================================================================== *)

(** The integers [Number.isSafeInteger] accepts. *)
Definition max_safe_integer : Z := 9007199254740991.

Definition is_safe_integer (n : Z) : bool :=
  (- max_safe_integer <=? n) && (n <=? max_safe_integer).

Record SafeInteger : Type := mkSafeInteger {
  int_value : Z;
  int_safe : is_safe_integer int_value = true
}.

(** Values ([unknown] results and [Record<string, unknown>] arguments): the
    JSON values, with numbers restricted to safe integers, and the two
    kinds of value that [JSON.stringify] rejects: a BigInt, and an object
    that refers to itself, which is known here by the message of the
    [TypeError] that [JSON.stringify] throws on it. The values for which
    [JSON.stringify] gives no text ([undefined], functions, symbols) are not
    represented. *)
Local Unset Elimination Schemes.
Inductive Json : Type :=
| JNull
| JBool (b : bool)
| JNum (n : SafeInteger)
| JStr (s : string)
| JArr (items : list Json)
| JObj (fields : list (string * Json))
| JBigInt (n : Z)
| JCircular (message : string).
Local Set Elimination Schemes.

Definition Args : Type := list (string * Json).

(** Property access [obj.key]; [None] is [undefined]. The last binding wins,
    as in an object literal with a repeated key. *)
Fixpoint get_field (key : string) (fields : Args) : option Json :=
  match fields with
  | [] => None
  | (k, v) :: rest =>
      match get_field key rest with
      | Some v' => Some v'
      | None => if decide (k = key) then Some v else None
      end
  end.

Definition dquote : string := String (ascii_of_nat 34) EmptyString.
Definition newline : string := String (ascii_of_nat 10) EmptyString.

Definition hex_digit (n : nat) : ascii :=
  if decide (n < 10)%nat then ascii_of_nat (48 + n) else ascii_of_nat (87 + n).

(** The escape [JSON.stringify] writes for one code unit. *)
Definition escape_char (c : ascii) : string :=
  let n := nat_of_ascii c in
  if decide (n = 34%nat) then "\" +:+ dquote
  else if decide (n = 92%nat) then "\\"
  else if decide (n = 8%nat) then "\b"
  else if decide (n = 9%nat) then "\t"
  else if decide (n = 10%nat) then "\n"
  else if decide (n = 12%nat) then "\f"
  else if decide (n = 13%nat) then "\r"
  else if decide (n < 32)%nat then
    "\u00" +:+ String (hex_digit (n / 16)) (String (hex_digit (n mod 16)) "")
  else String c "".

Fixpoint escape (s : string) : string :=
  match s with
  | EmptyString => ""
  | String c rest => escape_char c +:+ escape rest
  end.

Definition quote (s : string) : string := dquote +:+ escape s +:+ dquote.

Fixpoint join (sep : string) (parts : list string) : string :=
  match parts with
  | [] => ""
  | [p] => p
  | p :: rest => p +:+ sep +:+ join sep rest
  end.

(** The message of the [TypeError] that [JSON.stringify] throws on the
    value, if it throws: it walks the value in order and throws at the
    first BigInt or self-referring object it meets, at any depth. *)
Fixpoint rejection (j : Json) : option string :=
  match j with
  | JBigInt _ => Some "Do not know how to serialize a BigInt"
  | JCircular message => Some message
  | JArr items =>
      (fix first (l : list Json) : option string :=
         match l with
         | [] => None
         | v :: rest =>
             match rejection v with
             | Some e => Some e
             | None => first rest
             end
         end) items
  | JObj fields =>
      (fix first (l : list (string * Json)) : option string :=
         match l with
         | [] => None
         | kv :: rest =>
             match rejection (snd kv) with
             | Some e => Some e
             | None => first rest
             end
         end) fields
  | _ => None
  end.

(** Whether [JSON.stringify] accepts the value. *)
Definition serializable (j : Json) : bool :=
  match rejection j with
  | None => true
  | Some _ => false
  end.

(** The text [JSON.stringify] gives for a value it accepts; [JSON_stringify]
    below is the call itself. *)
Fixpoint stringify (j : Json) : string :=
  match j with
  | JNull => "null"
  | JBool true => "true"
  | JBool false => "false"
  | JNum n => pretty (int_value n)
  | JStr s => quote s
  | JArr items => "[" +:+ join "," (List.map stringify items) +:+ "]"
  | JObj fields =>
      "{" +:+ join "," (List.map (fun kv => quote (fst kv) +:+ ":" +:+ stringify (snd kv)) fields)
          +:+ "}"
  | JBigInt _ => ""
  | JCircular _ => ""
  end.

(** The conversion [String(v)]. Inside an array [null] prints as the empty
    string; every object prints as [[object Object]]. *)
Fixpoint js_String (j : Json) : string :=
  match j with
  | JNull => "null"
  | JBool true => "true"
  | JBool false => "false"
  | JNum n => pretty (int_value n)
  | JStr s => s
  | JArr items =>
      join "," (List.map (fun v => match v with JNull => "" | _ => js_String v end) items)
  | JObj _ => "[object Object]"
  | JBigInt n => pretty n
  | JCircular _ => "[object Object]"
  end.

(** [items.join(sep)]: [null] is joined as the empty string. *)
Definition js_join (sep : string) (items : list Json) : string :=
  join sep (List.map (fun v => match v with JNull => "" | _ => js_String v end) items).

(** [String(v)] where [v] may be [undefined] ([None]). *)
Definition js_String_of (v : option Json) : string :=
  match v with
  | None => "undefined"
  | Some j => js_String j
  end.

(** Truthiness of a value that may be [undefined]. *)
Definition js_truthy (v : option Json) : bool :=
  match v with
  | None => false
  | Some JNull => false
  | Some (JBool b) => b
  | Some (JNum n) => negb (int_value n =? 0)
  | Some (JStr EmptyString) => false
  | Some (JStr _) => true
  | Some (JArr _) => true
  | Some (JObj _) => true
  | Some (JBigInt n) => negb (n =? 0)
  | Some (JCircular _) => true
  end.

(** Truthiness of a string ([if (s)]). *)
Definition truthy (s : string) : bool :=
  match s with EmptyString => false | _ => true end.

(** [Array.prototype.slice(start)]: a negative [start] counts from the end. *)
Definition slice_from {A} (start : Z) (l : list A) : list A :=
  let len := Z.of_nat (length l) in
  let k := if start <? 0 then Z.max (len + start) 0 else Z.min start len in
  drop (Z.to_nat k) l.

(** [slice(0, stop)] on a list of code units or elements. *)
Definition slice_to_len (len stop : Z) : nat :=
  Z.to_nat (if stop <? 0 then Z.max (len + stop) 0 else Z.min stop len).

Definition str_slice_to (stop : Z) (s : string) : string :=
  String.substring 0 (slice_to_len (Z.of_nat (String.length s)) stop) s.

(* ===================================================================== *)
(** * Message data model (core/src/types) *)
(* ===================================================================== *)

Inductive Role : Type := system | user | assistant | tool.

Global Instance Role_eq_dec : EqDecision Role.
Proof. solve_decision. Defined.

Definition is_system (r : Role) : bool :=
  match r with system => true | _ => false end.

Definition role_name (r : Role) : string :=
  match r with
  | system => "system" | user => "user" | assistant => "assistant" | tool => "tool"
  end.

(** [role.toUpperCase()] *)
Definition role_upper (r : Role) : string :=
  match r with
  | system => "SYSTEM" | user => "USER" | assistant => "ASSISTANT" | tool => "TOOL"
  end.

Record ToolCall : Type := mkToolCall {
  tc_id : string;
  tc_name : string;
  tc_arguments : Args
}.

Record ModelMessage : Type := mkMessage {
  role : Role;
  content : string;
  toolCallId : option string;
  m_toolCalls : option (list ToolCall)
}.

Definition plain_message (r : Role) (c : string) : ModelMessage :=
  mkMessage r c None None.

Definition tool_message (c : string) (callId : string) : ModelMessage :=
  mkMessage tool c (Some callId) None.

(** [xs?.length] used as a condition. *)
Definition has_items {A} (xs : option (list A)) : bool :=
  match xs with
  | Some (_ :: _) => true
  | _ => false
  end.

Definition non_system (m : ModelMessage) : bool := negb (is_system (role m)).

(* ===================================================================== *)
(** * Token estimation (core/src/memory/tokens) *)
(* ===================================================================== *)

Module Tokens.

(** [Math.ceil(text.length / 4)] *)
Definition estimateTokens (text : string) : Z :=
  (Z.of_nat (String.length text) + 3) / 4.

Definition estimateMessagesTokens (messages : list ModelMessage) : Z :=
  fold_left (fun acc msg => acc + estimateTokens (content msg) + 4) messages 0.

(** The backwards loop of [trimToTokenBudget]: [newest_first] is [rest] read
    from its last index down; [result.unshift(msg)] is the cons. *)
Fixpoint trimWalk (newest_first : list ModelMessage) (tokens maxTokens : Z)
    (result : list ModelMessage) : list ModelMessage :=
  match newest_first with
  | [] => result
  | msg :: older =>
      let t := estimateTokens (content msg) + 4 in
      if tokens + t >? maxTokens then result
      else trimWalk older (tokens + t) maxTokens (msg :: result)
  end.

Definition trimToTokenBudget (messages : list ModelMessage) (maxTokens : Z)
    : list ModelMessage :=
  let sys := List.filter (fun m => is_system (role m)) messages in
  let rest := List.filter non_system messages in
  let tokens := estimateMessagesTokens sys in
  sys ++ trimWalk (rev rest) tokens maxTokens [].

End Tokens.

(* ===================================================================== *)
(** * SlidingWindowMemory (memory/src/sliding-window.ts) *)
(* ===================================================================== *)

Record MemoryReadOptions : Type := mkReadOptions {
  ro_sessionId : option string
}.

Record MemoryWriteOptions : Type := mkWriteOptions {
  wo_sessionId : option string;
  wo_agentName : option string
}.

(** [sessionId ?? 'default'] *)
Definition session_key (sessionId : option string) : string :=
  default "default" sessionId.

(** [if (sessionId)]: defined and not the empty string. *)
Definition session_given (sessionId : option string) : option string :=
  match sessionId with
  | Some s => if truthy s then Some s else None
  | None => None
  end.

Module SlidingWindow.

Record Config : Type := mkConfig {
  maxTokens : Z;
  maxTurns : Z
}.

Definition defaultConfig : Config := mkConfig 4000 50.

Record ConversationTurn : Type := mkTurn { messages : list ModelMessage }.

Abbreviation Sessions := (gmap string (list ConversationTurn)).

Definition flatten (turns : list ConversationTurn) : list ModelMessage :=
  flat_map messages turns.

(** The loop of [groupIntoTurns], with its two mutable variables. *)
Fixpoint groupLoop (msgs : list ModelMessage) (turns : list ConversationTurn)
    (current : list ModelMessage) : list ConversationTurn * list ModelMessage :=
  match msgs with
  | [] => (turns, current)
  | msg :: rest =>
      let current' := current ++ [msg] in
      if bool_decide (role msg = assistant) && negb (has_items (m_toolCalls msg))
      then groupLoop rest (turns ++ [mkTurn current']) []
      else groupLoop rest turns current'
  end.

Definition groupIntoTurns (msgs : list ModelMessage) : list ConversationTurn :=
  let '(turns, current) := groupLoop msgs [] [] in
  match current with
  | [] => turns
  | _ :: _ => turns ++ [mkTurn current]
  end.

Definition read (cfg : Config) (sessions : Sessions) (options : MemoryReadOptions)
    : list ModelMessage :=
  let sessionId := session_key (ro_sessionId options) in
  let turns := default [] (sessions !! sessionId) in
  let msgs := flatten turns in
  Tokens.trimToTokenBudget msgs (maxTokens cfg).

Definition write (cfg : Config) (sessions : Sessions) (msgs : list ModelMessage)
    (options : MemoryWriteOptions) : Sessions :=
  let sessionId := session_key (wo_sessionId options) in
  let existing := default [] (sessions !! sessionId) in
  let nonSystem := List.filter non_system msgs in
  let newTurns := groupIntoTurns nonSystem in
  let merged := slice_from (- maxTurns cfg) (existing ++ newTurns) in
  <[sessionId := merged]> sessions.

Definition clear (sessions : Sessions) (sessionId : option string) : Sessions :=
  match session_given sessionId with
  | Some s => delete s sessions
  | None => ∅
  end.

(** The states a [SlidingWindowMemory] object can be in: its [sessions] map
    is private and starts empty. *)
Inductive reachable (cfg : Config) : Sessions -> Prop :=
| reach_new : reachable cfg ∅
| reach_write sessions msgs options :
    reachable cfg sessions -> reachable cfg (write cfg sessions msgs options)
| reach_clear sessions sessionId :
    reachable cfg sessions -> reachable cfg (clear sessions sessionId).

(** No stored message has the system role. *)
Definition stores_no_system (sessions : Sessions) : Prop :=
  forall sid turns, sessions !! sid = Some turns ->
    Forall (fun m => non_system m = true) (flatten turns).

(** A list is a concatenation of whole stored turns, dropped from the
    oldest turn forward. *)
Definition whole_turns (turns : list ConversationTurn) (out : list ModelMessage) : Prop :=
  exists k : nat, out = flatten (drop k turns).

End SlidingWindow.

(* ===================================================================== *)
(** * Outcomes and the model backend contract *)
(* ===================================================================== *)

(** A thrown value, identified with the message of the [Error]. *)
Definition Err : Type := string.

Inductive Result (A : Type) : Type :=
| Ok (a : A)
| Throw (e : Err).
Arguments Ok {A} a.
Arguments Throw {A} e.

Definition is_ok {A} (r : Result A) : bool :=
  match r with Ok _ => true | Throw _ => false end.

(** The evaluation of two expressions in a row: the second is not evaluated
    when the first throws. *)
Definition and_then {A B} (r : Result A) (k : A -> Result B) : Result B :=
  match r with
  | Ok a => k a
  | Throw e => Throw e
  end.

(** [JSON.stringify(v)]: the text, or the [TypeError]. *)
Definition JSON_stringify (v : Json) : Result string :=
  match rejection v with
  | None => Ok (stringify v)
  | Some e => Throw e
  end.

Record ToolSchema : Type := mkSchema {
  schema_name : string;
  schema_description : string;
  schema_parameters : Json
}.

Record TokenUsage : Type := mkUsage {
  promptTokens : Z;
  completionTokens : Z;
  totalTokens : Z
}.

Record ModelRequest : Type := mkRequest {
  req_messages : list ModelMessage;
  req_tools : option (list ToolSchema)
}.

Record ModelResponse : Type := mkResponse {
  message : ModelMessage;
  r_toolCalls : option (list ToolCall);
  usage : option TokenUsage
}.

(** [ModelProvider.complete]: the backend is an external collaborator; its
    answers and side effects live in a world of type [W]. *)
Record ModelProvider (W : Type) : Type := mkModel {
  complete : ModelRequest -> W -> Result ModelResponse * W
}.
Arguments complete {W} _ _ _.

(* ===================================================================== *)
(** * BufferMemory (memory/src/buffer.ts) *)
(* ===================================================================== *)

Module Buffer.

Record Config : Type := mkConfig {
  maxMessages : Z;
  maxTokens : option Z
}.

Abbreviation Store := (gmap string (list ModelMessage)).

Definition read (cfg : Config) (store : Store) (options : MemoryReadOptions)
    : list ModelMessage :=
  let sessionId := session_key (ro_sessionId options) in
  let msgs := default [] (store !! sessionId) in
  match maxTokens cfg with
  | Some budget =>
      if budget =? 0 then msgs else Tokens.trimToTokenBudget msgs budget
  | None => msgs
  end.

Definition write (cfg : Config) (store : Store) (msgs : list ModelMessage)
    (options : MemoryWriteOptions) : Store :=
  let sessionId := session_key (wo_sessionId options) in
  let toStore := List.filter non_system msgs in
  let trimmed :=
    if Z.of_nat (length toStore) >? maxMessages cfg
    then slice_from (- maxMessages cfg) toStore
    else toStore in
  <[sessionId := trimmed]> store.

Definition clear (store : Store) (sessionId : option string) : Store :=
  match session_given sessionId with
  | Some s => delete s store
  | None => ∅
  end.

End Buffer.

(* ===================================================================== *)
(** * SummarizingMemory (memory/src/summarizing.ts) *)
(* ===================================================================== *)

Module Summarizing.

Record Config (W : Type) : Type := mkConfig {
  model : ModelProvider W;
  activeWindowTokens : Z;
  summaryMaxTokens : Z;
  summaryPrompt : string
}.
Arguments model {W} _.
Arguments activeWindowTokens {W} _.
Arguments summaryMaxTokens {W} _.
Arguments summaryPrompt {W} _.

Record SessionData : Type := mkSession {
  summary : option string;
  activeMessages : list ModelMessage
}.

Abbreviation Sessions := (gmap string SessionData).

(** [session.summary] used as a condition: neither [null] nor empty. *)
Definition summary_present (session : SessionData) : option string :=
  match summary session with
  | Some s => if truthy s then Some s else None
  | None => None
  end.

Definition summary_message (s : string) : ModelMessage :=
  plain_message system ("[Conversation summary so far]" +:+ newline +:+ s).

Definition read (sessions : Sessions) (options : MemoryReadOptions) : list ModelMessage :=
  let sessionId := session_key (ro_sessionId options) in
  match sessions !! sessionId with
  | None => []
  | Some session =>
      let injected :=
        match summary_present session with
        | Some s => [summary_message s]
        | None => []
        end in
      injected ++ activeMessages session
  end.

Definition existingSummary (session : SessionData) : string :=
  match summary_present session with
  | Some s =>
      "Previous summary:" +:+ newline +:+ s +:+ newline +:+ newline
        +:+ "New conversation to add:"
  | None => ""
  end.

Definition compressInput (toCompress : list ModelMessage) : string :=
  join newline (List.map (fun m => role_upper (role m) +:+ ": " +:+ content m) toCompress).

Definition compressRequest {W} (cfg : Config W) (session : SessionData) : ModelRequest :=
  let msgs := activeMessages session in
  let splitAt := Nat.div (length msgs) 2 in
  let toCompress := take splitAt msgs in
  mkRequest
    [ plain_message system (summaryPrompt cfg);
      plain_message user (existingSummary session +:+ newline +:+ compressInput toCompress) ]
    None.

(** [_compress]: the session after the compression, or the rejection of the
    model call. *)
Definition compress {W} (cfg : Config W) (session : SessionData) (w : W)
    : Result SessionData * W :=
  let msgs := activeMessages session in
  let splitAt := Nat.div (length msgs) 2 in
  let toKeep := drop splitAt msgs in
  match complete (model cfg) (compressRequest cfg session) w with
  | (Throw e, w') => (Throw e, w')
  | (Ok response, w') =>
      let rawSummary := content (message response) in
      let trimmedSummary := str_slice_to (summaryMaxTokens cfg * 4) rawSummary in
      (Ok (mkSession (Some trimmedSummary) toKeep), w')
  end.

(** [write]. The session object found in the map is mutated in place before
    the compression, so a rejected model call leaves an existing session with
    its window replaced and a new session unstored. *)
Definition write {W} (cfg : Config W) (sessions : Sessions) (msgs : list ModelMessage)
    (options : MemoryWriteOptions) (w : W) : Result unit * Sessions * W :=
  let sessionId := session_key (wo_sessionId options) in
  let stored := sessions !! sessionId in
  let existing := default (mkSession None []) stored in
  let nonSystem := List.filter non_system msgs in
  let existing1 := mkSession (summary existing) nonSystem in
  let tokens := Tokens.estimateMessagesTokens nonSystem in
  if tokens >? activeWindowTokens cfg then
    match compress cfg existing1 w with
    | (Ok existing2, w') => (Ok (), <[sessionId := existing2]> sessions, w')
    | (Throw e, w') =>
        (Throw e,
         match stored with
         | Some _ => <[sessionId := existing1]> sessions
         | None => sessions
         end,
         w')
    end
  else (Ok (), <[sessionId := existing1]> sessions, w).

Definition clear (sessions : Sessions) (sessionId : option string) : Sessions :=
  match session_given sessionId with
  | Some s => delete s sessions
  | None => ∅
  end.

End Summarizing.

(* ===================================================================== *)
(** * CompositeMemory (memory/src/composite.ts) *)
(* ===================================================================== *)

Module Composite.

Inductive ReadStrategy : Type := first_hit | merge.

(** A [MemoryProvider] written outside the library, with private state of
    type [S]. [clear] is optional in the contract. *)
Record CustomProvider (S : Type) : Type := mkCustom {
  cp_state : S;
  cp_read : MemoryReadOptions -> S -> Result (list ModelMessage) * S;
  cp_write : list ModelMessage -> MemoryWriteOptions -> S -> Result unit * S;
  cp_clear : option (option string -> S -> Result unit * S)
}.
Arguments cp_state {S} _.
Arguments cp_read {S} _ _ _.
Arguments cp_write {S} _ _ _ _.
Arguments cp_clear {S} _.

Definition cp_with {S} (c : CustomProvider S) (st : S) : CustomProvider S :=
  mkCustom S st (cp_read c) (cp_write c) (cp_clear c).

(** The providers a [CompositeMemory] can wrap: each object with its
    configuration and current store. *)
Local Unset Elimination Schemes.
Inductive Provider (W S : Type) : Type :=
| PBuffer (cfg : Buffer.Config) (store : Buffer.Store)
| PSlidingWindow (cfg : SlidingWindow.Config) (sessions : SlidingWindow.Sessions)
| PSummarizing (cfg : Summarizing.Config W) (sessions : Summarizing.Sessions)
| PComposite (readStrategy : ReadStrategy) (providers : list (Provider W S))
| PCustom (c : CustomProvider S).
Local Set Elimination Schemes.
Arguments PBuffer {W S} _ _.
Arguments PSlidingWindow {W S} _ _.
Arguments PSummarizing {W S} _ _.
Arguments PComposite {W S} _ _.
Arguments PCustom {W S} _.

(** The de-duplication loop of the [merge] strategy. *)
Definition fingerprint (msg : ModelMessage) : string :=
  role_name (role msg) +:+ ":" +:+ str_slice_to 100 (content msg).

Fixpoint dedupe (msgs : list ModelMessage) (seen : gset string)
    (merged : list ModelMessage) : gset string * list ModelMessage :=
  match msgs with
  | [] => (seen, merged)
  | msg :: rest =>
      let key := fingerprint msg in
      if decide (key ∈ seen) then dedupe rest seen merged
      else dedupe rest ({[ key ]} ∪ seen) (merged ++ [msg])
  end.

Section Operations.
Context {W S : Type}.

(** The first rejection among the outcomes of a [Promise.all]. *)
Fixpoint all_ok {A} (rs : list (Result A)) : Result (list A) :=
  match rs with
  | [] => Ok []
  | Ok a :: rest =>
      match all_ok rest with
      | Ok l => Ok (a :: l)
      | Throw e => Throw e
      end
  | Throw e :: _ => Throw e
  end.

(** A method called on every provider of the array, as in
    [this.providers.map((p) => p.read(options))]: the outcomes, and the
    providers afterwards. *)
Definition onEach {A} (f : Provider W S -> A * Provider W S) (ps : list (Provider W S))
    : list A * list (Provider W S) :=
  let done := List.map f ps in
  (List.map fst done, List.map snd done).

(** The loop of the [first-hit] strategy, stopping at the first non-empty
    answer. *)
Definition firstHit (rd : Provider W S -> Result (list ModelMessage) * Provider W S)
    : list (Provider W S) -> Result (list ModelMessage) * list (Provider W S) :=
  fix go ps :=
    match ps with
    | [] => (Ok [], [])
    | q :: rest =>
        match rd q with
        | (Ok (m :: ms), q') => (Ok (m :: ms), q' :: rest)
        | (Ok [], q') => let '(r, rest') := go rest in (r, q' :: rest')
        | (Throw e, q') => (Throw e, q' :: rest)
        end
    end.

(** [provider.read(options)] for each kind of provider, and
    [CompositeMemory.read]. *)
Fixpoint read (p : Provider W S) (options : MemoryReadOptions)
    : Result (list ModelMessage) * Provider W S :=
  match p with
  | PBuffer cfg store => (Ok (Buffer.read cfg store options), p)
  | PSlidingWindow cfg sessions => (Ok (SlidingWindow.read cfg sessions options), p)
  | PSummarizing cfg sessions => (Ok (Summarizing.read sessions options), p)
  | PCustom c =>
      let '(r, st) := cp_read c options (cp_state c) in
      (r, PCustom (cp_with c st))
  | PComposite strategy providers =>
      match strategy with
      | first_hit =>
          let '(r, providers') := firstHit (fun q => read q options) providers in
          (r, PComposite strategy providers')
      | merge =>
          let '(rs, providers') := onEach (fun q => read q options) providers in
          match all_ok rs with
          | Throw e => (Throw e, PComposite strategy providers')
          | Ok all =>
              (Ok (snd (dedupe (concat all) ∅ [])), PComposite strategy providers')
          end
      end
  end.

(** [p.clear?.(sessionId)] for each kind of provider, and
    [CompositeMemory.clear], which calls it on every wrapped provider. *)
Fixpoint clear (p : Provider W S) (sessionId : option string)
    : Result unit * Provider W S :=
  match p with
  | PBuffer cfg store => (Ok (), PBuffer cfg (Buffer.clear store sessionId))
  | PSlidingWindow cfg sessions =>
      (Ok (), PSlidingWindow cfg (SlidingWindow.clear sessions sessionId))
  | PSummarizing cfg sessions =>
      (Ok (), PSummarizing cfg (Summarizing.clear sessions sessionId))
  | PCustom c =>
      match cp_clear c with
      | None => (Ok (), p)
      | Some f =>
          let '(r, st) := f sessionId (cp_state c) in
          (r, PCustom (cp_with c st))
      end
  | PComposite strategy providers =>
      let '(rs, providers') := onEach (fun q => clear q sessionId) providers in
      match all_ok rs with
      | Throw e => (Throw e, PComposite strategy providers')
      | Ok _ => (Ok (), PComposite strategy providers')
      end
  end.

End Operations.

(** Providers on which [clear] is implemented all the way down, custom ones
    obeying the law that a cleared session reads as empty. *)
Definition custom_clears {S} (c : CustomProvider S) : Prop :=
  exists f, cp_clear c = Some f /\
    forall sessionId st,
      fst (f sessionId st) = Ok () /\
      fst (cp_read c (mkReadOptions sessionId) (snd (f sessionId st))) = Ok [].

Local Unset Elimination Schemes.
Inductive clearable {W S : Type} : Provider W S -> Prop :=
| clearable_buffer cfg store : clearable (PBuffer cfg store)
| clearable_sliding cfg sessions : clearable (PSlidingWindow cfg sessions)
| clearable_summarizing cfg sessions : clearable (PSummarizing cfg sessions)
| clearable_custom c : custom_clears c -> clearable (PCustom c)
| clearable_composite strategy providers :
    Forall clearable providers -> clearable (PComposite strategy providers).
Local Set Elimination Schemes.

End Composite.

(* ===================================================================== *)
(** * Steps and execution state (core/src/types, core/src/context) *)
(* ===================================================================== *)

Inductive TaskStatus : Type := pending | in_progress | done_ | failed.

Global Instance TaskStatus_eq_dec : EqDecision TaskStatus.
Proof. solve_decision. Defined.

Record PlanTask : Type := mkTask {
  task_id : string;
  description : string;
  dependsOn : list string;
  status : TaskStatus;
  task_result : option string
}.

(** [ReasoningStep], a union tagged by [type]; the last field of every case
    is the [engine] label. *)
Inductive ReasoningStep : Type :=
| thought (content_ : string) (engine : string)
| plan (tasks : list PlanTask) (engine : string)
| tool_call (toolName : string) (args : Args) (callId : string) (engine : string)
| tool_result (toolName : string) (callId : string) (result : Json)
    (error : option string) (engine : string)
| reflection (assessment : string) (needsRevision : option Json) (engine : string)
| response (content_ : string) (engine : string).

Definition is_response (s : ReasoningStep) : bool :=
  match s with response _ _ => true | _ => false end.
Definition is_tool_call (s : ReasoningStep) : bool :=
  match s with tool_call _ _ _ _ => true | _ => false end.
Definition is_reflection (s : ReasoningStep) : bool :=
  match s with reflection _ _ _ => true | _ => false end.

Record ExecutionState : Type := mkState {
  steps : list ReasoningStep;
  messages : list ModelMessage;
  toolCalls : list (ToolCall * Json);
  state_usage : TokenUsage
}.

Definition emptyUsage : TokenUsage := mkUsage 0 0 0.
Definition emptyState : ExecutionState := mkState [] [] [] emptyUsage.

(** [ExecutionContext]: the user data [ctx.data] is part of the world. *)
Record ExecutionContext : Type := mkContext {
  input : string;
  sessionId : string;
  state : ExecutionState
}.

Definition createContext (input sessionId : string) : ExecutionContext :=
  mkContext input sessionId emptyState.

Record AgentPolicy : Type := mkPolicy {
  policy_maxSteps : option Z;
  allowedTools : option (list string);
  tokenBudget : option Z
}.

(* ===================================================================== *)
(** * Middleware, tools and the observation trace *)
(* ===================================================================== *)

Inductive MiddlewareScope : Type :=
| run_before | run_after | step_before | step_after | tool_before | tool_after.

Global Instance MiddlewareScope_eq_dec : EqDecision MiddlewareScope.
Proof. solve_decision. Defined.

(** The optional [scope] field: one scope or an array of scopes. *)
Inductive ScopeSpec : Type :=
| OneScope (s : MiddlewareScope)
| ManyScopes (l : list MiddlewareScope).

Record ToolInfo : Type := mkToolInfo {
  ti_name : string;
  ti_args : Args;
  ti_result : option Json
}.

Record MiddlewareContext : Type := mkMwContext {
  mc_scope : MiddlewareScope;
  mc_ctx : ExecutionContext;
  mc_tool : option ToolInfo
}.

(** The body of a middleware's [run(mCtx, next)], as the sequence of things
    it does: side effects on the world, tests of the world, awaited calls of
    the continuation ([await next()]), [try]/[catch] statements, and its end
    by return or by throw. The execution state it receives is documented as
    not to be mutated, so a body acts on the world only.

    [MwTry body handler rest] is [try { body } catch (e) { handler(e) }]
    followed by [rest]: inside [body] and [handler e], [MwReturn] is the end
    of the block, from which the body goes on with [rest]. *)
Inductive MwCode (W : Type) : Type :=
| MwReturn
| MwThrow (e : Err)
| MwNext (k : MwCode W)
| MwEffect (f : W -> W) (k : MwCode W)
| MwBranch (c : W -> bool) (kt kf : MwCode W)
| MwTry (body : MwCode W) (handler : Err -> MwCode W) (rest : MwCode W).
Arguments MwReturn {W}.
Arguments MwThrow {W} e.
Arguments MwNext {W} k.
Arguments MwEffect {W} f k.
Arguments MwBranch {W} c kt kf.
Arguments MwTry {W} body handler rest.

Record Middleware (W : Type) : Type := mkMiddleware {
  mw_name : option string;
  mw_scope : option ScopeSpec;
  mw_run : MiddlewareContext -> MwCode W
}.
Arguments mw_name {W} _.
Arguments mw_scope {W} _.
Arguments mw_run {W} _ _.

(** A tool body reads its arguments and the context and acts on the world;
    like a middleware it is handed [ctx.state] as internal state that it is
    not to mutate. *)
Record ToolDefinition (W : Type) : Type := mkTool {
  schema : ToolSchema;
  execute : Args -> ExecutionContext -> W -> Result Json * W
}.
Arguments schema {W} _.
Arguments execute {W} _ _ _ _.

Inductive Payload : Type :=
| PayloadStep (s : ReasoningStep)
| PayloadToolBefore (tool_ : string) (args : Args)
| PayloadToolResult (tool_ : string) (result : Json)
| PayloadToolError (tool_ : string) (error : string).

(** What a run does to its collaborators, in order: events handed to the
    emitter, middleware bodies entered, requests sent to the model, tool
    bodies invoked. The trace is how the model records these calls; event
    handlers are listeners whose own effects are outside the model. *)
Inductive Obs (W : Type) : Type :=
| ObsEmit (event : string) (payload : Payload)
| ObsMiddleware (scope : MiddlewareScope) (m : Middleware W)
| ObsModel (request : ModelRequest)
| ObsTool (name : string) (args : Args).
Arguments ObsEmit {W} event payload.
Arguments ObsMiddleware {W} scope m.
Arguments ObsModel {W} request.
Arguments ObsTool {W} name args.

Definition is_emit {W} (event : string) (o : Obs W) : bool :=
  match o with ObsEmit ev _ => bool_decide (ev = event) | _ => false end.
Definition is_middleware {W} (o : Obs W) : bool :=
  match o with ObsMiddleware _ _ => true | _ => false end.
Definition is_tool_obs {W} (o : Obs W) : bool :=
  match o with ObsTool _ _ => true | _ => false end.

(** The middleware entered, in order of entry. *)
Fixpoint entered {W} (tr : list (Obs W)) : list (Middleware W) :=
  match tr with
  | [] => []
  | ObsMiddleware _ m :: rest => m :: entered rest
  | _ :: rest => entered rest
  end.

(* ===================================================================== *)
(** * The monad of a run *)
(* ===================================================================== *)

Record Machine (W : Type) : Type := mkMachine {
  ctx : ExecutionContext;
  world : W;
  trace : list (Obs W)
}.
Arguments mkMachine {W} _ _ _.
Arguments ctx {W} _.
Arguments world {W} _.
Arguments trace {W} _.

Definition M (W A : Type) : Type := Machine W -> Result A * Machine W.

Definition ret {W A} (a : A) : M W A := fun s => (Ok a, s).
Definition throw {W A} (e : Err) : M W A := fun s => (Throw e, s).
Definition bind {W A B} (m : M W A) (k : A -> M W B) : M W B :=
  fun s =>
    match m s with
    | (Ok a, s') => k a s'
    | (Throw e, s') => (Throw e, s')
    end.

(** [try { m } catch (err) { ... }]: the outcome as a value. *)
Definition try_ {W A} (m : M W A) : M W (Result A) :=
  fun s => let '(r, s') := m s in (Ok r, s').

Declare Scope run_scope.
Delimit Scope run_scope with run.
Notation "x <- c1 ;; c2" := (bind c1 (fun x => c2))
  (at level 100, c1 at next level, right associativity) : run_scope.
Notation "c1 ;; c2" := (bind c1 (fun _ => c2))
  (at level 100, right associativity) : run_scope.
Local Open Scope run_scope.

Section MachineOps.
Context {W : Type}.

Definition get_state : M W ExecutionState := fun s => (Ok (state (ctx s)), s).
Definition get_ctx : M W ExecutionContext := fun s => (Ok (ctx s), s).

Definition modify_state (f : ExecutionState -> ExecutionState) : M W unit :=
  fun s =>
    let c := ctx s in
    (Ok (), mkMachine (mkContext (input c) (sessionId c) (f (state c))) (world s) (trace s)).

Definition observe (o : Obs W) : M W unit :=
  fun s => (Ok (), mkMachine (ctx s) (world s) (trace s ++ [o])).

(** An action of a collaborator on the world. *)
Definition on_world {A} (f : W -> Result A * W) : M W A :=
  fun s => let '(r, w) := f (world s) in (r, mkMachine (ctx s) w (trace s)).

(** The evaluation of an expression that returns or throws. *)
Definition of_result {A} (r : Result A) : M W A := fun s => (r, s).

(** [void emitter.emit(event, payload)] *)
Definition emit (event : string) (payload : Payload) : M W unit :=
  observe (ObsEmit event payload).

Definition push_step (st : ReasoningStep) : M W unit :=
  modify_state (fun e => mkState (steps e ++ [st]) (messages e) (toolCalls e) (state_usage e)).
Definition push_message (m : ModelMessage) : M W unit :=
  modify_state (fun e => mkState (steps e) (messages e ++ [m]) (toolCalls e) (state_usage e)).
Definition push_toolCall (c : ToolCall) (r : Json) : M W unit :=
  modify_state (fun e => mkState (steps e) (messages e) (toolCalls e ++ [(c, r)]) (state_usage e)).
Definition add_usage (u : TokenUsage) : M W unit :=
  modify_state (fun e =>
    let old := state_usage e in
    mkState (steps e) (messages e) (toolCalls e)
      (mkUsage (promptTokens old + promptTokens u)
               (completionTokens old + completionTokens u)
               (totalTokens old + totalTokens u))).

End MachineOps.

(* ===================================================================== *)
(** * MiddlewarePipeline (core/src/middleware/pipeline.ts) *)
(* ===================================================================== *)

Module Pipeline.
Section Pipeline.
Context {W : Type}.

(** The filter of [run]: no [scope] matches every scope. *)
Definition matches (scope : MiddlewareScope) (m : Middleware W) : bool :=
  match mw_scope m with
  | None => true
  | Some (OneScope s) => bool_decide (scope ∈ [s])
  | Some (ManyScopes l) => bool_decide (scope ∈ l)
  end.

Definition scoped (middlewares : list (Middleware W)) (scope : MiddlewareScope)
    : list (Middleware W) :=
  List.filter (matches scope) middlewares.

(** Running a body with [next] bound to the given continuation. *)
Fixpoint exec (next : M W unit) (code : MwCode W) : M W unit :=
  match code with
  | MwReturn => ret ()
  | MwThrow e => throw e
  | MwNext k => next ;; exec next k
  | MwEffect f k => on_world (fun w => (Ok (), f w)) ;; exec next k
  | MwBranch c kt kf =>
      fun s => if c (world s) then exec next kt s else exec next kf s
  | MwTry body handler rest =>
      outcome <- try_ (exec next body) ;;
      match outcome with
      | Ok _ => ret ()
      | Throw e => exec next (handler e)
      end ;;
      exec next rest
  end.

(** [dispatch(index)], on the part of [scoped] from [index] on. *)
Fixpoint dispatch (mCtx : MiddlewareContext) (from_index : list (Middleware W)) : M W unit :=
  match from_index with
  | [] => ret ()
  | middleware :: later =>
      observe (ObsMiddleware (mc_scope mCtx) middleware) ;;
      exec (dispatch mCtx later) (mw_run middleware mCtx)
  end.

Definition run (middlewares : list (Middleware W)) (mCtx : MiddlewareContext) : M W unit :=
  dispatch mCtx (drop 0 (scoped middlewares (mc_scope mCtx))).

(** A body that on every path returns without calling [next]. *)
Fixpoint returns_without_next (code : MwCode W) : bool :=
  match code with
  | MwReturn => true
  | MwThrow _ => false
  | MwNext _ => false
  | MwEffect _ k => returns_without_next k
  | MwBranch _ kt kf => returns_without_next kt && returns_without_next kf
  | MwTry _ _ _ => false
  end.

(** A body that on every path calls [next] exactly once and returns, and
    catches nothing. *)
Fixpoint passes (code : MwCode W) : bool :=
  match code with
  | MwReturn => false
  | MwThrow _ => false
  | MwNext k => returns_without_next k
  | MwEffect _ k => passes k
  | MwBranch _ kt kf => passes kt && passes kf
  | MwTry _ _ _ => false
  end.

(** How far a body gets on its own when it is entered in the world [w]: to
    its first call of [next], made in the world [AtNext] carries, or to its
    end without any call of [next], with the outcome and the world [Done]
    carries. *)
Inductive Reach : Type :=
| AtNext (w : W)
| Done (r : Result unit) (w : W).

Fixpoint first_next (code : MwCode W) (w : W) : Reach :=
  match code with
  | MwReturn => Done (Ok ()) w
  | MwThrow e => Done (Throw e) w
  | MwNext _ => AtNext w
  | MwEffect f k => first_next k (f w)
  | MwBranch c kt kf => if c w then first_next kt w else first_next kf w
  | MwTry body handler rest =>
      match first_next body w with
      | AtNext w1 => AtNext w1
      | Done (Ok _) w1 => first_next rest w1
      | Done (Throw e) w1 =>
          match first_next (handler e) w1 with
          | AtNext w2 => AtNext w2
          | Done (Ok _) w2 => first_next rest w2
          | Done (Throw e') w2 => Done (Throw e') w2
          end
      end
  end.

(** The walk down the chain from the world [w] as the documentation of the
    pipeline describes it, given as the middleware entered and the world
    each is entered in: the first one is entered in [w], and
    the next one is entered when, and in the world where, the body calls its
    continuation for the first time; the walk ends at a body that ends
    without calling it. *)
Fixpoint descend (mCtx : MiddlewareContext) (chain : list (Middleware W)) (w : W)
    : list (Middleware W * W) :=
  match chain with
  | [] => []
  | middleware :: later =>
      (middleware, w) ::
      match first_next (mw_run middleware mCtx) w with
      | AtNext w1 => descend mCtx later w1
      | Done _ _ => []
      end
  end.

(** A body no path of which calls [next]. *)
Fixpoint never_calls_next (code : MwCode W) : Prop :=
  match code with
  | MwReturn => True
  | MwThrow _ => True
  | MwNext _ => False
  | MwEffect _ k => never_calls_next k
  | MwBranch _ kt kf => never_calls_next kt /\ never_calls_next kf
  | MwTry body handler rest =>
      never_calls_next body /\ (forall e, never_calls_next (handler e)) /\
      never_calls_next rest
  end.

(** A body no path of which calls [next] a second time. Around a [try]
    statement the call is looked for in one place: in the block, in the
    handler or after the statement. *)
Fixpoint calls_next_at_most_once (code : MwCode W) : Prop :=
  match code with
  | MwReturn => True
  | MwThrow _ => True
  | MwNext k => never_calls_next k
  | MwEffect _ k => calls_next_at_most_once k
  | MwBranch _ kt kf => calls_next_at_most_once kt /\ calls_next_at_most_once kf
  | MwTry body handler rest =>
      (calls_next_at_most_once body /\ (forall e, never_calls_next (handler e)) /\
       never_calls_next rest) \/
      (never_calls_next body /\ (forall e, calls_next_at_most_once (handler e)) /\
       never_calls_next rest) \/
      (never_calls_next body /\ (forall e, never_calls_next (handler e)) /\
       calls_next_at_most_once rest)
  end.

End Pipeline.
End Pipeline.

(* ===================================================================== *)
(** * ToolRegistry (core/src/tool/registry.ts) *)
(* ===================================================================== *)

Module ToolRegistry.
Section Registry.
Context {W : Type}.

(** A [Map] in insertion order. *)
Definition t : Type := list (string * ToolDefinition W).

Fixpoint set (name : string) (tool_ : ToolDefinition W) (reg : t) : t :=
  match reg with
  | [] => [(name, tool_)]
  | (k, v) :: rest =>
      if decide (k = name) then (k, tool_) :: rest else (k, v) :: set name tool_ rest
  end.

Definition register (tool_ : ToolDefinition W) (reg : t) : t :=
  set (schema_name (schema tool_)) tool_ reg.

Fixpoint get (reg : t) (name : string) : option (ToolDefinition W) :=
  match reg with
  | [] => None
  | (k, v) :: rest => if decide (k = name) then Some v else get rest name
  end.

Definition getAll (reg : t) : list (ToolDefinition W) := List.map snd reg.
Definition getSchemas (reg : t) : list ToolSchema := List.map schema (getAll reg).

Definition isAllowed (name : string) (allowed : option (list string)) : bool :=
  match allowed with
  | None => true
  | Some l => bool_decide (name ∈ l)
  end.

End Registry.
End ToolRegistry.

(* ===================================================================== *)
(** * Reasoning context (core/src/reasoning/context.ts) *)
(* ===================================================================== *)

Record ReasoningContext (W : Type) : Type := mkReasoningContext {
  rc_model : ModelProvider W;
  rc_tools : @ToolRegistry.t W;
  rc_policy : AgentPolicy;
  rc_middleware : list (Middleware W)
}.
Arguments rc_model {W} _.
Arguments rc_tools {W} _.
Arguments rc_policy {W} _.
Arguments rc_middleware {W} _.

Section Context.
Context {W : Type} (rCtx : ReasoningContext W).

Definition pushStep (step : ReasoningStep) : M W unit :=
  push_step step ;;
  emit "step:reasoning" (PayloadStep step).

Definition run_middleware (scope : MiddlewareScope) (info : ToolInfo) : M W unit :=
  c <- get_ctx ;;
  Pipeline.run (rc_middleware rCtx) (mkMwContext scope c (Some info)).

Definition unknown_tool (name : string) : Err :=
  "[Reasoning] Unknown tool: " +:+ dquote +:+ name +:+ dquote.
Definition tool_not_allowed (name : string) : Err :=
  "[Reasoning] Tool not allowed by policy: " +:+ dquote +:+ name +:+ dquote.

Definition callTool (name : string) (args : Args) (callId : string) : M W Json :=
  match ToolRegistry.get (rc_tools rCtx) name with
  | None => throw (unknown_tool name)
  | Some tool_ =>
      if negb (ToolRegistry.isAllowed name (allowedTools (rc_policy rCtx)))
      then throw (tool_not_allowed name)
      else
        let callStep := tool_call name args callId "runtime" in
        emit "tool:before" (PayloadToolBefore name args) ;;
        run_middleware tool_before (mkToolInfo name args None) ;;
        c <- get_ctx ;;
        outcome <- try_ (observe (ObsTool name args) ;; on_world (execute tool_ args c)) ;;
        match outcome with
        | Throw err =>
            let error := err in
            let resultStep := tool_result name callId JNull (Some error) "runtime" in
            push_step resultStep ;;
            push_toolCall (mkToolCall callId name args) JNull ;;
            push_message (tool_message (stringify (JObj [("error", JStr error)])) callId) ;;
            emit "tool:after" (PayloadToolError name error) ;;
            run_middleware tool_after (mkToolInfo name args (Some JNull)) ;;
            throw err
        | Ok result =>
            let resultStep := tool_result name callId result None "runtime" in
            push_step resultStep ;;
            push_toolCall (mkToolCall callId name args) result ;;
            text <- of_result (JSON_stringify result) ;;
            push_message (tool_message text callId) ;;
            emit "tool:after" (PayloadToolResult name result) ;;
            run_middleware tool_after (mkToolInfo name args (Some result)) ;;
            ret result
        end
  end.

End Context.

(* ===================================================================== *)
(** * Reasoning utilities (reasoning/src/utils.ts) *)
(* ===================================================================== *)

Record RawTask : Type := mkRawTask {
  raw_id : option string;
  raw_description : string;
  raw_dependsOn : option (list string)
}.

(** The functions the engines build on regular expressions, [JSON.parse],
    the conversion of a text to a number and [randomUUID], which belong to
    the platform. [parsePlan] and [parseCritique] return [None] where the
    [try] block of the source throws. A parsed plan has the shape of the
    type it is cast to; a parsed critique is whatever value [JSON.parse]
    made of the text, an object of the requested format or not.
    [text_at_least text n] is the comparison [text >= n] of a text with a
    number. *)
Record Platform (W : Type) : Type := mkPlatform {
  extractText : string -> string;
  extractThinking : string -> option string;
  parsePlan : string -> option (list RawTask);
  parseCritique : string -> option Json;
  text_at_least : string -> Z -> bool;
  randomUUID : W -> string * W
}.
Arguments extractText {W} _ _.
Arguments extractThinking {W} _ _.
Arguments parsePlan {W} _ _.
Arguments parseCritique {W} _ _.
Arguments text_at_least {W} _ _ _.
Arguments randomUUID {W} _ _.

(** [critique.key] on the value a critique is: a [TypeError] on [null],
    [undefined] ([None]) on a value without that property. The keys read are
    [score], [issues], [suggestion] and [needs_revision], which no number,
    text, boolean or array has. A critique is a value [JSON.parse] made, so
    it is never an object that refers to itself. *)
Definition member (v : Json) (key : string) : Result (option Json) :=
  match v with
  | JNull => Throw ("Cannot read properties of null (reading '" +:+ key +:+ "')")
  | JObj fields => Ok (get_field key fields)
  | _ => Ok None
  end.

(** [v.join(sep)], where [what] is the expression [v] stands for. *)
Definition call_join (what : string) (v : option Json) (sep : string) : Result string :=
  match v with
  | None => Throw "Cannot read properties of undefined (reading 'join')"
  | Some JNull => Throw "Cannot read properties of null (reading 'join')"
  | Some (JArr items) => Ok (js_join sep items)
  | Some _ => Throw (what +:+ ".join is not a function")
  end.

(** [v >= n] for a number [n]: the value is converted to a number, an array
    and a text through the platform; [undefined] and an object give [NaN],
    which is at least nothing. *)
Definition at_least {W} (js : Platform W) (v : option Json) (n : Z) : bool :=
  match v with
  | None => false
  | Some JNull => 0 >=? n
  | Some (JBool b) => (if b then 1 else 0) >=? n
  | Some (JNum k) => int_value k >=? n
  | Some (JStr s) => text_at_least js s n
  | Some (JArr items) => text_at_least js (js_String (JArr items)) n
  | Some (JObj _) => false
  | Some (JBigInt k) => k >=? n
  | Some (JCircular _) => false
  end.

Record ModelCallOptions : Type := mkCallOptions {
  opt_tools : option (list ToolSchema);
  opt_noTools : bool
}.

Definition defaultOptions : ModelCallOptions := mkCallOptions None false.
Definition noTools : ModelCallOptions := mkCallOptions None true.

(** [policy.tokenBudget && total >= policy.tokenBudget] *)
Definition budget_exceeded (policy : AgentPolicy) (total : Z) : bool :=
  match tokenBudget policy with
  | Some b => negb (b =? 0) && (total >=? b)
  | None => false
  end.

Section Utils.
Context {W : Type} (rCtx : ReasoningContext W).

Definition allowedSchemas : list ToolSchema :=
  List.filter
    (fun t => ToolRegistry.isAllowed (schema_name t) (allowedTools (rc_policy rCtx)))
    (ToolRegistry.getSchemas (rc_tools rCtx)).

(** [model.complete(request)] *)
Definition model_complete (request : ModelRequest) : M W ModelResponse :=
  observe (ObsModel request) ;;
  on_world (complete (rc_model rCtx) request).

Definition accumulate (budget_error : Err) (resp : ModelResponse) : M W unit :=
  match usage resp with
  | Some u =>
      add_usage u ;;
      st <- get_state ;;
      if budget_exceeded (rc_policy rCtx) (totalTokens (state_usage st))
      then throw budget_error
      else ret ()
  | None => ret ()
  end.

Definition callModel (msgs : list ModelMessage) (options : ModelCallOptions)
    : M W ModelResponse :=
  let tools :=
    if opt_noTools options then []
    else default allowedSchemas (opt_tools options) in
  resp <- model_complete (mkRequest msgs (Some tools)) ;;
  accumulate "[Reasoning] Token budget exceeded." resp ;;
  ret resp.

Fixpoint callEach (calls : list ToolCall) : M W unit :=
  match calls with
  | [] => ret ()
  | tc :: rest =>
      callTool rCtx (tc_name tc) (tc_arguments tc) (tc_id tc) ;;
      callEach rest
  end.

Definition executeToolCalls (resp : ModelResponse) : M W unit :=
  if negb (has_items (r_toolCalls resp)) then ret ()
  else callEach (default [] (r_toolCalls resp)).

End Utils.

(* ===================================================================== *)
(** * ReactEngine (reasoning/src/engines/react.ts) *)
(* ===================================================================== *)

Module ReactEngine.
Section Engine.
Context {W : Type} (rCtx : ReasoningContext W).

Record Config : Type := mkConfig { maxSteps : Z }.
Definition defaultConfig : Config := mkConfig 10.
Definition name : string := "react".

(** The [while (steps < maxSteps)] loop; [remaining] is [maxSteps - steps]. *)
Fixpoint loop (cfg : Config) (remaining : nat) : M W string :=
  match remaining with
  | O =>
      throw ("[ReactEngine] Max steps (" +:+ pretty (maxSteps cfg)
               +:+ ") reached without a final answer.")
  | S remaining' =>
      st <- get_state ;;
      resp <- callModel rCtx (messages st) defaultOptions ;;
      push_message (message resp) ;;
      (if truthy (content (message resp)) && has_items (r_toolCalls resp)
       then pushStep (thought (content (message resp)) name)
       else ret ()) ;;
      if negb (has_items (r_toolCalls resp)) then
        pushStep (response (content (message resp)) name) ;;
        ret (content (message resp))
      else
        executeToolCalls rCtx resp ;;
        loop cfg remaining'
  end.

Definition execute (cfg : Config) : M W string :=
  loop cfg (Z.to_nat (maxSteps cfg)).

End Engine.
End ReactEngine.

(* ===================================================================== *)
(** * ChainOfThoughtEngine (reasoning/src/engines/cot.ts) *)
(* ===================================================================== *)

Module ChainOfThoughtEngine.
Section Engine.
Context {W : Type} (rCtx : ReasoningContext W) (js : Platform W).

Record Config : Type := mkConfig {
  useThinkingTags : bool;
  maxToolSteps : Z;
  thinkingInstruction : string
}.
Definition name : string := "cot".

(** [result[systemIdx] = {...sys, content: ...}] at the first system message. *)
Fixpoint augmentFirstSystem (instruction : string) (msgs : list ModelMessage)
    : option (list ModelMessage) :=
  match msgs with
  | [] => None
  | m :: rest =>
      if is_system (role m) then
        Some (mkMessage (role m)
                (content m +:+ newline +:+ newline +:+ instruction)
                (toolCallId m) (m_toolCalls m) :: rest)
      else
        match augmentFirstSystem instruction rest with
        | Some rest' => Some (m :: rest')
        | None => None
        end
  end.

Definition injectInstruction (cfg : Config) (msgs : list ModelMessage) : list ModelMessage :=
  if negb (useThinkingTags cfg) then msgs
  else
    match augmentFirstSystem (thinkingInstruction cfg) msgs with
    | Some result => result
    | None => plain_message system (thinkingInstruction cfg) :: msgs
    end.

(** The [while (toolSteps < maxToolSteps)] loop. *)
Fixpoint toolLoop (cfg : Config) (remaining : nat) : M W string :=
  match remaining with
  | O =>
      throw ("[ChainOfThoughtEngine] Max tool steps (" +:+ pretty (maxToolSteps cfg)
               +:+ ") reached.")
  | S remaining' =>
      st <- get_state ;;
      next <- callModel rCtx (messages st) defaultOptions ;;
      push_message (message next) ;;
      if negb (has_items (r_toolCalls next)) then
        let answer := extractText js (content (message next)) in
        pushStep (response answer name) ;;
        ret answer
      else
        executeToolCalls rCtx next ;;
        toolLoop cfg remaining'
  end.

Definition execute (cfg : Config) : M W string :=
  st <- get_state ;;
  let msgs := injectInstruction cfg (messages st) in
  resp <- callModel rCtx msgs defaultOptions ;;
  push_message (message resp) ;;
  (if useThinkingTags cfg then
     match extractThinking js (content (message resp)) with
     | Some thinking =>
         if truthy thinking then pushStep (thought thinking name) else ret ()
     | None => ret ()
     end
   else ret ()) ;;
  if negb (has_items (r_toolCalls resp)) then
    let answer := extractText js (content (message resp)) in
    pushStep (response answer name) ;;
    ret answer
  else
    executeToolCalls rCtx resp ;;
    toolLoop cfg (Z.to_nat (maxToolSteps cfg - 1)).

End Engine.
End ChainOfThoughtEngine.

(* ===================================================================== *)
(** * PlannerEngine (reasoning/src/engines/planner.ts) *)
(* ===================================================================== *)

Module PlannerEngine.
Section Engine.
Context {W : Type} (rCtx : ReasoningContext W) (js : Platform W).

Record Config : Type := mkConfig {
  maxExecutionSteps : Z;
  allowReplan : bool;
  plannerPrompt : string;
  executorPrompt : string
}.
Definition name : string := "planner".

Fixpoint toTasks (raw : list RawTask) : M W (list PlanTask) :=
  match raw with
  | [] => ret []
  | t :: rest =>
      id <- match raw_id t with
            | Some id => ret id
            | None => on_world (fun w => let '(u, w') := randomUUID js w in (Ok u, w'))
            end ;;
      tasks <- toTasks rest ;;
      ret (mkTask id (raw_description t) (default [] (raw_dependsOn t)) pending None :: tasks)
  end.

Definition makePlan (cfg : Config) : M W (list PlanTask) :=
  c <- get_ctx ;;
  let planMessages :=
    [ plain_message system (plannerPrompt cfg); plain_message user (input c) ] in
  resp <- callModel rCtx planMessages noTools ;;
  match parsePlan js (content (message resp)) with
  | Some rawTasks => toTasks rawTasks
  | None => ret [ mkTask "t1" (input c) [] pending None ]
  end.

Definition depContext (task : PlanTask) (previousResults : gmap string string) : string :=
  match dependsOn task with
  | [] => ""
  | deps =>
      newline +:+ newline +:+ "Context from previous tasks:" +:+ newline +:+
      join newline
        (List.map (fun id => "[" +:+ id +:+ "]: " +:+ default "N/A" (previousResults !! id)) deps)
  end.

(** The [for (const tc of response.toolCalls)] loop of [_executeTask]. *)
Fixpoint taskTools (calls : list ToolCall) (taskMessages : list ModelMessage)
    : M W (list ModelMessage) :=
  match calls with
  | [] => ret taskMessages
  | tc :: rest =>
      result <- callTool rCtx (tc_name tc) (tc_arguments tc) (tc_id tc) ;;
      text <- of_result (JSON_stringify result) ;;
      taskTools rest (taskMessages ++ [tool_message text (tc_id tc)])
  end.

(** The [while (steps < maxTaskSteps)] loop of [_executeTask]. *)
Fixpoint taskLoop (task : PlanTask) (remaining : nat) (taskMessages : list ModelMessage)
    : M W string :=
  match remaining with
  | O =>
      throw ("[PlannerEngine] Task " +:+ dquote +:+ task_id task +:+ dquote
               +:+ " exceeded max steps.")
  | S remaining' =>
      resp <- callModel rCtx taskMessages defaultOptions ;;
      let taskMessages1 := taskMessages ++ [message resp] in
      if negb (has_items (r_toolCalls resp)) then
        ret (extractText js (content (message resp)))
      else
        taskMessages2 <- taskTools (default [] (r_toolCalls resp)) taskMessages1 ;;
        taskLoop task remaining' taskMessages2
  end.

Definition maxTaskSteps : nat := 5.

Definition executeTask (cfg : Config) (task : PlanTask)
    (previousResults : gmap string string) : M W string :=
  c <- get_ctx ;;
  let taskMessages :=
    [ plain_message system (executorPrompt cfg);
      plain_message user
        ("Original goal: " +:+ input c +:+ newline +:+ newline +:+ "Current task: "
           +:+ description task +:+ depContext task previousResults) ] in
  taskLoop task maxTaskSteps taskMessages.

Definition with_status (task : PlanTask) (st : TaskStatus) (res : option string) : PlanTask :=
  mkTask (task_id task) (description task) (dependsOn task) st res.

(** The [for (const task of plan)] loop of [execute]. The tasks are objects
    of the array [plan], mutated in place: [todo] is what is left of the
    array from index [i] on. *)
Fixpoint runTasks (cfg : Config) (todo : list PlanTask) (i : nat) (plan_ : list PlanTask)
    (taskResults : gmap string string) (executionSteps : Z)
    : M W (list PlanTask * gmap string string) :=
  match todo with
  | [] => ret (plan_, taskResults)
  | task :: later =>
      if executionSteps >=? maxExecutionSteps cfg then
        throw ("[PlannerEngine] Max execution steps (" +:+ pretty (maxExecutionSteps cfg)
                 +:+ ") reached.")
      else
        let unmetDeps :=
          List.filter (fun dep => bool_decide (taskResults !! dep = None)) (dependsOn task) in
        match unmetDeps with
        | _ :: _ => runTasks cfg later (S i) plan_ taskResults executionSteps
        | [] =>
            let plan1 := <[i := with_status task in_progress None]> plan_ in
            pushStep
              (thought ("Executing task [" +:+ task_id task +:+ "]: " +:+ description task) name) ;;
            outcome <- try_ (executeTask cfg task taskResults) ;;
            match outcome with
            | Ok result =>
                let plan2 := <[i := with_status task done_ (Some result)]> plan1 in
                runTasks cfg later (S i) plan2 (<[task_id task := result]> taskResults)
                  (executionSteps + 1)
            | Throw err =>
                let plan2 := <[i := with_status task failed None]> plan1 in
                if negb (allowReplan cfg) then
                  throw ("[PlannerEngine] Task " +:+ dquote +:+ task_id task +:+ dquote
                           +:+ " failed: " +:+ err)
                else runTasks cfg later (S i) plan2 taskResults executionSteps
            end
        end
  end.

Definition synthesize (plan_ : list PlanTask) (results : gmap string string) : M W string :=
  c <- get_ctx ;;
  let summaryContext :=
    join (newline +:+ newline)
      (List.map
         (fun t => "[" +:+ task_id t +:+ "] " +:+ description t +:+ ":" +:+ newline
                     +:+ default "no result" (results !! task_id t))
         (List.filter (fun t => bool_decide (status t = done_)) plan_)) in
  let synthMessages :=
    [ plain_message system
        "Synthesize the results of the completed tasks into a clear, direct answer to the original user request.";
      plain_message user
        ("Original request: " +:+ input c +:+ newline +:+ newline +:+ "Task results:"
           +:+ newline +:+ summaryContext) ] in
  resp <- callModel rCtx synthMessages noTools ;;
  ret (content (message resp)).

(** [execute]. The source pushes a plan step that holds the array [plan]
    itself, whose task objects the loop then mutates in place. The step
    pushed here records the tasks as they are when it is pushed; their later
    statuses and results are those of the plan [runTasks] returns. *)
Definition execute (cfg : Config) : M W string :=
  plan_ <- makePlan cfg ;;
  pushStep (plan plan_ name) ;;
  done <- runTasks cfg plan_ 0%nat plan_ ∅ 0 ;;
  summary <- synthesize (fst done) (snd done) ;;
  pushStep (response summary name) ;;
  ret summary.

End Engine.
End PlannerEngine.

(* ===================================================================== *)
(** * ReflectEngine (reasoning/src/engines/reflect.ts) *)
(* ===================================================================== *)

Module ReflectEngine.
Section Engine.
Context {W : Type} (rCtx : ReasoningContext W) (js : Platform W).

Record Config : Type := mkConfig {
  maxReflections : Z;
  acceptanceThreshold : Z;
  maxAnswerSteps : Z;
  critiquePrompt : string
}.
Definition name : string := "reflect".

(** [_generateAnswer], called on [ctx.state.messages] itself. *)
Fixpoint generateAnswer (cfg : Config) (remaining : nat) : M W string :=
  match remaining with
  | O =>
      throw ("[ReflectEngine] Max answer steps (" +:+ pretty (maxAnswerSteps cfg)
               +:+ ") reached.")
  | S remaining' =>
      st <- get_state ;;
      resp <- callModel rCtx (messages st) defaultOptions ;;
      push_message (message resp) ;;
      if negb (has_items (r_toolCalls resp)) then
        ret (extractText js (content (message resp)))
      else
        executeToolCalls rCtx resp ;;
        generateAnswer cfg remaining'
  end.

(** The critique [_critique] falls back on when the answer of the model
    does not parse. *)
Definition acceptCritique : Json :=
  JObj [ ("score", JNum (mkSafeInteger 9 eq_refl));
         ("issues", JArr []);
         ("suggestion", JStr "");
         ("needs_revision", JBool false) ].

Definition critiqueMessages (cfg : Config) (question answer : string) : list ModelMessage :=
  [ plain_message system (critiquePrompt cfg);
    plain_message user
      ("Question:" +:+ newline +:+ question +:+ newline +:+ newline
         +:+ "Answer to evaluate:" +:+ newline +:+ answer) ].

(** [_critique]: the value is cast to [CritiqueResult], not checked. *)
Definition critique (cfg : Config) (question answer : string) : M W Json :=
  resp <- callModel rCtx (critiqueMessages cfg question answer) noTools ;;
  ret (default acceptCritique (parseCritique js (content (message resp)))).

Definition revisionSystemPrompt : string :=
  "You are revising your previous answer based on critique. Produce an improved, complete answer.".

(** The messages of [_revise]; the template reads [critique.score],
    [critique.issues.join(', ')] and [critique.suggestion], in this order. *)
Definition revisionMessages (question currentAnswer : string) (c : Json)
    : Result (list ModelMessage) :=
  and_then (member c "score") (fun score =>
  and_then (member c "issues") (fun issues =>
  and_then (call_join "critique.issues" issues ", ") (fun joined =>
  and_then (member c "suggestion") (fun suggestion =>
  Ok [ plain_message system revisionSystemPrompt;
       plain_message user ("Original question:" +:+ newline +:+ question);
       plain_message assistant currentAnswer;
       plain_message user
         ("Critique of your answer:" +:+ newline +:+ "- Score: " +:+ js_String_of score
            +:+ "/10" +:+ newline +:+ "- Issues: " +:+ joined +:+ newline
            +:+ "- Suggestion: " +:+ js_String_of suggestion +:+ newline +:+ newline
            +:+ "Please revise your answer to address these issues.") ])))).

Definition revise (question currentAnswer : string) (c : Json) : M W string :=
  revisionMessages_ <- of_result (revisionMessages question currentAnswer c) ;;
  resp <- callModel rCtx revisionMessages_ defaultOptions ;;
  if has_items (r_toolCalls resp) then
    push_message (message resp) ;;
    executeToolCalls rCtx resp ;;
    st <- get_state ;;
    final <- callModel rCtx (messages st) noTools ;;
    ret (extractText js (content (message final)))
  else ret (extractText js (content (message resp))).

Definition revisingThought (cfg : Config) (i : Z) : ReasoningStep :=
  thought ("Revising answer (attempt " +:+ pretty (i + 1) +:+ "/"
             +:+ pretty (maxReflections cfg) +:+ ")...") name.

(** The assessment of the reflection step; the template reads
    [critique.score], [critique.issues.join('; ')] and
    [critique.suggestion], in this order, and throws a [TypeError] on a
    critique that is [null] or whose [issues] is not an array. *)
Definition assessment (crit : Json) : Result string :=
  and_then (member crit "score") (fun score =>
  and_then (member crit "issues") (fun issues =>
  and_then (call_join "critique.issues" issues "; ") (fun joined =>
  and_then (member crit "suggestion") (fun suggestion =>
  Ok ("Score: " +:+ js_String_of score +:+ "/10. Issues: " +:+ joined +:+ ". "
        +:+ js_String_of suggestion))))).

Definition reflectionStep (crit : Json) : Result ReasoningStep :=
  and_then (assessment crit) (fun text =>
  and_then (member crit "needs_revision") (fun needsRevision =>
  Ok (reflection text needsRevision name))).

(** The [for (let i = 0; i < maxReflections; i++)] loop; [remaining] is
    [maxReflections - i]. *)
Fixpoint reflectLoop (cfg : Config) (remaining : nat) (i : Z) (answer : string) : M W string :=
  match remaining with
  | O => ret answer
  | S remaining' =>
      c <- get_ctx ;;
      crit <- critique cfg (input c) answer ;;
      step <- of_result (reflectionStep crit) ;;
      pushStep step ;;
      needs_revision <- of_result (member crit "needs_revision") ;;
      score <- of_result (member crit "score") ;;
      if negb (js_truthy needs_revision) || at_least js score (acceptanceThreshold cfg) then
        ret answer
      else
        pushStep (revisingThought cfg i) ;;
        answer' <- revise (input c) answer crit ;;
        reflectLoop cfg remaining' (i + 1) answer'
  end.

Definition execute (cfg : Config) : M W string :=
  answer <- generateAnswer cfg (Z.to_nat (maxAnswerSteps cfg)) ;;
  pushStep (thought "Initial answer generated." name) ;;
  answer' <- reflectLoop cfg (Z.to_nat (maxReflections cfg)) 0 answer ;;
  pushStep (response answer' name) ;;
  ret answer'.

End Engine.
End ReflectEngine.

(* ===================================================================== *)
(** * AutonomousEngine (reasoning/src/engines/autonomous.ts) *)
(* ===================================================================== *)

Module AutonomousEngine.
Section Engine.
Context {W : Type} (rCtx : ReasoningContext W) (js : Platform W).

Record Config : Type := mkConfig {
  maxSteps : Z;
  finishToolName : string;
  finishToolDescription : string
}.
Definition defaultConfig : Config :=
  mkConfig 30 "finish"
    "Signal that you have completed the task. Call this with your final answer.".
Definition name : string := "autonomous".

Definition finishSchema (cfg : Config) : ToolSchema :=
  mkSchema (finishToolName cfg) (finishToolDescription cfg)
    (JObj [ ("type", JStr "object");
            ("properties",
             JObj [ ("result",
                     JObj [ ("type", JStr "string");
                            ("description", JStr "Your final answer or output.") ]) ]);
            ("required", JArr [ JStr "result" ]) ]).

Definition allSchemas (cfg : Config) : list ToolSchema :=
  allowedSchemas rCtx ++ [finishSchema cfg].

(** [String(finishCall.arguments.result ?? response.message.content)] *)
Definition finishResult (finishCall : ToolCall) (resp : ModelResponse) : string :=
  match get_field "result" (tc_arguments finishCall) with
  | None | Some JNull => content (message resp)
  | Some v => js_String v
  end.

(** The [while (steps < maxSteps)] loop. *)
Fixpoint loop (cfg : Config) (remaining : nat) : M W string :=
  match remaining with
  | O =>
      throw ("[AutonomousEngine] Max steps (" +:+ pretty (maxSteps cfg)
               +:+ ") reached. The agent did not call " +:+ dquote +:+ finishToolName cfg
               +:+ dquote +:+ ".")
  | S remaining' =>
      st <- get_state ;;
      resp <- model_complete rCtx (mkRequest (messages st) (Some (allSchemas cfg))) ;;
      accumulate rCtx "[AutonomousEngine] Token budget exceeded." resp ;;
      push_message (message resp) ;;
      (if truthy (content (message resp))
       then pushStep (thought (content (message resp)) name)
       else ret ()) ;;
      if has_items (r_toolCalls resp) then
        let calls := default [] (r_toolCalls resp) in
        match List.find (fun tc => bool_decide (tc_name tc = finishToolName cfg)) calls with
        | Some finishCall =>
            let result := finishResult finishCall resp in
            push_message
              (tool_message (stringify (JObj [("done", JBool true)])) (tc_id finishCall)) ;;
            pushStep (response result name) ;;
            ret result
        | None =>
            let regularCalls :=
              List.filter (fun tc => negb (bool_decide (tc_name tc = finishToolName cfg))) calls in
            callEach rCtx regularCalls ;;
            loop cfg remaining'
        end
      else
        let answer := extractText js (content (message resp)) in
        pushStep (response answer name) ;;
        ret answer
  end.

Definition execute (cfg : Config) : M W string :=
  loop cfg (Z.to_nat (maxSteps cfg)).

End Engine.
End AutonomousEngine.


(* ===================================================================== *)
(** * The built-in engines (reasoning/src/index.ts) *)
(* ===================================================================== *)

(** The five engines registered under the strategy names ['react'],
    ['cot'], ['planner'], ['reflect'] and ['autonomous'], each with its
    configuration. *)
Inductive BuiltinEngine : Type :=
| React (cfg : ReactEngine.Config)
| ChainOfThought (cfg : ChainOfThoughtEngine.Config)
| Planner (cfg : PlannerEngine.Config)
| Reflect (cfg : ReflectEngine.Config)
| Autonomous (cfg : AutonomousEngine.Config).

Definition engine_name (e : BuiltinEngine) : string :=
  match e with
  | React _ => ReactEngine.name
  | ChainOfThought _ => ChainOfThoughtEngine.name
  | Planner _ => PlannerEngine.name
  | Reflect _ => ReflectEngine.name
  | Autonomous _ => AutonomousEngine.name
  end.

(** [engine.execute(rCtx)] *)
Definition engine_execute {W} (rCtx : ReasoningContext W) (js : Platform W)
    (e : BuiltinEngine) : M W string :=
  match e with
  | React cfg => ReactEngine.execute rCtx cfg
  | ChainOfThought cfg => ChainOfThoughtEngine.execute rCtx js cfg
  | Planner cfg => PlannerEngine.execute rCtx js cfg
  | Reflect cfg => ReflectEngine.execute rCtx js cfg
  | Autonomous cfg => AutonomousEngine.execute rCtx js cfg
  end.

(** The step list of a machine, and the machine a run starts from. *)
Definition steps_of {W} (s : Machine W) : list ReasoningStep := steps (state (ctx s)).

Definition fresh_machine {W} (input sessionId : string) (w : W) : Machine W :=
  mkMachine (createContext input sessionId) w [].

(** Seeding of the messages by the agent runtime before the engine runs
    (without memory). *)
Definition seeded_machine {W} (systemPrompt : option string) (input sessionId : string) (w : W)
    : Machine W :=
  let seed :=
    match systemPrompt with
    | Some p => if truthy p then [plain_message system p] else []
    | None => []
    end ++ [plain_message user input] in
  mkMachine (mkContext input sessionId (mkState [] seed [] emptyUsage)) w [].

(** A step that is neither a response nor a tool call. *)
Definition plain_step (st : ReasoningStep) : Prop :=
  is_response st = false /\ is_tool_call st = false.

(** The state after the bookkeeping of a tool invocation that ended with
    [outcome]. *)
Definition recorded_result (outcome : Result Json) : Json :=
  match outcome with Ok v => v | Throw _ => JNull end.
Definition recorded_error (outcome : Result Json) : option string :=
  match outcome with Ok _ => None | Throw e => Some e end.
Definition recorded_content (outcome : Result Json) : string :=
  match outcome with
  | Ok v => stringify v
  | Throw e => stringify (JObj [("error", JStr e)])
  end.
Definition after_payload (name : string) (outcome : Result Json) : Payload :=
  match outcome with
  | Ok v => PayloadToolResult name v
  | Throw e => PayloadToolError name e
  end.

(** The text of the tool message, as [JSON.stringify] gives it or fails to:
    it is called on the result of a body that returned, and on an object
    holding the error text of a body that threw. *)
Definition message_text (outcome : Result Json) : Result string :=
  match outcome with
  | Ok v => JSON_stringify v
  | Throw e => Ok (stringify (JObj [("error", JStr e)]))
  end.

(** The state after the part of the bookkeeping that comes before the tool
    message: the step and the pair. *)
Definition record_step_and_pair (name : string) (args : Args) (callId : string)
    (outcome : Result Json) (e : ExecutionState) : ExecutionState :=
  mkState
    (steps e ++ [tool_result name callId (recorded_result outcome) (recorded_error outcome) "runtime"])
    (messages e)
    (toolCalls e ++ [(mkToolCall callId name args, recorded_result outcome)])
    (state_usage e).

Definition record_tool_outcome (name : string) (args : Args) (callId : string)
    (outcome : Result Json) (e : ExecutionState) : ExecutionState :=
  mkState
    (steps e ++ [tool_result name callId (recorded_result outcome) (recorded_error outcome) "runtime"])
    (messages e ++ [tool_message (recorded_content outcome) callId])
    (toolCalls e ++ [(mkToolCall callId name args, recorded_result outcome)])
    (state_usage e).

(* ===================================================================== *)
(** * Predicates on computations *)
(* ===================================================================== *)

Section Predicates.
Context {W : Type}.

(** A computation that leaves the execution context as it found it. *)
Definition keeps_ctx {A} (m : M W A) : Prop := forall s, ctx (snd (m s)) = ctx s.

(** A computation that only appends steps, all of them satisfying [P],
    whatever its outcome, and leaves the input of the run alone. *)
Definition appends {A} (P : ReasoningStep -> Prop) (m : M W A) : Prop :=
  forall s, exists pushed,
    steps_of (snd (m s)) = steps_of s ++ pushed /\ Forall P pushed /\
    input (ctx (snd (m s))) = input (ctx s).

(** A computation that pushes plain steps and, when it returns a text,
    ends by pushing the response step of that text. *)
Definition answers (eng : string) (m : M W string) : Prop :=
  forall s, exists pushed,
    steps_of (snd (m s)) = steps_of s ++ pushed /\
    match fst (m s) with
    | Ok text => exists before, pushed = before ++ [response text eng] /\ Forall plain_step before
    | Throw _ => Forall plain_step pushed
    end.


(** The request a model call sends. *)
Definition request_of (rCtx : ReasoningContext W) (msgs : list ModelMessage) (options : ModelCallOptions) : ModelRequest :=
  mkRequest msgs
    (Some (if opt_noTools options then []
           else default (allowedSchemas rCtx) (opt_tools options))).

End Predicates.

(* ===================================================================== *)
(** * Further definitions used in the statements below *)
(* ===================================================================== *)

(** The condition that closes a turn in [groupIntoTurns]: an assistant
    message with no pending tool calls. *)
Definition ends_turn (msg : ModelMessage) : bool :=
  bool_decide (role msg = assistant) && negb (has_items (m_toolCalls msg)).

(** A middleware body that on every path throws [e] before any call of
    [next]. *)
Fixpoint throws_without_next {W} (e : Err) (code : MwCode W) : bool :=
  match code with
  | MwReturn => false
  | MwThrow e' => bool_decide (e' = e)
  | MwNext _ => false
  | MwEffect _ k => throws_without_next e k
  | MwBranch _ kt kf => throws_without_next e kt && throws_without_next e kf
  | MwTry _ _ _ => false
  end.

Definition is_model_obs {W} (o : Obs W) : bool :=
  match o with ObsModel _ => true | _ => false end.

(** The number of requests sent to the model in a trace. *)
Definition model_requests {W} (tr : list (Obs W)) : nat :=
  length (List.filter is_model_obs tr).


Definition count_steps (f : ReasoningStep -> bool) (l : list ReasoningStep) : nat :=
  length (List.filter f l).

(** A turn that was closed by its last message: an assistant message
    without pending tool calls, the only such message of the turn. *)
Definition closed_turn (t : SlidingWindow.ConversationTurn) : Prop :=
  exists body last_,
    SlidingWindow.messages t = body ++ [last_] /\
    ends_turn last_ = true /\
    Forall (fun m => ends_turn m = false) body.

(** A trailing turn that no message closed. *)
Definition open_turn (t : SlidingWindow.ConversationTurn) : Prop :=
  SlidingWindow.messages t <> [] /\
  Forall (fun m => ends_turn m = false) (SlidingWindow.messages t).

(** A computation that only extends the trace, by observations that
    satisfy [R] together, whatever its outcome. *)
Definition adds {W A} (R : list (Obs W) -> Prop) (m : M W A) : Prop :=
  forall s, exists added, trace (snd (m s)) = trace s ++ added /\ R added.

(** A computation that sends at most [n] requests to the model. *)
Definition sends_at_most {W A} (n : nat) (m : M W A) : Prop :=
  adds (fun added => (model_requests added <= n)%nat) m.



(** The observations a middleware pipeline may add: middleware entries only. *)
Definition only_middleware {W} (added : list (Obs W)) : Prop :=
  Forall (fun o => is_middleware o = true) added.

(** A computation that pushes at most [n] steps selected by [f]. *)
Definition pushes_at_most {W A} (f : ReasoningStep -> bool) (n : nat) (m : M W A) : Prop :=
  forall s, exists pushed,
    steps_of (snd (m s)) = steps_of s ++ pushed /\ (count_steps f pushed <= n)%nat.

(** A step that is not a reflection. *)
Definition quiet_step (st : ReasoningStep) : Prop := is_reflection st = false.

(* ===================================================================== *)
(** * EventEmitter (core/src/event/emitter.ts) *)
(* ===================================================================== *)

Module EventEmitter.

(** Handlers are functions, compared by identity in [off]; a handler is
    known here by a number that stands for that identity. *)
Definition Handler : Type := nat.

Abbreviation t := (gmap string (list Handler)).

Definition on (event : string) (handler : Handler) (handlers : t) : t :=
  <[event := default [] (handlers !! event) ++ [handler]]> handlers.

Definition off (event : string) (handler : Handler) (handlers : t) : t :=
  match handlers !! event with
  | Some list_ =>
      <[event := List.filter (fun h => negb (bool_decide (h = handler))) list_]> handlers
  | None => handlers
  end.

(** The handlers [emit] calls with the payload, in the order of the calls. *)
Definition emit (event : string) (handlers : t) : list Handler :=
  default [] (handlers !! event).

End EventEmitter.

(* ===================================================================== *)
(** * AgentInstance (core/src/agent/agent.ts) *)
(* ===================================================================== *)

Module Agent.

(** The [MemoryProvider] interface as the agent uses it. A provider keeps
    its sessions in the world. *)
Record MemoryProvider (W : Type) : Type := mkMemory {
  mem_read : MemoryReadOptions -> W -> Result (list ModelMessage) * W;
  mem_write : list ModelMessage -> MemoryWriteOptions -> W -> Result unit * W
}.
Arguments mkMemory {W} _ _.
Arguments mem_read {W} _ _ _.
Arguments mem_write {W} _ _ _ _.

(** The [ReasoningEngine] interface. *)
Record ReasoningEngine (W : Type) : Type := mkEngine {
  eng_name : string;
  eng_execute : ReasoningContext W -> M W string
}.
Arguments mkEngine {W} _ _.
Arguments eng_name {W} _.
Arguments eng_execute {W} _ _.

(** The fields of an agent that [run] reads. [reasoningStrategy] is the
    entry ['__reasoningStrategy'] of the store. *)
Record AgentInstance (W : Type) : Type := mkAgent {
  config_name : string;
  systemPrompt : option string;
  _model : option (ModelProvider W);
  _memory : option (MemoryProvider W);
  _engine : option (ReasoningEngine W);
  reasoningStrategy : option string;
  _policy : AgentPolicy;
  _tools : @ToolRegistry.t W;
  _middleware : list (Middleware W)
}.
Arguments mkAgent {W} _ _ _ _ _ _ _ _ _.
Arguments config_name {W} _.
Arguments systemPrompt {W} _.
Arguments _model {W} _.
Arguments _memory {W} _.
Arguments _engine {W} _.
Arguments reasoningStrategy {W} _.
Arguments _policy {W} _.
Arguments _tools {W} _.
Arguments _middleware {W} _.

Record RunOptions : Type := mkRunOptions {
  opt_input : string;
  opt_sessionId : option string
}.

Record RunResult : Type := mkRunResult {
  output : string;
  result_state : ExecutionState
}.

(** The events the agent hands to its emitter, with their payloads. *)
Inductive AgentEvent : Type :=
| RunStart (input sessionId : string)
| RunEnd (output : string) (state : ExecutionState)
| ErrorEvent (err : Err)
| MemoryRead (sessionId : string)
| MemoryWrite (sessionId : string).

Definition event_name (ev : AgentEvent) : string :=
  match ev with
  | RunStart _ _ => "run:start"
  | RunEnd _ _ => "run:end"
  | ErrorEvent _ => "error"
  | MemoryRead _ => "memory:read"
  | MemoryWrite _ => "memory:write"
  end.

(** What a run of the agent does, in order: its own events, and what the
    middleware, the engine and the tools do inside it. *)
Inductive AgentObs (W : Type) : Type :=
| Emitted (ev : AgentEvent)
| Inner (o : Obs W).
Arguments Emitted {W} ev.
Arguments Inner {W} o.

Record AgentMachine (W : Type) : Type := mkAgentMachine {
  am_ctx : ExecutionContext;
  am_world : W;
  am_log : list (AgentObs W)
}.
Arguments mkAgentMachine {W} _ _ _.
Arguments am_ctx {W} _.
Arguments am_world {W} _.
Arguments am_log {W} _.

Definition AM (W A : Type) : Type := AgentMachine W -> Result A * AgentMachine W.

Definition a_ret {W A} (a : A) : AM W A := fun s => (Ok a, s).
Definition a_throw {W A} (e : Err) : AM W A := fun s => (Throw e, s).
Definition a_bind {W A B} (m : AM W A) (k : A -> AM W B) : AM W B :=
  fun s =>
    match m s with
    | (Ok a, s') => k a s'
    | (Throw e, s') => (Throw e, s')
    end.
Definition a_try {W A} (m : AM W A) : AM W (Result A) :=
  fun s => let '(r, s') := m s in (Ok r, s').

Declare Scope agent_scope.
Delimit Scope agent_scope with agent.
Notation "x <- c1 ;; c2" := (a_bind c1 (fun x => c2))
  (at level 100, c1 at next level, right associativity) : agent_scope.
Notation "c1 ;; c2" := (a_bind c1 (fun _ => c2))
  (at level 100, right associativity) : agent_scope.

(** [createPassthroughEngine()]: one request without a [tools] field; the
    usage is added and no budget is checked. *)
Definition passthrough {W} : ReasoningEngine W :=
  mkEngine "passthrough"
    (fun rCtx =>
       st <- get_state ;;
       resp <- model_complete rCtx (mkRequest (messages st) None) ;;
       match usage resp with
       | Some u => add_usage u
       | None => ret ()
       end ;;
       push_message (message resp) ;;
       pushStep (response (content (message resp)) "passthrough") ;;
       ret (content (message resp)))%run.

(** A built-in engine as the factories of the engine registry make it. *)
Definition builtin {W} (js : Platform W) (e : BuiltinEngine) : ReasoningEngine W :=
  mkEngine (engine_name e) (fun rCtx => engine_execute rCtx js e).

Section Agent.
Context {W : Type}.
Local Open Scope agent_scope.

Definition a_get_ctx : AM W ExecutionContext := fun s => (Ok (am_ctx s), s).

Definition a_modify_state (f : ExecutionState -> ExecutionState) : AM W unit :=
  fun s =>
    let c := am_ctx s in
    (Ok (), mkAgentMachine (mkContext (input c) (sessionId c) (f (state c)))
              (am_world s) (am_log s)).

Definition a_on_world {A} (f : W -> Result A * W) : AM W A :=
  fun s => let '(r, w) := f (am_world s) in (r, mkAgentMachine (am_ctx s) w (am_log s)).

(** [await this._emitter.emit(event, payload)]; the handlers are listeners
    whose own effects are outside the model. *)
Definition a_emit (ev : AgentEvent) : AM W unit :=
  fun s => (Ok (), mkAgentMachine (am_ctx s) (am_world s) (am_log s ++ [Emitted ev])).

(** A computation of the runtime inside a run of the agent: what it
    observes is appended to the log. *)
Definition lift {A} (m : M W A) : AM W A :=
  fun s =>
    let '(r, s') := m (mkMachine (am_ctx s) (am_world s) []) in
    (r, mkAgentMachine (ctx s') (world s') (am_log s ++ List.map Inner (trace s'))).

Definition a_result {A} (r : Result A) : AM W A :=
  match r with
  | Ok a => a_ret a
  | Throw e => a_throw e
  end.

Variable agent : AgentInstance W.

(** The module-level [engineRegistry], with the engines its factories make. *)
Variable engineRegistry : gmap string (ReasoningEngine W).

Definition resolveEngine : Result (ReasoningEngine W) :=
  match _engine agent with
  | Some engine => Ok engine
  | None =>
      let byDefault :=
        match engineRegistry !! "react" with
        | Some reactEngine => Ok reactEngine
        | None => Ok passthrough
        end in
      match reasoningStrategy agent with
      | Some strategyName =>
          if truthy strategyName then
            match engineRegistry !! strategyName with
            | Some engine => Ok engine
            | None =>
                Throw ("[Agent] Reasoning strategy " +:+ dquote +:+ strategyName +:+ dquote
                         +:+ " not registered. "
                         +:+ "Import @agentlib/reasoning and call registerEngines() first.")
            end
          else byDefault
      | None => byDefault
      end
  end.

(** The messages [_executeWithEngine] seeds the state with. *)
Definition seedMessages (input : string) : list ModelMessage :=
  match systemPrompt agent with
  | Some p => if truthy p then [plain_message system p] else []
  | None => []
  end ++ [plain_message user input].

Definition set_messages (f : list ModelMessage -> list ModelMessage) : AM W unit :=
  a_modify_state (fun e => mkState (steps e) (f (messages e)) (toolCalls e) (state_usage e)).

Definition executeWithEngine : AM W string :=
  match _model agent with
  | None => a_throw ("[Agent:" +:+ config_name agent +:+ "] No model provider configured.")
  | Some model =>
      engine <- a_result resolveEngine ;;
      c <- a_get_ctx ;;
      set_messages (fun _ => seedMessages (input c)) ;;
      match _memory agent with
      | Some memory =>
          a_emit (MemoryRead (sessionId c)) ;;
          history <- a_on_world (mem_read memory (mkReadOptions (Some (sessionId c)))) ;;
          set_messages (fun seeded => history ++ seeded)
      | None => a_ret ()
      end ;;
      output <- lift (eng_execute engine
                        (mkReasoningContext W model (_tools agent) (_policy agent)
                           (_middleware agent))) ;;
      match _memory agent with
      | Some memory =>
          a_emit (MemoryWrite (sessionId c)) ;;
          c' <- a_get_ctx ;;
          a_on_world
            (mem_write memory (messages (state c'))
               (mkWriteOptions (Some (sessionId c)) (Some (config_name agent))))
      | None => a_ret ()
      end ;;
      a_ret output
  end.

(** The [try] block of [run]. The dates [startedAt] and [finishedAt] of
    the state are not part of the model. *)
Definition attempt : AM W RunResult :=
  c <- a_get_ctx ;;
  lift (Pipeline.run (_middleware agent) (mkMwContext run_before c None)) ;;
  output <- executeWithEngine ;;
  c1 <- a_get_ctx ;;
  lift (Pipeline.run (_middleware agent) (mkMwContext run_after c1 None)) ;;
  c2 <- a_get_ctx ;;
  a_emit (RunEnd output (state c2)) ;;
  a_ret (mkRunResult output (state c2)).

(** [run], from the context [createContext] made. *)
Definition run_from : AM W RunResult :=
  c <- a_get_ctx ;;
  a_emit (RunStart (input c) (sessionId c)) ;;
  outcome <- a_try attempt ;;
  match outcome with
  | Ok result => a_ret result
  | Throw err => a_emit (ErrorEvent err) ;; a_throw err
  end.

(** [run(options)]: the session id is [options.sessionId ?? randomUUID()]. *)
Definition run (js : Platform W) (options : RunOptions) (w : W)
    : Result RunResult * AgentMachine W :=
  let '(sid, w1) :=
    match opt_sessionId options with
    | Some s => (s, w)
    | None => randomUUID js w
    end in
  run_from (mkAgentMachine (createContext (opt_input options) sid) w1 []).

End Agent.

(** The observations of the runtime in a log, and the events of the agent. *)
Definition inner {W} (log : list (AgentObs W)) : list (Obs W) :=
  omap (fun o => match o with Inner i => Some i | Emitted _ => None end) log.

Definition events {W} (log : list (AgentObs W)) : list AgentEvent :=
  omap (fun o => match o with Emitted ev => Some ev | Inner _ => None end) log.

(** A memory provider of the repository as the agent sees it, its sessions
    being the world. *)
Definition bufferMemory (cfg : Buffer.Config) : MemoryProvider Buffer.Store :=
  mkMemory
    (fun options store => (Ok (Buffer.read cfg store options), store))
    (fun msgs options store => (Ok (), Buffer.write cfg store msgs options)).

(** A computation of the agent that only adds to the log. *)
Definition extends_log {W A} (m : AM W A) : Prop :=
  forall a, exists added, am_log (snd (m a)) = am_log a ++ added.

(** The output of a run that returned. *)
Definition output_of (r : Result RunResult) : option string :=
  match r with
  | Ok result => Some (output result)
  | Throw _ => None
  end.

End Agent.

(* ===================================================================== *)
(** * Concrete scenarios *)
(* ===================================================================== *)

Module Scenario.

(** One stored turn of two messages, and a budget that only the newer
    message fits. *)
Definition sw_cfg : SlidingWindow.Config := SlidingWindow.mkConfig 10 50.
Definition sw_turn : list ModelMessage :=
  [ plain_message user "aaaaaaaaaaaaaaaa"; plain_message assistant "ok" ].
Definition sw_sessions : SlidingWindow.Sessions :=
  SlidingWindow.write sw_cfg ∅ sw_turn (mkWriteOptions None None).

(** A summarizer whose model answers with empty content, and a window
    budget that two short messages exceed. *)
Definition sum_model : ModelProvider unit :=
  mkModel unit (fun _ w => (Ok (mkResponse (plain_message assistant "") None None), w)).
Definition sum_cfg : Summarizing.Config unit :=
  Summarizing.mkConfig unit sum_model 0 600 "Summarize.".
Definition sum_msgs : list ModelMessage :=
  [ plain_message user "hi"; plain_message assistant "yo" ].

(** A summarizer whose model answers with a summary. *)
Definition sum_model_ok : ModelProvider unit :=
  mkModel unit (fun _ w => (Ok (mkResponse (plain_message assistant "greeting") None None), w)).
Definition sum_cfg_ok : Summarizing.Config unit :=
  Summarizing.mkConfig unit sum_model_ok 0 600 "Summarize.".

(** A provider written outside the library that keeps one list of messages
    and has no [clear] method. *)
Definition keeper : Composite.CustomProvider (list ModelMessage) :=
  Composite.mkCustom (list ModelMessage)
    [ plain_message user "remember me" ]
    (fun _ st => (Ok st, st))
    (fun msgs _ _ => (Ok (), msgs))
    None.
Definition keeper_composite : Composite.Provider unit (list ModelMessage) :=
  Composite.PComposite Composite.first_hit [ Composite.PCustom keeper ].

(** A composite of the three built-in stores. *)
Definition builtin_composite : Composite.Provider unit (list ModelMessage) :=
  Composite.PComposite Composite.merge
    [ Composite.PBuffer (Buffer.mkConfig 20 None) {[ "s1" := sum_msgs ]};
      Composite.PSlidingWindow sw_cfg sw_sessions ].

(** Four middleware over a world that counts effects: an unscoped one that
    counts and passes on, one scoped to [tool:before] that returns without
    calling [next], one scoped to both tool scopes, one scoped to
    [run:before]. *)
Definition mw_count : Middleware nat :=
  mkMiddleware nat (Some "count") None (fun _ => MwEffect S (MwNext MwReturn)).
Definition mw_stop : Middleware nat :=
  mkMiddleware nat (Some "stop") (Some (OneScope tool_before)) (fun _ => MwReturn).
Definition mw_tools : Middleware nat :=
  mkMiddleware nat (Some "tools") (Some (ManyScopes [tool_before; tool_after]))
    (fun _ => MwNext MwReturn).
Definition mw_start : Middleware nat :=
  mkMiddleware nat (Some "start") (Some (OneScope run_before)) (fun _ => MwNext MwReturn).
Definition mw_list : list (Middleware nat) := [mw_count; mw_stop; mw_tools; mw_start].
Definition mw_ctx : MiddlewareContext :=
  mkMwContext tool_before (createContext "hello" "s1") None.

(** A registry with a tool that answers and a tool that throws; a policy
    that allows both and one that allows only the first. *)
Definition search_tool : ToolDefinition nat :=
  mkTool nat (mkSchema "search" "Search the web" JNull)
    (fun args _ w => (Ok (JObj [("results", JArr [JStr "found"])]), S w)).
Definition broken_tool : ToolDefinition nat :=
  mkTool nat (mkSchema "broken" "Always fails" JNull)
    (fun args _ w => (Throw "boom", w)).
Definition registry : @ToolRegistry.t nat :=
  ToolRegistry.register broken_tool (ToolRegistry.register search_tool []).

Definition allow_all : AgentPolicy := mkPolicy None None None.
Definition allow_search : AgentPolicy := mkPolicy None (Some ["search"]) None.

(** A middleware on [tool:after] that throws. *)
Definition mw_after_throws : Middleware nat :=
  mkMiddleware nat (Some "audit") (Some (OneScope tool_after)) (fun _ => MwThrow "audit failed").

Definition silent_model : ModelProvider nat :=
  mkModel nat (fun _ w => (Ok (mkResponse (plain_message assistant "42") None None), w)).

Definition rctx_plain : ReasoningContext nat :=
  mkReasoningContext nat silent_model registry allow_all [mw_count].
Definition rctx_audit : ReasoningContext nat :=
  mkReasoningContext nat silent_model registry allow_all [mw_after_throws].
Definition rctx_restricted : ReasoningContext nat :=
  mkReasoningContext nat silent_model registry allow_search [mw_count].

Definition start : Machine nat := seeded_machine None "question" "s1" 0%nat.

(** The critique the critic below answers with, and the values of the JSON
    texts the models of the scenarios answer. *)
Definition good_critique : Json :=
  JObj [ ("score", JNum (mkSafeInteger 9 eq_refl));
         ("issues", JArr []);
         ("suggestion", JStr "Keep it.");
         ("needs_revision", JBool false) ].
Definition json_values : list Json := [ JNum (mkSafeInteger 42 eq_refl); good_critique ].

(** [JSON.parse] on the texts of these values; the other answers of the
    models of the scenarios are not JSON. *)
Definition JSON_parse (text : string) : option Json :=
  List.find (fun v => bool_decide (stringify v = text)) json_values.

(** The number a text of decimal digits writes. *)
Fixpoint digits_value (acc : Z) (text : string) : option Z :=
  match text with
  | EmptyString => Some acc
  | String c rest =>
      let n := Z.of_nat (nat_of_ascii c) in
      if (48 <=? n) && (n <=? 57) then digits_value (10 * acc + (n - 48)) rest else None
  end.

(** Platform functions for the scenarios. The answers of their models have
    no thinking block, no code fence and no space around them: the text is
    taken as it is and parsed as it is. None of them is an array, so none
    is a plan. A text of decimal digits is compared as the number it
    writes; the scenarios compare no other text. *)
Definition plain_js : Platform nat :=
  mkPlatform nat (fun text => text) (fun _ => None) (fun _ => None) JSON_parse
    (fun text n =>
       match digits_value 0 text with
       | Some k => k >=? n
       | None => false
       end)
    (fun w => ("uuid", w)).


(** A tool whose result [JSON.stringify] rejects. *)
Definition ledger_tool : ToolDefinition nat :=
  mkTool nat (mkSchema "ledger" "Read the balance" JNull)
    (fun args _ w => (Ok (JObj [("balance", JBigInt 12)]), S w)).
Definition rctx_ledger : ReasoningContext nat :=
  mkReasoningContext nat silent_model (ToolRegistry.register ledger_tool registry) allow_all
    [mw_count].

(** A guard that stops the chain when the world has counted an effect and
    passes on otherwise, a middleware that calls [next] twice, one that
    catches what [next] throws, and one that throws. *)
Definition mw_guard : Middleware nat :=
  mkMiddleware nat (Some "guard") None
    (fun _ => MwBranch (fun w => bool_decide (w = 0%nat)) (MwNext MwReturn) MwReturn).
Definition mw_again : Middleware nat :=
  mkMiddleware nat (Some "again") None (fun _ => MwNext (MwNext MwReturn)).
Definition mw_catch : Middleware nat :=
  mkMiddleware nat (Some "catch") None
    (fun _ => MwTry (MwNext MwReturn) (fun _ => MwReturn) MwReturn).
Definition mw_fail : Middleware nat :=
  mkMiddleware nat (Some "fail") None (fun _ => MwThrow "failed").

(** A model whose single turn calls [search] and [finish] together. *)
Definition finish_turn : ModelResponse :=
  mkResponse
    (mkMessage assistant "" None
       (Some [ mkToolCall "c1" "search" [("query", JStr "rocq")];
               mkToolCall "c2" "finish" [("result", JStr "X")] ]))
    (Some [ mkToolCall "c1" "search" [("query", JStr "rocq")];
            mkToolCall "c2" "finish" [("result", JStr "X")] ])
    None.
Definition finishing_model : ModelProvider nat :=
  mkModel nat (fun _ w => (Ok finish_turn, w)).
Definition rctx_finish : ReasoningContext nat :=
  mkReasoningContext nat finishing_model registry allow_all [].


End Scenario.

(* ===================================================================== *)
(** * Further concrete scenarios *)
(* ===================================================================== *)

Module MoreScenario.
Import Scenario.

(** A conversation with a system message between two others. *)
Definition mixed_msgs : list ModelMessage :=
  [ plain_message user "hi"; plain_message system "Be brief."; plain_message assistant "yo" ].

(** A sliding window that keeps one turn, one that keeps every turn, and a
    buffer that keeps two messages. *)
Definition sw_one_turn : SlidingWindow.Config := SlidingWindow.mkConfig 4000 1.
Definition sw_every_turn : SlidingWindow.Config := SlidingWindow.mkConfig 4000 0.
Definition sw_history : SlidingWindow.Sessions :=
  SlidingWindow.write sw_every_turn ∅ sw_turn (mkWriteOptions None None).
Definition buf_two : Buffer.Config := Buffer.mkConfig 2 None.
Definition buf_store : Buffer.Store := {[ "s1" := sum_msgs ]}.
Definition second_exchange : list ModelMessage :=
  [ plain_message system "Be brief."; plain_message user "again";
    plain_message assistant "sure" ].

(** A summarizer with a wide window, and one whose model is down. *)
Definition sum_cfg_wide : Summarizing.Config unit :=
  Summarizing.mkConfig unit sum_model_ok 100 600 "Summarize.".
Definition sum_model_down : ModelProvider unit :=
  mkModel unit (fun _ w => (Throw "offline", w)).
Definition sum_cfg_down : Summarizing.Config unit :=
  Summarizing.mkConfig unit sum_model_down 0 600 "Summarize.".

(** An empty buffer in front of one that holds a session. *)
Definition empty_buffer : Composite.Provider unit (list ModelMessage) :=
  Composite.PBuffer buf_two ∅.
Definition full_buffer : Composite.Provider unit (list ModelMessage) :=
  Composite.PBuffer buf_two buf_store.

(** A middleware on [tool:before] that throws, and one that calls [next]
    twice. *)
Definition mw_deny : Middleware nat :=
  mkMiddleware nat (Some "deny") (Some (OneScope tool_before)) (fun _ => MwThrow "denied").
Definition mw_twice : Middleware nat :=
  mkMiddleware nat (Some "twice") None (fun _ => MwNext (MwNext MwReturn)).
Definition rctx_deny : ReasoningContext nat :=
  mkReasoningContext nat silent_model registry allow_all [mw_deny].


(** A model that reports its usage, under a budget of ten tokens. *)
Definition metered_response : ModelResponse :=
  mkResponse (plain_message assistant "42") None (Some (mkUsage 6 4 10)).
Definition metered_model : ModelProvider nat :=
  mkModel nat (fun _ w => (Ok metered_response, w)).
Definition rctx_metered : ReasoningContext nat :=
  mkReasoningContext nat metered_model registry (mkPolicy None None (Some 10)) [].

(** A plan whose first task depends on its second. *)
Definition report_task : PlanTask := mkTask "report" "Write the report" ["facts"] pending None.
Definition facts_task : PlanTask := mkTask "facts" "Collect the facts" [] pending None.
Definition backward_plan : list PlanTask := [report_task; facts_task].
Definition planner_cfg : PlannerEngine.Config :=
  PlannerEngine.mkConfig 10 false "Plan." "Execute.".
Definition planner_run : Result (list PlanTask * gmap string string) * Machine nat :=
  PlannerEngine.runTasks rctx_plain plain_js planner_cfg backward_plan 0 backward_plan ∅ 0
    start.
Definition planner_done : list PlanTask * gmap string string :=
  match fst planner_run with
  | Ok done => done
  | Throw _ => ([], ∅)
  end.

(** A chain-of-thought configuration, and a conversation with two system
    messages. *)
Definition cot_cfg : ChainOfThoughtEngine.Config :=
  ChainOfThoughtEngine.mkConfig true 5 "Think.".
Definition two_systems : list ModelMessage :=
  [ plain_message user "hi"; plain_message system "Be brief.";
    plain_message system "Be kind." ].

(** Agents: one without a model, one whose engine fails, and one that
    falls back to the passthrough engine; the last two keep a buffer. *)
Definition agent_no_model : Agent.AgentInstance nat :=
  Agent.mkAgent "helper" (Some "Be brief.") None None None None allow_all registry [mw_start].
Definition agent_start : Agent.AgentMachine nat :=
  Agent.mkAgentMachine (createContext "question" "s1") 0%nat [].

Definition store_model : ModelProvider Buffer.Store :=
  mkModel Buffer.Store
    (fun _ w => (Ok (mkResponse (plain_message assistant "42") None None), w)).
Definition failing_engine : Agent.ReasoningEngine Buffer.Store :=
  Agent.mkEngine "failing" (fun _ => throw "engine failed").
Definition agent_failing : Agent.AgentInstance Buffer.Store :=
  Agent.mkAgent "helper" (Some "Be brief.") (Some store_model)
    (Some (Agent.bufferMemory buf_two)) (Some failing_engine) None allow_all [] [].
Definition agent_plain : Agent.AgentInstance Buffer.Store :=
  Agent.mkAgent "helper" (Some "Be brief.") (Some store_model)
    (Some (Agent.bufferMemory buf_two)) None None allow_all [] [].
Definition buffer_start : Agent.AgentMachine Buffer.Store :=
  Agent.mkAgentMachine (createContext "question" "s1") buf_store [].

End MoreScenario.
(* ===================================================================== *)
(** * Properties of token estimation and trimming *)
(* ===================================================================== *)

Section TokenFacts.
Import Tokens.

Lemma estimate_fold (l : list ModelMessage) (a : Z) :
  fold_left (fun acc msg => acc + estimateTokens (content msg) + 4) l a
  = a + estimateMessagesTokens l.
Proof.
  unfold estimateMessagesTokens. revert a.
  induction l as [|m l IH]; intros a; simpl; [lia|].
  rewrite IH, (IH (0 + _ + 4)). lia.
Qed.

Lemma estimate_cons (m : ModelMessage) (l : list ModelMessage) :
  estimateMessagesTokens (m :: l)
  = estimateTokens (content m) + 4 + estimateMessagesTokens l.
Proof. unfold estimateMessagesTokens at 1. simpl. rewrite estimate_fold. lia. Qed.

Lemma estimate_app (l1 l2 : list ModelMessage) :
  estimateMessagesTokens (l1 ++ l2)
  = estimateMessagesTokens l1 + estimateMessagesTokens l2.
Proof.
  induction l1 as [|m l1 IH]; simpl; [reflexivity|].
  rewrite !estimate_cons, IH. lia.
Qed.

Lemma estimate_rev (l : list ModelMessage) :
  estimateMessagesTokens (rev l) = estimateMessagesTokens l.
Proof.
  induction l as [|m l IH]; simpl; [reflexivity|].
  rewrite estimate_app, IH, !estimate_cons. unfold estimateMessagesTokens at 2. simpl. lia.
Qed.

Lemma estimateTokens_nonneg (s : string) : 0 <= estimateTokens s.
Proof. unfold estimateTokens. apply Z.div_pos; lia. Qed.

(** The walk takes the messages one by one from the newest while they fit,
    and stops at the first one that does not. *)
Lemma trimWalk_spec (maxTokens : Z) (newest : list ModelMessage) :
  forall tokens result,
  exists taken left_,
    newest = taken ++ left_ /\
    trimWalk newest tokens maxTokens result = rev taken ++ result /\
    (taken <> [] -> tokens + estimateMessagesTokens taken <= maxTokens) /\
    (left_ = [] \/
     exists m older, left_ = m :: older /\
       tokens + estimateMessagesTokens taken + estimateMessagesTokens [m] > maxTokens).
Proof.
  induction newest as [|msg older IH]; intros tokens result.
  - exists [], []. simpl. repeat split; auto. intros H; congruence.
  - simpl. destruct (Z.gtb_spec (tokens + (estimateTokens (content msg) + 4)) maxTokens) as [Hgt|Hle].
    + exists [], (msg :: older). simpl. repeat split; [congruence|].
      right. exists msg, older. split; [reflexivity|].
      rewrite estimate_cons. unfold estimateMessagesTokens. simpl. lia.
    + destruct (IH (tokens + (estimateTokens (content msg) + 4)) (msg :: result))
        as (taken & left_ & Hsplit & Hwalk & Hfit & Hstop).
      exists (msg :: taken), left_. repeat split.
      * simpl. congruence.
      * rewrite Hwalk. simpl. rewrite <- app_assoc. reflexivity.
      * intros _. rewrite estimate_cons.
        destruct taken as [|t taken].
        -- unfold estimateMessagesTokens. simpl. lia.
        -- assert (t :: taken <> []) as Hne by congruence.
           specialize (Hfit Hne). lia.
      * destruct Hstop as [->|(m & older' & -> & Hover)]; [left; reflexivity|].
        right. exists m, older'. split; [reflexivity|].
        rewrite estimate_cons. lia.
Qed.

Lemma filter_all_true {A} (f : A -> bool) (l : list A) :
  Forall (fun x => f x = true) l -> List.filter f l = l.
Proof.
  induction 1 as [|x l Hx _ IH]; simpl; [reflexivity|]. rewrite Hx, IH. reflexivity.
Qed.

Lemma filter_all_false {A} (f : A -> bool) (l : list A) :
  Forall (fun x => f x = false) l -> List.filter f l = [].
Proof.
  induction 1 as [|x l Hx _ IH]; simpl; [reflexivity|]. rewrite Hx, IH. reflexivity.
Qed.

Lemma filter_Forall {A} (f : A -> bool) (l : list A) :
  Forall (fun x => f x = true) (List.filter f l).
Proof.
  induction l as [|x l IH]; simpl; [constructor|].
  destruct (f x) eqn:E; [constructor; assumption|assumption].
Qed.

(** On a list without system messages, the trim keeps the longest suffix
    that fits the budget. *)
Lemma trim_longest_suffix (msgs : list ModelMessage) (maxTokens : Z) :
  Forall (fun m => non_system m = true) msgs ->
  exists dropped,
    msgs = dropped ++ trimToTokenBudget msgs maxTokens /\
    (0 <= maxTokens -> estimateMessagesTokens (trimToTokenBudget msgs maxTokens) <= maxTokens) /\
    (dropped = [] \/
     exists older m, dropped = older ++ [m] /\
       estimateMessagesTokens (m :: trimToTokenBudget msgs maxTokens) > maxTokens).
Proof.
  intros Hns. unfold trimToTokenBudget.
  rewrite (filter_all_true non_system msgs Hns).
  rewrite (filter_all_false (fun m => is_system (role m)) msgs).
  2:{ eapply Forall_impl; [exact Hns|]. intros m Hm. unfold non_system in Hm.
      destruct (is_system (role m)); [discriminate|reflexivity]. }
  simpl.
  destruct (trimWalk_spec maxTokens (rev msgs) (estimateMessagesTokens []) [])
    as (taken & left_ & Hsplit & Hwalk & Hfit & Hstop).
  rewrite Hwalk, app_nil_r.
  assert (msgs = rev left_ ++ rev taken) as Hmsgs.
  { rewrite <- rev_app_distr, <- Hsplit, rev_involutive. reflexivity. }
  exists (rev left_). split; [exact Hmsgs|]. split.
  - intros Hpos. rewrite estimate_rev. destruct taken as [|t taken].
    + exact Hpos.
    + assert (t :: taken <> []) as Hne by congruence.
      specialize (Hfit Hne). unfold estimateMessagesTokens at 1 in Hfit. simpl in Hfit. lia.
  - destruct Hstop as [->|(m & older & -> & Hover)]; [left; reflexivity|].
    right. exists (rev older), m. split; [reflexivity|].
    rewrite estimate_cons, estimate_rev.
    rewrite estimate_cons in Hover. unfold estimateMessagesTokens at 1 3 in Hover.
    simpl in Hover. lia.
Qed.

End TokenFacts.

(* ===================================================================== *)
(** * Properties of SlidingWindowMemory *)
(* ===================================================================== *)

Section SlidingWindowFacts.
Import SlidingWindow.

Lemma flatten_app (t1 t2 : list ConversationTurn) :
  flatten (t1 ++ t2) = flatten t1 ++ flatten t2.
Proof. unfold flatten. rewrite !flat_map_concat_map, map_app, concat_app. reflexivity. Qed.

Lemma groupLoop_flatten (msgs : list ModelMessage) :
  forall turns current,
    flatten (fst (groupLoop msgs turns current)) ++ snd (groupLoop msgs turns current)
    = flatten turns ++ current ++ msgs.
Proof.
  induction msgs as [|msg rest IH]; intros turns current; simpl.
  - rewrite app_nil_r. reflexivity.
  - destruct (bool_decide (role msg = assistant) && negb (has_items (m_toolCalls msg))).
    + rewrite IH, flatten_app. unfold flatten at 2. simpl.
      rewrite !app_nil_r, <- !app_assoc. reflexivity.
    + rewrite IH, <- !app_assoc. reflexivity.
Qed.

(** Grouping into turns loses and reorders nothing. *)
Lemma groupIntoTurns_flatten (msgs : list ModelMessage) :
  flatten (groupIntoTurns msgs) = msgs.
Proof.
  unfold groupIntoTurns.
  pose proof (groupLoop_flatten msgs [] []) as H.
  destruct (groupLoop msgs [] []) as [turns current]. simpl in H.
  destruct current as [|c current].
  - rewrite app_nil_r in H. exact H.
  - rewrite flatten_app. unfold flatten at 2. simpl. rewrite app_nil_r. exact H.
Qed.

Lemma Forall_flatten_drop (P : ModelMessage -> Prop) (k : nat) (turns : list ConversationTurn) :
  Forall P (flatten turns) -> Forall P (flatten (drop k turns)).
Proof.
  intros H. rewrite <- (take_drop k turns), flatten_app in H.
  apply Forall_app in H. tauto.
Qed.

(** Every session of a [SlidingWindowMemory] holds non-system messages
    only: [write] filters them out. *)
Lemma reachable_no_system (cfg : Config) (sessions : Sessions) :
  reachable cfg sessions -> stores_no_system sessions.
Proof.
  induction 1 as [|sessions msgs options _ IH|sessions sessionId _ IH];
    intros sid turns Hsid.
  - rewrite lookup_empty in Hsid. discriminate.
  - unfold write in Hsid.
    destruct (decide (session_key (wo_sessionId options) = sid)) as [Heq|Hne].
    + rewrite Heq, lookup_insert_eq in Hsid. injection Hsid as <-.
      unfold slice_from. apply Forall_flatten_drop.
      rewrite flatten_app, groupIntoTurns_flatten. apply Forall_app. split.
      * destruct (sessions !! sid) as [old|] eqn:E; simpl.
        -- exact (IH _ _ E).
        -- constructor.
      * apply filter_Forall.
    + rewrite lookup_insert_ne in Hsid by exact Hne. exact (IH _ _ Hsid).
  - unfold clear in Hsid. destruct (session_given sessionId) as [s|].
    + destruct (decide (s = sid)) as [->|Hne].
      * rewrite lookup_delete_eq in Hsid. discriminate.
      * rewrite lookup_delete_ne in Hsid by exact Hne. exact (IH _ _ Hsid).
    + rewrite lookup_empty in Hsid. discriminate.
Qed.

(** What [read] computes: for every session of a SlidingWindowMemory and a
    non-negative [maxTokens], the longest suffix of the session's flattened
    messages whose estimated token sum is at most [maxTokens]. Messages are
    dropped one by one from the oldest, and the first dropped message is the
    newest one that no longer fits. *)
Theorem sliding_read_longest_suffix
    (cfg : Config) (sessions : Sessions) (options : MemoryReadOptions) :
  reachable cfg sessions ->
  0 <= maxTokens cfg ->
  let stored := flatten (default [] (sessions !! session_key (ro_sessionId options))) in
  let out := read cfg sessions options in
  exists dropped,
    stored = dropped ++ out /\
    Tokens.estimateMessagesTokens out <= maxTokens cfg /\
    (dropped = [] \/
     exists older m, dropped = older ++ [m] /\
       Tokens.estimateMessagesTokens (m :: out) > maxTokens cfg).
Proof.
  intros Hreach Hpos stored out.
  assert (Forall (fun m => non_system m = true) stored) as Hns.
  { subst stored.
    destruct (sessions !! session_key (ro_sessionId options)) as [turns|] eqn:E; simpl.
    - exact (reachable_no_system cfg sessions Hreach _ _ E).
    - constructor. }
  destruct (trim_longest_suffix stored (maxTokens cfg) Hns) as (dropped & Hsplit & Hfit & Hmax).
  exists dropped. subst out. unfold read. fold stored.
  split; [exact Hsplit|]. split; [exact (Hfit Hpos)|exact Hmax].
Qed.

End SlidingWindowFacts.

Section SlidingWindowExamples.
Import SlidingWindow Scenario.

Lemma sliding_read_longest_suffix_witness :
  exists dropped,
    flatten (default [] (sw_sessions !! session_key None))
      = dropped ++ read sw_cfg sw_sessions (mkReadOptions None) /\
    Tokens.estimateMessagesTokens (read sw_cfg sw_sessions (mkReadOptions None)) <= 10 /\
    (dropped = [] \/
     exists older m, dropped = older ++ [m] /\
       Tokens.estimateMessagesTokens (m :: read sw_cfg sw_sessions (mkReadOptions None)) > 10).
Proof.
  apply (sliding_read_longest_suffix sw_cfg sw_sessions (mkReadOptions None)).
  - apply reach_write, reach_new.
  - simpl. lia.
Defined.

(** C3, the code on a session that holds one turn (a user message and the
    assistant's answer): with [maxTokens = 10] only the answer fits, and
    [read] returns it alone. The returned list is a suffix of the stored
    messages within the budget, but it is not a concatenation of whole
    stored turns: the trim splits the turn. *)
Lemma sliding_read_splits_turn :
  reachable sw_cfg sw_sessions /\
  sw_sessions !! "default" = Some [mkTurn sw_turn] /\
  read sw_cfg sw_sessions (mkReadOptions None) = [plain_message assistant "ok"] /\
  ~ whole_turns [mkTurn sw_turn] (read sw_cfg sw_sessions (mkReadOptions None)).
Proof.
  assert (read sw_cfg sw_sessions (mkReadOptions None) = [plain_message assistant "ok"]) as Hread
    by (vm_compute; reflexivity).
  split; [apply reach_write, reach_new|].
  split; [vm_compute; reflexivity|].
  split; [exact Hread|].
  rewrite Hread. intros [k Hk]. destruct k as [|k]; simpl in Hk.
  - discriminate.
  - rewrite drop_nil in Hk. discriminate.
Qed.

End SlidingWindowExamples.

(* ===================================================================== *)
(** * Properties of SummarizingMemory *)
(* ===================================================================== *)

Section SummarizingFacts.
Import Summarizing.

Lemma substring_prefix (n : nat) (s : string) :
  exists cut, s = String.substring 0 n s +:+ cut.
Proof.
  revert n. induction s as [|c s IH]; intros n.
  - exists "". destruct n; reflexivity.
  - destruct n as [|n]; simpl.
    + exists (String c s). reflexivity.
    + destruct (IH n) as [cut Hcut]. exists cut.
      change (String c s = String c (String.substring 0 n s +:+ cut)). f_equal. exact Hcut.
Qed.

Lemma substring_prefix_length (n : nat) (s : string) :
  String.length (String.substring 0 n s) = Nat.min n (String.length s).
Proof.
  revert n. induction s as [|c s IH]; intros n.
  - destruct n; reflexivity.
  - destruct n as [|n]; simpl; [reflexivity|]. rewrite IH. reflexivity.
Qed.

Lemma str_slice_to_length (stop : Z) (s : string) :
  0 <= stop ->
  Z.of_nat (String.length (str_slice_to stop s)) = Z.min (Z.of_nat (String.length s)) stop.
Proof.
  intros Hpos. unfold str_slice_to, slice_to_len.
  rewrite substring_prefix_length.
  destruct (Z.ltb_spec stop 0); lia.
Qed.

Context {W : Type}.

(** C5 (as the code has it): when a write makes the estimated size of the
    window exceed [activeWindowTokens], the oldest floor(n/2) messages are
    compressed by one model call, whose prompt carries the prior summary when
    there is a non-empty one; the answer is cut to its first
    [summaryMaxTokens * 4] characters (for a non-negative [summaryMaxTokens])
    and stored, the newer messages become the window, and a following [read]
    returns the window in its order, preceded by a system message holding the
    stored summary when that summary is not empty. *)
Theorem summarizing_compress_then_read
    (cfg : Config W) (sessions : Sessions) (msgs : list ModelMessage)
    (options : MemoryWriteOptions) (w w' : W) (resp : ModelResponse) :
  let sid := session_key (wo_sessionId options) in
  let prior := default (mkSession None []) (sessions !! sid) in
  let window := List.filter non_system msgs in
  let half := Nat.div (length window) 2 in
  let request :=
    mkRequest
      [ plain_message system (summaryPrompt cfg);
        plain_message user
          (existingSummary prior +:+ newline +:+ compressInput (take half window)) ]
      None in
  let stored := str_slice_to (summaryMaxTokens cfg * 4) (content (message resp)) in
  let sessions' := <[sid := mkSession (Some stored) (drop half window)]> sessions in
  Tokens.estimateMessagesTokens window > activeWindowTokens cfg ->
  0 <= summaryMaxTokens cfg ->
  complete (model cfg) request w = (Ok resp, w') ->
  write cfg sessions msgs options w = (Ok (), sessions', w') /\
  (forall s, summary_present prior = Some s ->
     existingSummary prior
     = "Previous summary:" +:+ newline +:+ s +:+ newline +:+ newline
         +:+ "New conversation to add:") /\
  (exists cut, content (message resp) = stored +:+ cut) /\
  Z.of_nat (String.length stored)
    = Z.min (Z.of_nat (String.length (content (message resp)))) (summaryMaxTokens cfg * 4) /\
  read sessions' (mkReadOptions (wo_sessionId options))
    = (if truthy stored then [summary_message stored] else []) ++ drop half window.
Proof.
  intros sid prior window half request stored sessions' Hover Hpos Hcall.
  split; [|split; [|split; [|split]]].
  - unfold write. fold sid. fold window.
    destruct (Z.gtb_spec (Tokens.estimateMessagesTokens window) (activeWindowTokens cfg));
      [|lia].
    unfold compress. simpl activeMessages. fold half.
    change (compressRequest cfg (mkSession (summary (default (mkSession None []) (sessions !! sid))) window))
      with request.
    rewrite Hcall. reflexivity.
  - intros s Hs. unfold existingSummary. rewrite Hs. reflexivity.
  - apply substring_prefix.
  - apply str_slice_to_length. lia.
  - unfold read. simpl ro_sessionId. fold sid. subst sessions'.
    rewrite lookup_insert_eq. unfold summary_present. simpl.
    destruct (truthy stored); reflexivity.
Qed.

End SummarizingFacts.

Section SummarizingExamples.
Import Summarizing Scenario.

Lemma summarizing_compress_then_read_witness :
  write sum_cfg_ok ∅ sum_msgs (mkWriteOptions None None) ()
    = (Ok (), {[ "default" := mkSession (Some "greeting") [plain_message assistant "yo"] ]}, ()) /\
  read {[ "default" := mkSession (Some "greeting") [plain_message assistant "yo"] ]}
      (mkReadOptions None)
    = [ summary_message "greeting"; plain_message assistant "yo" ].
Proof.
  destruct (summarizing_compress_then_read sum_cfg_ok ∅ sum_msgs (mkWriteOptions None None)
              () () (mkResponse (plain_message assistant "greeting") None None))
    as (Hwrite & _ & _ & _ & Hread).
  - vm_compute. reflexivity.
  - simpl. lia.
  - reflexivity.
  - split; [exact Hwrite|exact Hread].
Defined.

(** C5, counterexample: the write exceeds the window budget and the model
    call of the compression answers with empty content; the stored summary is
    the empty string, and the following [read] returns the retained window
    alone, whose first element is the assistant message. *)
Lemma summarizing_read_without_summary_message :
  Tokens.estimateMessagesTokens (List.filter non_system sum_msgs) > activeWindowTokens sum_cfg /\
  write sum_cfg ∅ sum_msgs (mkWriteOptions None None) ()
    = (Ok (), {[ "default" := mkSession (Some "") [plain_message assistant "yo"] ]}, ()) /\
  read {[ "default" := mkSession (Some "") [plain_message assistant "yo"] ]} (mkReadOptions None)
    = [ plain_message assistant "yo" ] /\
  ~ (exists first rest,
       read {[ "default" := mkSession (Some "") [plain_message assistant "yo"] ]}
         (mkReadOptions None) = first :: rest /\
       role first = system).
Proof.
  split; [vm_compute; reflexivity|].
  split; [vm_compute; reflexivity|].
  split; [vm_compute; reflexivity|].
  intros (first & rest & Hread & Hrole).
  vm_compute in Hread. injection Hread as <- _. discriminate.
Qed.

End SummarizingExamples.

(* ===================================================================== *)
(** * clear followed by read *)
(* ===================================================================== *)

Section ClearFacts.

Lemma trim_nil (maxTokens : Z) : Tokens.trimToTokenBudget [] maxTokens = [].
Proof. reflexivity. Qed.

(** The three stores clear a session the same way. *)
Lemma cleared_key {V} (store : gmap string V) (sessionId : option string) :
  (match session_given sessionId with
   | Some s => delete s store
   | None => ∅
   end) !! session_key sessionId = None.
Proof.
  destruct sessionId as [s|]; simpl.
  - destruct (truthy s); [apply lookup_delete_eq|apply lookup_empty].
  - apply lookup_empty.
Qed.

Lemma buffer_clear_read (cfg : Buffer.Config) (store : Buffer.Store) (sessionId : option string) :
  Buffer.read cfg (Buffer.clear store sessionId) (mkReadOptions sessionId) = [].
Proof.
  unfold Buffer.read, Buffer.clear. simpl ro_sessionId. rewrite cleared_key. simpl.
  destruct (Buffer.maxTokens cfg) as [b|]; [|reflexivity].
  destruct (b =? 0); reflexivity.
Qed.

Lemma sliding_clear_read (cfg : SlidingWindow.Config) (sessions : SlidingWindow.Sessions)
    (sessionId : option string) :
  SlidingWindow.read cfg (SlidingWindow.clear sessions sessionId) (mkReadOptions sessionId) = [].
Proof.
  unfold SlidingWindow.read, SlidingWindow.clear. simpl ro_sessionId.
  rewrite cleared_key. reflexivity.
Qed.

Lemma summarizing_clear_read (sessions : Summarizing.Sessions) (sessionId : option string) :
  Summarizing.read (Summarizing.clear sessions sessionId) (mkReadOptions sessionId) = [].
Proof.
  unfold Summarizing.read, Summarizing.clear. simpl ro_sessionId.
  rewrite cleared_key. reflexivity.
Qed.

Import Composite.
Context {W S : Type}.

Lemma Provider_nested_ind (P : Provider W S -> Prop) :
  (forall cfg store, P (PBuffer cfg store)) ->
  (forall cfg sessions, P (PSlidingWindow cfg sessions)) ->
  (forall cfg sessions, P (PSummarizing cfg sessions)) ->
  (forall strategy providers, Forall P providers -> P (PComposite strategy providers)) ->
  (forall c, P (PCustom c)) ->
  forall p, P p.
Proof.
  intros Hb Hw Hs Hc Hu. fix IH 1. intros [cfg store|cfg sessions|cfg sessions|strategy ps|c].
  - apply Hb.
  - apply Hw.
  - apply Hs.
  - apply Hc. induction ps as [|q ps IHps]; constructor; [apply IH|exact IHps].
  - apply Hu.
Qed.

Lemma all_ok_units (rs : list (Result unit)) :
  Forall (fun r => r = Ok ()) rs -> exists l, all_ok rs = Ok l.
Proof.
  induction 1 as [|r rs -> _ [l IH]]; simpl; [eauto|]. rewrite IH. eauto.
Qed.

Lemma all_ok_empties (rs : list (Result (list ModelMessage))) :
  Forall (fun r => r = Ok []) rs -> exists l, all_ok rs = Ok l /\ concat l = [].
Proof.
  induction 1 as [|r rs -> _ (l & IH & Hl)]; simpl; [eauto|]. rewrite IH. eauto.
Qed.

Lemma firstHit_empties (rd : Provider W S -> Result (list ModelMessage) * Provider W S)
    (ps : list (Provider W S)) :
  Forall (fun q => fst (rd q) = Ok []) ps -> fst (firstHit rd ps) = Ok [].
Proof.
  induction 1 as [|q ps Hq _ IH]; simpl; [reflexivity|].
  destruct (rd q) as [r q']. simpl in Hq. subst r.
  destruct (firstHit rd ps) as [r rest']. exact IH.
Qed.

(** C8 (as the code has it): for a Buffer, SlidingWindow or Summarizing
    memory, and for a Composite memory whose wrapped providers all implement
    [clear] and have the property themselves, [clear(sessionId)] succeeds and
    a following [read({sessionId})] returns the empty sequence. *)
Theorem clear_then_read_empty (p : Provider W S) (sessionId : option string) :
  clearable p ->
  fst (clear p sessionId) = Ok () /\
  fst (read (snd (clear p sessionId)) (mkReadOptions sessionId)) = Ok [].
Proof.
  induction p as [cfg store|cfg sessions|cfg sessions|strategy ps IH|c]
    using Provider_nested_ind; intros Hclear.
  - simpl. rewrite buffer_clear_read. auto.
  - simpl. rewrite sliding_clear_read. auto.
  - simpl. rewrite summarizing_clear_read. auto.
  - inversion Hclear as [| | | |strategy' ps' Hall]; subst.
    assert (Forall (fun q => fst (clear q sessionId) = Ok () /\
                             fst (read (snd (clear q sessionId)) (mkReadOptions sessionId)) = Ok [])
                   ps) as Hps.
    { clear Hclear. induction IH as [|q ps Hq _ IHps]; [constructor|].
      inversion Hall; subst. constructor; auto. }
    clear IH Hall Hclear.
    simpl clear. unfold onEach.
    destruct (all_ok_units (List.map fst (List.map (fun q => clear q sessionId) ps))) as [l Hl].
    { rewrite Forall_map, Forall_map. eapply Forall_impl; [exact Hps|]. simpl. tauto. }
    rewrite Hl. simpl fst. simpl snd. split; [reflexivity|].
    set (ps' := List.map snd (List.map (fun q => clear q sessionId) ps)).
    assert (Forall (fun q => fst (read q (mkReadOptions sessionId)) = Ok []) ps') as Hread.
    { subst ps'. rewrite Forall_map, Forall_map. eapply Forall_impl; [exact Hps|]. simpl. tauto. }
    destruct strategy; simpl read.
    + pose proof (firstHit_empties (fun q => read q (mkReadOptions sessionId)) ps' Hread) as Hfh.
      destruct (firstHit _ ps') as [r rest]. exact Hfh.
    + unfold onEach.
      destruct (all_ok_empties (List.map fst (List.map (fun q => read q (mkReadOptions sessionId)) ps')))
        as (all & Hall & Hcat).
      { rewrite Forall_map, Forall_map. exact Hread. }
      rewrite Hall, Hcat. reflexivity.
  - inversion Hclear as [| | |c' (f & Hf & Hlaw)|]; subst.
    simpl. rewrite Hf.
    destruct (Hlaw sessionId (cp_state c)) as [Hok Hempty].
    destruct (f sessionId (cp_state c)) as [r st]. simpl in *.
    split; [exact Hok|].
    destruct (cp_read c (mkReadOptions sessionId) st) as [r' st']. exact Hempty.
Qed.

End ClearFacts.

Section ClearExamples.
Import Composite Scenario.

Lemma clear_then_read_empty_witness :
  fst (clear builtin_composite (Some "s1")) = Ok () /\
  fst (read (snd (clear builtin_composite (Some "s1"))) (mkReadOptions (Some "s1"))) = Ok [].
Proof.
  apply (clear_then_read_empty builtin_composite (Some "s1")).
  apply clearable_composite. repeat constructor.
Defined.

(** C8, counterexample: a CompositeMemory wrapping a provider that has no
    [clear] method; [clear] is skipped on it, and the following [read]
    returns what the provider still holds. *)
Lemma composite_clear_then_read_nonempty :
  fst (clear keeper_composite (Some "s1")) = Ok () /\
  fst (read (snd (clear keeper_composite (Some "s1"))) (mkReadOptions (Some "s1")))
    = Ok [ plain_message user "remember me" ].
Proof. split; reflexivity. Qed.

End ClearExamples.

(* ===================================================================== *)
(** * Properties of the middleware pipeline *)
(* ===================================================================== *)

Section PipelineFacts.
Context {W : Type}.
Import Pipeline.

Lemma keeps_ctx_ret {A} (a : A) : keeps_ctx (@ret W A a).
Proof. intros s. reflexivity. Qed.

Lemma keeps_ctx_throw {A} (e : Err) : keeps_ctx (@throw W A e).
Proof. intros s. reflexivity. Qed.

Lemma keeps_ctx_bind {A B} (m : M W A) (k : A -> M W B) :
  keeps_ctx m -> (forall a, keeps_ctx (k a)) -> keeps_ctx (bind m k).
Proof.
  intros Hm Hk s. unfold bind. specialize (Hm s).
  destruct (m s) as [[a|e] s1]; simpl in *; [|exact Hm].
  rewrite (Hk a s1). exact Hm.
Qed.

Lemma keeps_ctx_observe (o : Obs W) : keeps_ctx (observe o).
Proof. intros s. reflexivity. Qed.

Lemma keeps_ctx_on_world {A} (f : W -> Result A * W) : keeps_ctx (on_world f).
Proof. intros s. unfold on_world. destruct (f (world s)). reflexivity. Qed.

Lemma keeps_ctx_get_ctx : keeps_ctx (@get_ctx W).
Proof. intros s. reflexivity. Qed.

Lemma keeps_ctx_try {A} (m : M W A) : keeps_ctx m -> keeps_ctx (try_ m).
Proof. intros Hm s. unfold try_. specialize (Hm s). destruct (m s). exact Hm. Qed.

Lemma keeps_ctx_of_result {A} (r : Result A) : keeps_ctx (@of_result W A r).
Proof. intros s. reflexivity. Qed.

Lemma exec_keeps_ctx (next : M W unit) (code : MwCode W) :
  keeps_ctx next -> keeps_ctx (exec next code).
Proof.
  intros Hnext.
  induction code as [|e|k IH|f k IH|c kt IHt kf IHf|body IHb handler IHh rest IHr]; simpl.
  - apply keeps_ctx_ret.
  - apply keeps_ctx_throw.
  - apply keeps_ctx_bind; [exact Hnext|intros _; exact IH].
  - apply keeps_ctx_bind; [apply keeps_ctx_on_world|intros _; exact IH].
  - intros s. destruct (c (world s)); [apply IHt|apply IHf].
  - apply keeps_ctx_bind; [apply keeps_ctx_try, IHb|intros outcome].
    apply keeps_ctx_bind; [|intros _; exact IHr].
    destruct outcome as [u|e]; [apply keeps_ctx_ret|apply IHh].
Qed.

Lemma dispatch_keeps_ctx (mCtx : MiddlewareContext) (l : list (Middleware W)) :
  keeps_ctx (dispatch mCtx l).
Proof.
  induction l as [|m l IH]; simpl.
  - apply keeps_ctx_ret.
  - apply keeps_ctx_bind; [apply keeps_ctx_observe|intros _].
    apply exec_keeps_ctx, IH.
Qed.

Lemma run_keeps_ctx (middlewares : list (Middleware W)) (mCtx : MiddlewareContext) :
  keeps_ctx (run middlewares mCtx).
Proof. apply dispatch_keeps_ctx. Qed.

Lemma bind_ok {A B} (m : M W A) (k : A -> M W B) (s s' : Machine W) (a : A) :
  m s = (Ok a, s') -> bind m k s = k a s'.
Proof. intros H. unfold bind. rewrite H. reflexivity. Qed.

Lemma bind_throw {A B} (m : M W A) (k : A -> M W B) (s s' : Machine W) (e : Err) :
  m s = (Throw e, s') -> bind m k s = (Throw e, s').
Proof. intros H. unfold bind. rewrite H. reflexivity. Qed.

Lemma machine_eta (s : Machine W) : mkMachine (ctx s) (world s) (trace s) = s.
Proof. destruct s. reflexivity. Qed.

(** A body that returns without [next] touches the world only. *)
Lemma exec_returns (code : MwCode W) :
  returns_without_next code = true ->
  forall next s, exists w', exec next code s = (Ok (), mkMachine (ctx s) w' (trace s)).
Proof.
  induction code as [|e|k IH|f k IH|c kt IHt kf IHf|body IHb handler IHh rest IHr]; simpl;
    intros H next s; try discriminate.
  - exists (world s). unfold ret. rewrite machine_eta. reflexivity.
  - destruct (IH H next (mkMachine (ctx s) (f (world s)) (trace s))) as [w' Hw].
    exists w'. unfold bind, on_world. simpl. exact Hw.
  - apply andb_prop in H as [Ht Hf].
    destruct (c (world s)); [apply IHt|apply IHf]; assumption.
Qed.

(** A body that passes on runs [next] once, between effects on the world,
    and ends as [next] ends. *)
Lemma exec_passes (code : MwCode W) :
  passes code = true ->
  forall next s, exists w1,
    match next (mkMachine (ctx s) w1 (trace s)) with
    | (Ok _, s2) => exists w3, exec next code s = (Ok (), mkMachine (ctx s2) w3 (trace s2))
    | (Throw e, s2) => exec next code s = (Throw e, s2)
    end.
Proof.
  induction code as [|e|k IH|f k IH|c kt IHt kf IHf|body IHb handler IHh rest IHr]; simpl;
    intros H next s; try discriminate.
  - exists (world s). rewrite machine_eta. unfold bind.
    destruct (next s) as [[[]|e] s2]; [|reflexivity].
    apply exec_returns. exact H.
  - destruct (IH H next (mkMachine (ctx s) (f (world s)) (trace s))) as [w1 Hw].
    exists w1. simpl in Hw. unfold bind at 1, on_world. simpl. exact Hw.
  - apply andb_prop in H as [Ht Hf].
    destruct (c (world s)); [apply IHt|apply IHf]; assumption.
Qed.

(** The chain runs through the middleware that pass on and ends at the
    first one that returns without [next]. *)
Lemma dispatch_until_stop (mCtx : MiddlewareContext) (pre post : list (Middleware W)) :
  Forall (fun m => passes (mw_run m mCtx) = true) pre ->
  match post with
  | [] => True
  | m :: _ => returns_without_next (mw_run m mCtx) = true
  end ->
  forall s, exists w',
    dispatch mCtx (pre ++ post) s
    = (Ok (),
       mkMachine (ctx s) w'
         (trace s ++ List.map (ObsMiddleware (mc_scope mCtx)) (pre ++ take 1 post))).
Proof.
  intros Hpre Hpost. induction Hpre as [|m pre Hm _ IH]; intros s.
  - simpl app. destruct post as [|m post]; simpl.
    + exists (world s). unfold ret. rewrite app_nil_r, machine_eta. reflexivity.
    + unfold bind, observe. simpl.
      destruct (exec_returns _ Hpost (dispatch mCtx post)
                  (mkMachine (ctx s) (world s) (trace s ++ [ObsMiddleware (mc_scope mCtx) m])))
        as [w' Hw].
      exists w'. rewrite Hw. reflexivity.
  - simpl. unfold bind at 1, observe. simpl.
    destruct (exec_passes _ Hm (dispatch mCtx (pre ++ post))
                (mkMachine (ctx s) (world s) (trace s ++ [ObsMiddleware (mc_scope mCtx) m])))
      as [w1 Hw].
    simpl in Hw.
    destruct (IH (mkMachine (ctx s) w1 (trace s ++ [ObsMiddleware (mc_scope mCtx) m])))
      as [w2 Hnext].
    rewrite Hnext in Hw. destruct Hw as [w3 Hw]. simpl in Hw.
    exists w3. rewrite Hw. rewrite <- app_assoc. reflexivity.
Qed.

Lemma entered_app (t1 t2 : list (Obs W)) : entered (t1 ++ t2) = entered t1 ++ entered t2.
Proof.
  induction t1 as [|o t1 IH]; simpl; [reflexivity|].
  destruct o; simpl; rewrite IH; reflexivity.
Qed.

Lemma entered_middleware (scope : MiddlewareScope) (l : list (Middleware W)) :
  entered (List.map (ObsMiddleware scope) l) = l.
Proof. induction l as [|m l IH]; simpl; [reflexivity|]. rewrite IH. reflexivity. Qed.

Lemma scoped_member (middlewares : list (Middleware W)) (scope : MiddlewareScope)
    (m : Middleware W) :
  In m (scoped middlewares scope) <->
  In m middlewares /\
  (mw_scope m = None \/ mw_scope m = Some (OneScope scope) \/
   exists l, mw_scope m = Some (ManyScopes l) /\ In scope l).
Proof.
  unfold scoped. rewrite filter_In. unfold matches.
  split; intros [Hin Hm]; (split; [exact Hin|]).
  - destruct (mw_scope m) as [[s|l]|]; [| |left; reflexivity].
    + apply bool_decide_eq_true in Hm. apply list_elem_of_In in Hm.
      destruct Hm as [->|[]]. right. left. reflexivity.
    + apply bool_decide_eq_true in Hm. apply list_elem_of_In in Hm.
      right. right. exists l. split; [reflexivity|exact Hm].
  - destruct Hm as [->|[->|(l & -> & Hl)]]; [reflexivity| |].
    + apply bool_decide_eq_true, list_elem_of_In. left. reflexivity.
    + apply bool_decide_eq_true, list_elem_of_In. exact Hl.
Qed.

Lemma filter_sublist {A} (f : A -> bool) (l : list A) : sublist (List.filter f l) l.
Proof.
  induction l as [|x l IH]; simpl; [constructor|].
  destruct (f x); [apply sublist_skip|apply sublist_cons]; exact IH.
Qed.

(** The [try] statement of a body, by the outcome of its block. *)
Lemma exec_try (next : M W unit) (body : MwCode W) (handler : Err -> MwCode W)
    (rest : MwCode W) (s : Machine W) :
  exec next (MwTry body handler rest) s
  = match exec next body s with
    | (Ok _, s1) => exec next rest s1
    | (Throw e, s1) =>
        match exec next (handler e) s1 with
        | (Ok _, s2) => exec next rest s2
        | (Throw e', s2) => (Throw e', s2)
        end
    end.
Proof.
  simpl. unfold bind, try_. destruct (exec next body s) as [[u|e] s1]; simpl; [reflexivity|].
  destruct (exec next (handler e) s1) as [[u|e'] s2]; reflexivity.
Qed.

(** A body that ends before any call of [next] acts on the world only. *)
Lemma exec_done (next : M W unit) (code : MwCode W) :
  forall s r w', first_next code (world s) = Done r w' ->
  exec next code s = (r, mkMachine (ctx s) w' (trace s)).
Proof.
  induction code as [|e|k IH|f k IH|c kt IHt kf IHf|body IHb handler IHh rest IHr];
    intros s r w' H.
  - simpl in H. injection H as <- <-. simpl. unfold ret. rewrite machine_eta. reflexivity.
  - simpl in H. injection H as <- <-. simpl. unfold throw. rewrite machine_eta. reflexivity.
  - discriminate.
  - simpl in H. simpl. unfold bind, on_world. simpl.
    apply (IH (mkMachine (ctx s) (f (world s)) (trace s))). exact H.
  - simpl in H. simpl. destruct (c (world s)); [apply IHt|apply IHf]; exact H.
  - rewrite exec_try. simpl in H.
    destruct (first_next body (world s)) as [w1|r1 w1] eqn:Hb; [discriminate|].
    rewrite (IHb s r1 w1 Hb). destruct r1 as [u|e].
    + apply (IHr (mkMachine (ctx s) w1 (trace s))). exact H.
    + destruct (first_next (handler e) w1) as [w2|r2 w2] eqn:Hh; [discriminate|].
      rewrite (IHh e (mkMachine (ctx s) w1 (trace s)) r2 w2 Hh). destruct r2 as [u|e'].
      * apply (IHr (mkMachine (ctx s) w2 (trace s))). exact H.
      * injection H as <- <-. reflexivity.
Qed.

Lemma never_first_next (code : MwCode W) :
  never_calls_next code -> forall w, exists r w', first_next code w = Done r w'.
Proof.
  induction code as [|e|k IH|f k IH|c kt IHt kf IHf|body IHb handler IHh rest IHr];
    simpl; intros H w.
  - eauto.
  - eauto.
  - destruct H.
  - apply IH. exact H.
  - destruct H as [Ht Hf]. destruct (c w); [apply IHt|apply IHf]; assumption.
  - destruct H as (Hb & Hh & Hr).
    destruct (IHb Hb w) as (r1 & w1 & ->). destruct r1 as [u|e]; [apply IHr; exact Hr|].
    destruct (IHh e (Hh e) w1) as (r2 & w2 & ->). destruct r2 as [u|e']; [|eauto].
    apply IHr. exact Hr.
Qed.

Lemma never_at_most_once (code : MwCode W) :
  never_calls_next code -> calls_next_at_most_once code.
Proof.
  induction code as [|e|k IH|f k IH|c kt IHt kf IHf|body IHb handler IHh rest IHr];
    simpl; intros H; tauto.
Qed.

(** With a continuation that enters middleware of [L] only, so does the
    body; a body that never calls it enters none. *)
Lemma exec_enters (L : list (Middleware W)) (next : M W unit) :
  (forall s, exists added,
     entered (trace (snd (next s))) = entered (trace s) ++ added /\
     forall x, In x added -> In x L) ->
  forall code s, exists added,
    entered (trace (snd (exec next code s))) = entered (trace s) ++ added /\
    (forall x, In x added -> In x L) /\
    (never_calls_next code -> added = []).
Proof.
  intros Hnext.
  induction code as [|e|k IH|f k IH|c kt IHt kf IHf|body IHb handler IHh rest IHr]; intros s.
  - exists []. simpl. rewrite app_nil_r. repeat split; intros x [].
  - exists []. simpl. rewrite app_nil_r. repeat split; intros x [].
  - simpl. unfold bind. destruct (Hnext s) as (a1 & E1 & I1).
    destruct (next s) as [[u|e] s1]; simpl in E1.
    + destruct (IH s1) as (a2 & E2 & I2 & _). exists (a1 ++ a2).
      rewrite E2, E1, app_assoc. split; [reflexivity|]. split; [|intros []].
      intros x Hx. apply in_app_or in Hx as [Hx|Hx]; auto.
    + exists a1. simpl. split; [exact E1|]. split; [exact I1|intros []].
  - simpl. unfold bind, on_world. simpl.
    apply (IH (mkMachine (ctx s) (f (world s)) (trace s))).
  - simpl. destruct (IHt s) as (at_ & Et & It & Nt). destruct (IHf s) as (af & Ef & If_ & Nf).
    destruct (c (world s)).
    + exists at_. split; [exact Et|]. split; [exact It|]. intros [Ht _]. auto.
    + exists af. split; [exact Ef|]. split; [exact If_|]. intros [_ Hf]. auto.
  - rewrite exec_try. destruct (IHb s) as (ab & Eb & Ib & Nb).
    destruct (exec next body s) as [[u|e] s1]; simpl in Eb.
    + destruct (IHr s1) as (ar & Er & Ir & Nr). exists (ab ++ ar).
      rewrite Er, Eb, app_assoc. split; [reflexivity|]. split.
      * intros x Hx. apply in_app_or in Hx as [Hx|Hx]; auto.
      * simpl. intros (Hb & _ & Hr). rewrite (Nb Hb), (Nr Hr). reflexivity.
    + destruct (IHh e s1) as (ah & Eh & Ih & Nh).
      destruct (exec next (handler e) s1) as [[u|e'] s2]; simpl in Eh.
      * destruct (IHr s2) as (ar & Er & Ir & Nr). exists (ab ++ ah ++ ar).
        rewrite Er, Eh, Eb, <- !app_assoc. split; [reflexivity|]. split.
        -- intros x Hx. apply in_app_or in Hx as [Hx|Hx]; [auto|].
           apply in_app_or in Hx as [Hx|Hx]; auto.
        -- simpl. intros (Hb & Hh & Hr). rewrite (Nb Hb), (Nh (Hh e)), (Nr Hr). reflexivity.
      * exists (ab ++ ah). simpl. rewrite Eh, Eb, <- app_assoc. split; [reflexivity|]. split.
        -- intros x Hx. apply in_app_or in Hx as [Hx|Hx]; auto.
        -- simpl. intros (Hb & Hh & _). rewrite (Nb Hb), (Nh (Hh e)). reflexivity.
Qed.

(** What a body enters through its continuation: what the first call of
    [next] enters, which [D] gives from the world of that call, and then
    [again], what later calls enter; a body that calls [next] at most once
    over a continuation that enters nothing again enters nothing again. *)
Lemma exec_walk (next : M W unit) (D : W -> list (Middleware W)) (L : list (Middleware W))
    (calm : Prop) :
  (forall w x, In x (D w) -> In x L) ->
  (forall s, exists again,
     entered (trace (snd (next s))) = entered (trace s) ++ D (world s) ++ again /\
     (forall x, In x again -> In x L) /\
     (calm -> again = [])) ->
  forall code s, exists again,
    entered (trace (snd (exec next code s)))
    = entered (trace s)
        ++ match first_next code (world s) with AtNext w1 => D w1 | Done _ _ => [] end
        ++ again /\
    (forall x, In x again -> In x L) /\
    (calm -> calls_next_at_most_once code -> again = []).
Proof.
  intros HD Hnext.
  assert (forall s, exists added,
            entered (trace (snd (next s))) = entered (trace s) ++ added /\
            forall x, In x added -> In x L) as Hloose.
  { intros s. destruct (Hnext s) as (again & E & I & _). exists (D (world s) ++ again).
    split; [exact E|]. intros x Hx. apply in_app_or in Hx as [Hx|Hx]; eauto. }
  pose proof (exec_enters L next Hloose) as Hrest.
  induction code as [|e|k IH|f k IH|c kt IHt kf IHf|body IHb handler IHh rest IHr]; intros s.
  - exists []. simpl. rewrite app_nil_r. repeat split; intros x [].
  - exists []. simpl. rewrite app_nil_r. repeat split; intros x [].
  - simpl. unfold bind. destruct (Hnext s) as (a1 & E1 & I1 & C1).
    destruct (next s) as [[u|e] s1]; simpl in E1.
    + destruct (Hrest k s1) as (a2 & E2 & I2 & N2). exists (a1 ++ a2).
      rewrite E2, E1, <- !app_assoc. split; [reflexivity|]. split.
      * intros x Hx. apply in_app_or in Hx as [Hx|Hx]; auto.
      * intros Hc Hk. rewrite (C1 Hc), (N2 Hk). reflexivity.
    + exists a1. simpl. split; [exact E1|]. split; [exact I1|]. intros Hc _. auto.
  - simpl. unfold bind, on_world. simpl.
    apply (IH (mkMachine (ctx s) (f (world s)) (trace s))).
  - simpl. destruct (IHt s) as (at_ & Et & It & Ct). destruct (IHf s) as (af & Ef & If_ & Cf).
    destruct (c (world s)).
    + exists at_. split; [exact Et|]. split; [exact It|]. intros Hc [Ht _]. auto.
    + exists af. split; [exact Ef|]. split; [exact If_|]. intros Hc [_ Hf]. auto.
  - rewrite exec_try. simpl first_next.
    destruct (first_next body (world s)) as [w1|r1 w1] eqn:Hb.
    + (* the block calls [next] *)
      destruct (IHb s) as (ab & Eb & Ib & Cb). rewrite Hb in Eb.
      assert (never_calls_next body -> False) as Nb.
      { intros N. destruct (never_first_next body N (world s)) as (r & w' & E).
        rewrite E in Hb. discriminate. }
      destruct (exec next body s) as [[u|e] s1]; simpl in Eb.
      * destruct (Hrest rest s1) as (ar & Er & Ir & Nr). exists (ab ++ ar).
        rewrite Er, Eb, <- !app_assoc. split; [reflexivity|]. split.
        -- intros x Hx. apply in_app_or in Hx as [Hx|Hx]; auto.
        -- intros Hc [(Ob & _ & Nrest)|[(N & _)|(N & _)]]; [|destruct (Nb N)..].
           rewrite (Cb Hc Ob), (Nr Nrest). reflexivity.
      * destruct (Hrest (handler e) s1) as (ah & Eh & Ih & Nh).
        destruct (exec next (handler e) s1) as [[u|e'] s2]; simpl in Eh.
        -- destruct (Hrest rest s2) as (ar & Er & Ir & Nr). exists (ab ++ ah ++ ar).
           rewrite Er, Eh, Eb, <- !app_assoc. split; [reflexivity|]. split.
           ++ intros x Hx. apply in_app_or in Hx as [Hx|Hx]; [auto|].
              apply in_app_or in Hx as [Hx|Hx]; auto.
           ++ intros Hc [(Ob & Nhandler & Nrest)|[(N & _)|(N & _)]]; [|destruct (Nb N)..].
              rewrite (Cb Hc Ob), (Nh (Nhandler e)), (Nr Nrest). reflexivity.
        -- exists (ab ++ ah). simpl. rewrite Eh, Eb, <- !app_assoc.
           split; [reflexivity|]. split.
           ++ intros x Hx. apply in_app_or in Hx as [Hx|Hx]; auto.
           ++ intros Hc [(Ob & Nhandler & _)|[(N & _)|(N & _)]]; [|destruct (Nb N)..].
              rewrite (Cb Hc Ob), (Nh (Nhandler e)). reflexivity.
    + (* the block ends before any call *)
      rewrite (exec_done next body s r1 w1 Hb).
      assert (calls_next_at_most_once (MwTry body handler rest) ->
              calls_next_at_most_once rest) as Or.
      { simpl. intros [(_ & _ & N)|[(_ & _ & N)|(_ & _ & O)]];
          [apply never_at_most_once; exact N..|exact O]. }
      destruct r1 as [u|e].
      * destruct (IHr (mkMachine (ctx s) w1 (trace s))) as (ar & Er & Ir & Cr).
        exists ar. split; [exact Er|]. split; [exact Ir|]. intros Hc O. auto.
      * destruct (first_next (handler e) w1) as [w2|r2 w2] eqn:Hh.
        -- (* the handler calls [next] *)
           destruct (IHh e (mkMachine (ctx s) w1 (trace s))) as (ah & Eh & Ih & Ch).
           simpl in Eh. rewrite Hh in Eh.
           assert (never_calls_next (handler e) -> False) as Nhe.
           { intros N. destruct (never_first_next (handler e) N w1) as (r & w' & E).
             rewrite E in Hh. discriminate. }
           destruct (exec next (handler e) (mkMachine (ctx s) w1 (trace s)))
             as [[u|e'] s2]; simpl in Eh.
           ++ destruct (Hrest rest s2) as (ar & Er & Ir & Nr). exists (ah ++ ar).
              rewrite Er, Eh, <- !app_assoc. split; [reflexivity|]. split.
              ** intros x Hx. apply in_app_or in Hx as [Hx|Hx]; auto.
              ** intros Hc [(_ & N & _)|[(_ & Oh & Nrest)|(_ & N & _)]];
                   [destruct (Nhe (N e))| |destruct (Nhe (N e))].
                 rewrite (Ch Hc (Oh e)), (Nr Nrest). reflexivity.
           ++ exists ah. simpl. split; [exact Eh|]. split; [exact Ih|].
              intros Hc [(_ & N & _)|[(_ & Oh & _)|(_ & N & _)]];
                [destruct (Nhe (N e))| |destruct (Nhe (N e))].
              exact (Ch Hc (Oh e)).
        -- rewrite (exec_done next (handler e) (mkMachine (ctx s) w1 (trace s)) r2 w2 Hh).
           simpl. destruct r2 as [u|e'].
           ++ destruct (IHr (mkMachine (ctx s) w2 (trace s))) as (ar & Er & Ir & Cr).
              exists ar. split; [exact Er|]. split; [exact Ir|]. intros Hc O. auto.
           ++ exists []. simpl. rewrite app_nil_r. repeat split; intros x [].
Qed.

Lemma descend_In (mCtx : MiddlewareContext) (chain : list (Middleware W)) :
  forall w x, In x (descend mCtx chain w).*1 -> In x chain.
Proof.
  induction chain as [|m later IH]; intros w x; simpl; [tauto|].
  intros [->|Hx]; [left; reflexivity|right].
  destruct (first_next (mw_run m mCtx) w) as [w1|r w1]; [eapply IH; exact Hx|destruct Hx].
Qed.

(** The walk enters an initial part of the chain. *)
Lemma descend_take (mCtx : MiddlewareContext) (chain : list (Middleware W)) :
  forall w, exists k,
    (k <= length chain)%nat /\ (descend mCtx chain w).*1 = take k chain /\
    (chain <> [] -> (1 <= k)%nat).
Proof.
  induction chain as [|m later IH]; intros w.
  - exists 0%nat. repeat split; [simpl; lia|congruence].
  - cbn [descend]. rewrite fmap_cons.
    destruct (first_next (mw_run m mCtx) w) as [w1|r w1].
    + destruct (IH w1) as (k & Hk & E & _). exists (S k). rewrite E. simpl.
      repeat split; lia.
    + exists 1%nat. simpl. rewrite take_0. repeat split; lia.
Qed.

(** The walk goes on past a middleware exactly when its body calls [next]. *)
Lemma descend_step (mCtx : MiddlewareContext) (chain : list (Middleware W)) :
  forall w i m wi, descend mCtx chain w !! i = Some (m, wi) ->
  chain !! i = Some m /\
  match first_next (mw_run m mCtx) wi with
  | Done _ _ => length (descend mCtx chain w) = S i
  | AtNext _ => (S i < length chain)%nat -> (S i < length (descend mCtx chain w))%nat
  end.
Proof.
  induction chain as [|m0 later IH]; intros w i m wi H; [discriminate|].
  simpl in H. destruct i as [|i].
  - injection H as -> ->. split; [reflexivity|]. simpl.
    destruct (first_next (mw_run m mCtx) wi) as [w1|r w1]; [|reflexivity].
    destruct later as [|m1 later]; simpl; lia.
  - simpl in H. simpl.
    destruct (first_next (mw_run m0 mCtx) w) as [w1|r w1]; [|discriminate].
    destruct (IH w1 i m wi H) as [Hm Hstep]. split; [exact Hm|].
    destruct (first_next (mw_run m mCtx) wi); simpl; lia.
Qed.

Lemma dispatch_walk (mCtx : MiddlewareContext) (chain : list (Middleware W)) :
  forall s, exists again,
    entered (trace (snd (dispatch mCtx chain s)))
    = entered (trace s) ++ (descend mCtx chain (world s)).*1 ++ again /\
    (forall x, In x again -> In x chain) /\
    (Forall (fun m => calls_next_at_most_once (mw_run m mCtx)) chain -> again = []).
Proof.
  induction chain as [|m later IH]; intros s.
  - exists []. simpl. rewrite app_nil_r. repeat split; intros x [].
  - simpl. unfold bind, observe. simpl.
    destruct (exec_walk (dispatch mCtx later) (fun w => (descend mCtx later w).*1) later
                (Forall (fun m => calls_next_at_most_once (mw_run m mCtx)) later)
                (descend_In mCtx later) IH (mw_run m mCtx)
                (mkMachine (ctx s) (world s) (trace s ++ [ObsMiddleware (mc_scope mCtx) m])))
      as (again & E & I & C).
    exists again. simpl in E. rewrite E, entered_app. simpl. rewrite <- !app_assoc. simpl.
    split; [|split].
    + destruct (first_next (mw_run m mCtx) (world s)); reflexivity.
    + intros x Hx. right. auto.
    + intros HF. apply Forall_cons in HF as [Hm Hlater]. auto.
Qed.

(** C7 (as the code has it): a scope invocation considers the registered
    middleware whose scope matches, unscoped ones matching every scope, in
    registration order: the chain. It enters an initial part of the chain,
    the first matching middleware first; the next one is entered when the
    body before it calls its continuation for the first time, and none
    after a body that ends, by return or by throw, without calling it.
    Whatever else is entered, [again], is entered through a second or later
    call of a continuation and belongs to the chain; when no body of the
    chain calls its continuation twice on any path there is no such entry,
    and each middleware of the initial part has executed once. *)
Theorem pipeline_run_chain
    (middlewares : list (Middleware W)) (mCtx : MiddlewareContext) (s : Machine W) :
  let chain := scoped middlewares (mc_scope mCtx) in
  let walk := descend mCtx chain (world s) in
  let s' := snd (run middlewares mCtx s) in
  (forall m, In m chain <->
     In m middlewares /\
     (mw_scope m = None \/ mw_scope m = Some (OneScope (mc_scope mCtx)) \/
      exists l, mw_scope m = Some (ManyScopes l) /\ In (mc_scope mCtx) l)) /\
  sublist chain middlewares /\
  (exists k, (k <= length chain)%nat /\ walk.*1 = take k chain /\
             (chain <> [] -> (1 <= k)%nat)) /\
  (forall i m w, walk !! i = Some (m, w) ->
     chain !! i = Some m /\
     match first_next (mw_run m mCtx) w with
     | Done _ _ => length walk = S i
     | AtNext _ => (S i < length chain)%nat -> (S i < length walk)%nat
     end) /\
  ctx s' = ctx s /\
  exists again,
    entered (trace s') = entered (trace s) ++ walk.*1 ++ again /\
    (forall m, In m again -> In m chain) /\
    (Forall (fun m => calls_next_at_most_once (mw_run m mCtx)) chain -> again = []).
Proof.
  intros chain walk s'.
  split; [intros m; apply scoped_member|].
  split; [apply filter_sublist|].
  split; [apply descend_take|].
  split; [intros i m w; apply descend_step|].
  split; [apply run_keeps_ctx|].
  subst s'. unfold run. rewrite drop_0. apply dispatch_walk.
Qed.

End PipelineFacts.

Section PipelineExamples.
Import Pipeline Scenario.

(** C7, on a chain with a guard: the counter passes on, the guard finds
    the world changed and returns, and the third middleware is not
    entered. *)
Lemma pipeline_run_chain_witness :
  entered (trace (snd (run [mw_count; mw_guard; mw_tools; mw_start] mw_ctx start)))
  = [mw_count; mw_guard].
Proof.
  destruct (pipeline_run_chain [mw_count; mw_guard; mw_tools; mw_start] mw_ctx start)
    as (_ & _ & _ & _ & _ & again & Hentered & _ & Hcalm).
  rewrite Hentered, Hcalm; [reflexivity|].
  repeat constructor.
Defined.

(** C7, counterexample. Of two matching middleware the first calls its
    continuation twice: the second is entered twice in the one invocation,
    which returns normally. Of three matching middleware the second
    throws: the third is not entered, although no middleware returned
    without invoking its continuation. *)
Lemma pipeline_second_call_reenters :
  (scoped [mw_again; mw_count] (mc_scope mw_ctx) = [mw_again; mw_count] /\
   fst (run [mw_again; mw_count] mw_ctx start) = Ok () /\
   entered (trace (snd (run [mw_again; mw_count] mw_ctx start)))
   = [mw_again; mw_count; mw_count] /\
   world (snd (run [mw_again; mw_count] mw_ctx start)) = 2%nat) /\
  (scoped [mw_count; mw_fail; mw_tools] (mc_scope mw_ctx) = [mw_count; mw_fail; mw_tools] /\
   fst (run [mw_count; mw_fail; mw_tools] mw_ctx start) = Throw "failed" /\
   entered (trace (snd (run [mw_count; mw_fail; mw_tools] mw_ctx start)))
   = [mw_count; mw_fail]).
Proof. repeat split; reflexivity. Qed.

End PipelineExamples.

(* ===================================================================== *)
(** * Properties of the tool-invocation protocol *)
(* ===================================================================== *)

Section CallToolFacts.
Context {W : Type} (rCtx : ReasoningContext W).

Lemma run_middleware_keeps_ctx (scope : MiddlewareScope) (info : ToolInfo) :
  keeps_ctx (run_middleware rCtx scope info).
Proof.
  unfold run_middleware. apply keeps_ctx_bind; [apply keeps_ctx_get_ctx|].
  intros c. apply run_keeps_ctx.
Qed.

(** C10: called with a name that is not registered, or with a registered
    name that the policy's allow-list excludes, [callTool] throws and leaves
    the machine as it was: no step, no message and no pair is added, no
    event is emitted, no middleware is entered and no tool body runs. *)
Theorem callTool_rejected (name : string) (args : Args) (callId : string) (s : Machine W) :
  ToolRegistry.get (rc_tools rCtx) name = None \/
  ToolRegistry.isAllowed name (allowedTools (rc_policy rCtx)) = false ->
  callTool rCtx name args callId s
  = (Throw (match ToolRegistry.get (rc_tools rCtx) name with
            | None => unknown_tool name
            | Some _ => tool_not_allowed name
            end), s).
Proof.
  intros H. unfold callTool.
  destruct (ToolRegistry.get (rc_tools rCtx) name) as [tool_|]; [|reflexivity].
  destruct H as [H|H]; [discriminate|]. rewrite H. reflexivity.
Qed.

(** [callTool] from the point where the tool body has ended: what is left
    is the bookkeeping of the outcome. *)
Lemma callTool_steps
    (name : string) (args : Args) (callId : string) (tool_ : ToolDefinition W)
    (s s1 : Machine W) (outcome : Result Json) (w2 : W) :
  ToolRegistry.get (rc_tools rCtx) name = Some tool_ ->
  ToolRegistry.isAllowed name (allowedTools (rc_policy rCtx)) = true ->
  run_middleware rCtx tool_before (mkToolInfo name args None)
    (mkMachine (ctx s) (world s) (trace s ++ [ObsEmit "tool:before" (PayloadToolBefore name args)]))
  = (Ok (), s1) ->
  execute tool_ args (ctx s1) (world s1) = (outcome, w2) ->
  callTool rCtx name args callId s
  = match outcome with
    | Throw err =>
        (push_step (tool_result name callId JNull (Some err) "runtime") ;;
         push_toolCall (mkToolCall callId name args) JNull ;;
         push_message (tool_message (stringify (JObj [("error", JStr err)])) callId) ;;
         emit "tool:after" (PayloadToolError name err) ;;
         run_middleware rCtx tool_after (mkToolInfo name args (Some JNull)) ;;
         throw err)
          (mkMachine (ctx s1) w2 (trace s1 ++ [ObsTool name args]))
    | Ok result =>
        (push_step (tool_result name callId result None "runtime") ;;
         push_toolCall (mkToolCall callId name args) result ;;
         text <- of_result (JSON_stringify result) ;;
         push_message (tool_message text callId) ;;
         emit "tool:after" (PayloadToolResult name result) ;;
         run_middleware rCtx tool_after (mkToolInfo name args (Some result)) ;;
         ret result)
          (mkMachine (ctx s1) w2 (trace s1 ++ [ObsTool name args]))
    end.
Proof.
  intros Hget Hallowed Hbefore Hexec.
  unfold callTool. rewrite Hget, Hallowed. change (negb true) with false. cbv iota.
  erewrite bind_ok by reflexivity.
  erewrite bind_ok by exact Hbefore.
  erewrite bind_ok by reflexivity.
  assert (try_ (observe (ObsTool name args) ;; on_world (execute tool_ args (ctx s1))) s1
          = (Ok outcome, mkMachine (ctx s1) w2 (trace s1 ++ [ObsTool name args]))) as Htry.
  { unfold try_, bind, observe, on_world. simpl. rewrite Hexec.
    destruct outcome; reflexivity. }
  erewrite bind_ok by exact Htry.
  destruct outcome; reflexivity.
Qed.

(** C2 (as the code has it): for a registered and allowed tool whose
    [tool:before] middleware completed, whether the tool body returns or
    throws, [callTool] appends exactly one [tool_result] step (with the error
    and a null result on failure) and one (call, result) pair to the state
    it was called in. When [JSON.stringify] gives a text -- the body threw,
    or returned a value it accepts -- the call appends one tool message
    with that text, then emits [tool:after] and runs the [tool:after]
    middleware on that state; when this middleware completes the call ends
    as the tool body ended -- its result, or its original error -- and when
    it throws the call ends with the middleware's error. When the body
    returned a value [JSON.stringify] rejects, the call ends there with the
    [TypeError]: after the step and the pair, with no tool message, no
    [tool:after] event and no [tool:after] middleware. *)
Theorem callTool_bookkeeping
    (name : string) (args : Args) (callId : string) (tool_ : ToolDefinition W)
    (s s1 : Machine W) (outcome : Result Json) (w2 : W) :
  ToolRegistry.get (rc_tools rCtx) name = Some tool_ ->
  ToolRegistry.isAllowed name (allowedTools (rc_policy rCtx)) = true ->
  run_middleware rCtx tool_before (mkToolInfo name args None)
    (mkMachine (ctx s) (world s) (trace s ++ [ObsEmit "tool:before" (PayloadToolBefore name args)]))
  = (Ok (), s1) ->
  execute tool_ args (ctx s1) (world s1) = (outcome, w2) ->
  let recorded := record_tool_outcome name args callId outcome (state (ctx s)) in
  let s2 :=
    mkMachine (mkContext (input (ctx s)) (sessionId (ctx s)) recorded) w2
      (trace s1 ++ [ObsTool name args; ObsEmit "tool:after" (after_payload name outcome)]) in
  let after :=
    run_middleware rCtx tool_after (mkToolInfo name args (Some (recorded_result outcome))) s2 in
  match message_text outcome with
  | Ok text =>
      recorded_content outcome = text /\
      callTool rCtx name args callId s
      = (match fst after with Ok _ => outcome | Throw e => Throw e end, snd after) /\
      state (ctx (snd after)) = recorded
  | Throw e =>
      callTool rCtx name args callId s
      = (Throw e,
         mkMachine
           (mkContext (input (ctx s)) (sessionId (ctx s))
              (record_step_and_pair name args callId outcome (state (ctx s))))
           w2 (trace s1 ++ [ObsTool name args]))
  end /\
  ctx s1 = ctx s.
Proof.
  intros Hget Hallowed Hbefore Hexec recorded s2 after.
  assert (ctx s1 = ctx s) as Hctx.
  { pose proof (run_middleware_keeps_ctx tool_before (mkToolInfo name args None)
                  (mkMachine (ctx s) (world s)
                     (trace s ++ [ObsEmit "tool:before" (PayloadToolBefore name args)]))) as H.
    rewrite Hbefore in H. exact H. }
  pose proof (callTool_steps name args callId tool_ s s1 outcome w2 Hget Hallowed Hbefore Hexec)
    as Hcall.
  split; [|exact Hctx].
  assert (state (ctx (snd after)) = recorded) as Hstate.
  { pose proof (run_middleware_keeps_ctx tool_after
                  (mkToolInfo name args (Some (recorded_result outcome))) s2) as H.
    fold after in H. rewrite H. reflexivity. }
  rewrite Hcall. subst after s2 recorded. rewrite <- Hctx in *.
  destruct outcome as [result|err]; simpl message_text.
  - unfold JSON_stringify. destruct (rejection result) as [e|] eqn:Hrej.
    + unfold bind, push_step, push_toolCall, modify_state, of_result. reflexivity.
    + split; [reflexivity|]. split; [|exact Hstate].
      unfold bind, push_step, push_toolCall, push_message, modify_state, emit, observe, ret,
        of_result.
      simpl. rewrite <- !app_assoc. simpl.
      unfold record_tool_outcome. simpl.
      destruct (run_middleware rCtx tool_after _ _) as [[[]|e] s3]; reflexivity.
  - split; [reflexivity|]. split; [|exact Hstate].
    unfold bind, push_step, push_toolCall, push_message, modify_state, emit, observe, throw.
    simpl. rewrite <- !app_assoc. simpl.
    unfold record_tool_outcome. simpl.
    destruct (run_middleware rCtx tool_after _ _) as [[[]|e] s3]; reflexivity.
Qed.

End CallToolFacts.

Section CallToolExamples.
Import Scenario.

Lemma callTool_rejected_witness :
  callTool rctx_restricted "broken" [] "c1" start
  = (Throw (tool_not_allowed "broken"), start).
Proof.
  apply (callTool_rejected rctx_restricted "broken" [] "c1" start).
  right. reflexivity.
Defined.

(** C2, on a tool that throws and on a tool whose result holds a BigInt:
    the first call records the step, the pair and the message and ends with
    the error of the tool; the second records the step and the pair and
    ends with the [TypeError], with no tool message and no [tool:after]
    event. *)
Lemma callTool_bookkeeping_witness :
  (fst (callTool rctx_plain "broken" [] "c9" start) = Throw "boom" /\
   state (ctx (snd (callTool rctx_plain "broken" [] "c9" start)))
   = record_tool_outcome "broken" [] "c9" (Throw "boom") (state (ctx start))) /\
  callTool rctx_ledger "ledger" [] "c7" start
  = (Throw "Do not know how to serialize a BigInt",
     mkMachine
       (mkContext "question" "s1"
          (mkState [ tool_result "ledger" "c7" (JObj [("balance", JBigInt 12)]) None "runtime" ]
             [ plain_message user "question" ]
             [ (mkToolCall "c7" "ledger" [], JObj [("balance", JBigInt 12)]) ]
             emptyUsage))
       2%nat
       [ ObsEmit "tool:before" (PayloadToolBefore "ledger" []);
         ObsMiddleware tool_before mw_count;
         ObsTool "ledger" [] ]).
Proof.
  split.
  - destruct (callTool_bookkeeping rctx_plain "broken" [] "c9" broken_tool start
                (mkMachine (ctx start) 1%nat
                   [ ObsEmit "tool:before" (PayloadToolBefore "broken" []);
                     ObsMiddleware tool_before mw_count ])
                (Throw "boom") 1%nat)
      as ((_ & Hcall & Hstate) & _).
    + reflexivity.
    + reflexivity.
    + reflexivity.
    + reflexivity.
    + rewrite Hcall. split; [reflexivity|exact Hstate].
  - destruct (callTool_bookkeeping rctx_ledger "ledger" [] "c7" ledger_tool start
                (mkMachine (ctx start) 1%nat
                   [ ObsEmit "tool:before" (PayloadToolBefore "ledger" []);
                     ObsMiddleware tool_before mw_count ])
                (Ok (JObj [("balance", JBigInt 12)])) 2%nat)
      as (Hcall & _).
    + reflexivity.
    + reflexivity.
    + reflexivity.
    + reflexivity.
    + exact Hcall.
Defined.

(** C2, counterexample: the tool is registered and allowed, its body throws
    ["boom"], the bookkeeping is done, and a [tool:after] middleware throws:
    the call ends with the middleware's error, not with the original one. *)
Lemma callTool_after_middleware_error :
  ToolRegistry.get (rc_tools rctx_audit) "broken" = Some broken_tool /\
  ToolRegistry.isAllowed "broken" (allowedTools (rc_policy rctx_audit)) = true /\
  fst (execute broken_tool [] (ctx start) (world start)) = Throw "boom" /\
  steps_of (snd (callTool rctx_audit "broken" [] "c9" start))
  = [ tool_result "broken" "c9" JNull (Some "boom") "runtime" ] /\
  fst (callTool rctx_audit "broken" [] "c9" start) = Throw "audit failed" /\
  fst (callTool rctx_audit "broken" [] "c9" start) <> Throw "boom".
Proof.
  repeat split; try reflexivity.
  vm_compute. discriminate.
Qed.

End CallToolExamples.

(* ===================================================================== *)
(** * Steps pushed by a computation *)
(* ===================================================================== *)

Section StepFacts.
Context {W : Type}.

Variable P : ReasoningStep -> Prop.

Lemma appends_keeps_ctx {A} (m : M W A) : keeps_ctx m -> appends P m.
Proof.
  intros H s. exists []. unfold steps_of. rewrite (H s), app_nil_r. auto.
Qed.

Lemma appends_ret {A} (a : A) : appends P (@ret W A a).
Proof. apply appends_keeps_ctx, keeps_ctx_ret. Qed.

Lemma appends_throw {A} (e : Err) : appends P (@throw W A e).
Proof. apply appends_keeps_ctx, keeps_ctx_throw. Qed.

Lemma appends_observe (o : Obs W) : appends P (observe o).
Proof. apply appends_keeps_ctx, keeps_ctx_observe. Qed.

Lemma appends_emit (event : string) (payload : Payload) : appends P (@emit W event payload).
Proof. apply appends_observe. Qed.

Lemma appends_on_world {A} (f : W -> Result A * W) : appends P (on_world f).
Proof. apply appends_keeps_ctx, keeps_ctx_on_world. Qed.

Lemma appends_of_result {A} (r : Result A) : appends P (@of_result W A r).
Proof. apply appends_keeps_ctx, keeps_ctx_of_result. Qed.

Lemma appends_get_ctx : appends P (@get_ctx W).
Proof. apply appends_keeps_ctx, keeps_ctx_get_ctx. Qed.

Lemma appends_get_state : appends P (@get_state W).
Proof. intros s. exists []. simpl. rewrite app_nil_r. auto. Qed.

Lemma appends_push_message (m : ModelMessage) : appends P (@push_message W m).
Proof. intros s. exists []. unfold steps_of. simpl. rewrite app_nil_r. auto. Qed.

Lemma appends_push_toolCall (c : ToolCall) (r : Json) : appends P (@push_toolCall W c r).
Proof. intros s. exists []. unfold steps_of. simpl. rewrite app_nil_r. auto. Qed.

Lemma appends_add_usage (u : TokenUsage) : appends P (@add_usage W u).
Proof. intros s. exists []. unfold steps_of. simpl. rewrite app_nil_r. auto. Qed.

Lemma appends_push_step (st : ReasoningStep) : P st -> appends P (@push_step W st).
Proof. intros H s. exists [st]. unfold steps_of. simpl. auto. Qed.

Lemma appends_bind {A B} (m : M W A) (k : A -> M W B) :
  appends P m -> (forall a, appends P (k a)) -> appends P (bind m k).
Proof.
  intros Hm Hk s. unfold bind. destruct (Hm s) as (p1 & H1 & HP1 & Hi1).
  destruct (m s) as [[a|e] s1]; simpl in *.
  - destruct (Hk a s1) as (p2 & H2 & HP2 & Hi2).
    exists (p1 ++ p2). rewrite H2, H1, app_assoc, Hi2. split; [reflexivity|].
    split; [apply Forall_app; auto|exact Hi1].
  - exists p1. auto.
Qed.

Lemma appends_of_result_bind {A B} (r : Result A) (k : A -> M W B) :
  (forall a, r = Ok a -> appends P (k a)) -> appends P (bind (of_result r) k).
Proof.
  intros Hk. destruct r as [a|e].
  - intros s. apply (Hk a eq_refl).
  - intros s. exists []. unfold steps_of. simpl. rewrite app_nil_r. auto.
Qed.

Lemma appends_try {A} (m : M W A) : appends P m -> appends P (try_ m).
Proof.
  intros Hm s. unfold try_. destruct (Hm s) as (p & H & HP & Hi).
  destruct (m s) as [r s1]. exists p. auto.
Qed.

Lemma appends_pushStep (st : ReasoningStep) : P st -> appends P (@pushStep W st).
Proof.
  intros H. unfold pushStep. apply appends_bind; [apply appends_push_step, H|].
  intros _. apply appends_emit.
Qed.

End StepFacts.

Lemma appends_weaken {W A} (P Q : ReasoningStep -> Prop) (m : M W A) :
  (forall st, P st -> Q st) -> appends P m -> appends Q m.
Proof.
  intros HPQ Hm s. destruct (Hm s) as (p & H & HP & Hi). exists p. split; [exact H|].
  split; [|exact Hi]. eapply Forall_impl; [exact HP|exact HPQ].
Qed.

Lemma answers_throw {W} (eng : string) (e : Err) : answers eng (@throw W string e).
Proof. intros s. exists []. simpl. unfold steps_of. rewrite app_nil_r. auto. Qed.

Lemma answers_final {W} (eng text : string) :
  answers eng (pushStep (response text eng) ;; @ret W string text).
Proof.
  intros s. exists [response text eng]. simpl. split; [reflexivity|].
  exists []. auto.
Qed.

Lemma answers_bind {W A} (eng : string) (m : M W A) (k : A -> M W string) :
  appends plain_step m -> (forall a, answers eng (k a)) -> answers eng (bind m k).
Proof.
  intros Hm Hk s. unfold bind. destruct (Hm s) as (p1 & H1 & HP1 & _).
  destruct (m s) as [[a|e] s1]; simpl in *.
  - destruct (Hk a s1) as (p2 & H2 & HP2).
    exists (p1 ++ p2). rewrite H2, H1, app_assoc. split; [reflexivity|].
    destruct (fst (k a s1)) as [text|e].
    + destruct HP2 as (before & -> & Hb). exists (p1 ++ before).
      rewrite app_assoc. split; [reflexivity|]. apply Forall_app. auto.
    + apply Forall_app. auto.
  - exists p1. auto.
Qed.

(** The step of a critique, when the critique has one, is a reflection. *)
Lemma reflectionStep_plain (crit : Json) (step : ReasoningStep) :
  ReflectEngine.reflectionStep crit = Ok step -> plain_step step.
Proof.
  unfold ReflectEngine.reflectionStep, and_then.
  destruct (ReflectEngine.assessment crit) as [text|e]; [|discriminate].
  destruct (member crit "needs_revision") as [needs|e]; [|discriminate].
  intros [= <-]. split; reflexivity.
Qed.

Create HintDb steps discriminated.

(** One rule of the step calculus, chosen by the shape of the computation. *)
Ltac appends_step :=
  first
    [ assumption
    | solve [auto with steps]
    | apply appends_ret | apply appends_throw | apply appends_get_state
    | apply appends_get_ctx | apply appends_push_message | apply appends_push_toolCall
    | apply appends_add_usage | apply appends_on_world | apply appends_observe
    | apply appends_emit | apply appends_of_result
    | (apply appends_pushStep; first [reflexivity | split; reflexivity | assumption])
    | (apply appends_push_step; first [reflexivity | split; reflexivity | assumption])
    | apply appends_try
    | (apply appends_of_result_bind; intros ? ?;
       try match goal with
           | H : ReflectEngine.reflectionStep _ = Ok _ |- _ => apply reflectionStep_plain in H
           end)
    | (apply appends_bind; [|intros ?])
    | match goal with |- appends _ (if ?b then _ else _) => destruct b end
    | match goal with |- appends _ (match ?x with _ => _ end) => destruct x end ].

Ltac appends_tac := repeat appends_step.

Ltac answers_step :=
  first
    [ apply answers_throw | apply answers_final | assumption
    | (apply answers_bind; [solve [appends_tac]|intros ?])
    | match goal with |- answers _ (if ?b then _ else _) => destruct b end
    | match goal with |- answers _ (match ?x with _ => _ end) => destruct x end ].

Ltac answers_tac := repeat answers_step.

(* ===================================================================== *)
(** * Steps pushed by the tool protocol and the utilities *)
(* ===================================================================== *)

Section UtilFacts.
Context {W : Type} (rCtx : ReasoningContext W).
Variable P : ReasoningStep -> Prop.
Hypothesis P_tool_result :
  forall name callId result error, P (tool_result name callId result error "runtime").

Lemma appends_run_middleware (scope : MiddlewareScope) (info : ToolInfo) :
  appends P (run_middleware rCtx scope info).
Proof. apply appends_keeps_ctx, run_middleware_keeps_ctx. Qed.

Lemma appends_callTool (name : string) (args : Args) (callId : string) :
  appends P (callTool rCtx name args callId).
Proof.
  unfold callTool.
  destruct (ToolRegistry.get (rc_tools rCtx) name) as [tool_|]; [|apply appends_throw].
  destruct (negb (ToolRegistry.isAllowed name (allowedTools (rc_policy rCtx))));
    [apply appends_throw|].
  pose proof appends_run_middleware.
  repeat first
    [ apply appends_push_step, P_tool_result
    | apply appends_run_middleware
    | appends_step ].
Qed.

Lemma appends_callEach (calls : list ToolCall) : appends P (callEach rCtx calls).
Proof.
  induction calls as [|tc rest IH]; simpl; [apply appends_ret|].
  apply appends_bind; [apply appends_callTool|intros _; exact IH].
Qed.

Lemma appends_executeToolCalls (resp : ModelResponse) : appends P (executeToolCalls rCtx resp).
Proof.
  unfold executeToolCalls.
  destruct (negb (has_items (r_toolCalls resp))); [apply appends_ret|apply appends_callEach].
Qed.

Lemma appends_model_complete (request : ModelRequest) : appends P (model_complete rCtx request).
Proof. unfold model_complete. appends_tac. Qed.

Lemma appends_accumulate (e : Err) (resp : ModelResponse) : appends P (accumulate rCtx e resp).
Proof. unfold accumulate. appends_tac. Qed.

Lemma appends_callModel (msgs : list ModelMessage) (options : ModelCallOptions) :
  appends P (callModel rCtx msgs options).
Proof.
  unfold callModel.
  apply appends_bind; [apply appends_model_complete|intros resp].
  apply appends_bind; [apply appends_accumulate|intros _]. apply appends_ret.
Qed.

End UtilFacts.

Lemma plain_tool_result (name callId : string) (result : Json) (error : option string) :
  plain_step (tool_result name callId result error "runtime").
Proof. split; reflexivity. Qed.

#[export] Hint Resolve plain_tool_result : steps.
#[export] Hint Resolve appends_callTool appends_callEach appends_executeToolCalls
  appends_model_complete appends_accumulate appends_callModel : steps.

(* ===================================================================== *)
(** * The built-in engines answer once *)
(* ===================================================================== *)

Section EngineFacts.
Context {W : Type} (rCtx : ReasoningContext W) (js : Platform W).

Lemma react_loop_answers (cfg : ReactEngine.Config) (remaining : nat) :
  answers ReactEngine.name (ReactEngine.loop rCtx cfg remaining).
Proof.
  induction remaining as [|remaining IH]; simpl; answers_tac.
Qed.

Lemma cot_toolLoop_answers (cfg : ChainOfThoughtEngine.Config) (remaining : nat) :
  answers ChainOfThoughtEngine.name (ChainOfThoughtEngine.toolLoop rCtx js cfg remaining).
Proof.
  induction remaining as [|remaining IH]; simpl; answers_tac.
Qed.

Lemma cot_execute_answers (cfg : ChainOfThoughtEngine.Config) :
  answers ChainOfThoughtEngine.name (ChainOfThoughtEngine.execute rCtx js cfg).
Proof.
  unfold ChainOfThoughtEngine.execute.
  pose proof (cot_toolLoop_answers cfg (Z.to_nat (ChainOfThoughtEngine.maxToolSteps cfg - 1))).
  answers_tac.
Qed.

Lemma planner_toTasks_appends (raw : list RawTask) :
  appends plain_step (PlannerEngine.toTasks js raw).
Proof.
  induction raw as [|t rest IH]; simpl; appends_tac.
Qed.

Lemma planner_makePlan_appends (cfg : PlannerEngine.Config) :
  appends plain_step (PlannerEngine.makePlan rCtx js cfg).
Proof.
  unfold PlannerEngine.makePlan. pose proof planner_toTasks_appends. appends_tac.
Qed.

Lemma planner_taskTools_appends (calls : list ToolCall) :
  forall taskMessages, appends plain_step (PlannerEngine.taskTools rCtx calls taskMessages).
Proof.
  induction calls as [|tc rest IH]; intros taskMessages; simpl; appends_tac.
Qed.

Lemma planner_taskLoop_appends (task : PlanTask) (remaining : nat) :
  forall taskMessages,
    appends plain_step (PlannerEngine.taskLoop rCtx js task remaining taskMessages).
Proof.
  pose proof planner_taskTools_appends.
  induction remaining as [|remaining IH]; intros taskMessages; simpl; appends_tac.
Qed.

Lemma planner_executeTask_appends (cfg : PlannerEngine.Config) (task : PlanTask)
    (previousResults : gmap string string) :
  appends plain_step (PlannerEngine.executeTask rCtx js cfg task previousResults).
Proof.
  unfold PlannerEngine.executeTask. pose proof planner_taskLoop_appends. appends_tac.
Qed.

Lemma planner_runTasks_appends (cfg : PlannerEngine.Config) (todo : list PlanTask) :
  forall i plan_ taskResults executionSteps,
    appends plain_step
      (PlannerEngine.runTasks rCtx js cfg todo i plan_ taskResults executionSteps).
Proof.
  pose proof planner_executeTask_appends.
  induction todo as [|task later IH]; intros i plan_ taskResults executionSteps; simpl;
    appends_tac.
Qed.

Lemma planner_synthesize_appends (plan_ : list PlanTask) (results : gmap string string) :
  appends plain_step (PlannerEngine.synthesize rCtx plan_ results).
Proof. unfold PlannerEngine.synthesize. appends_tac. Qed.

Lemma planner_execute_answers (cfg : PlannerEngine.Config) :
  answers PlannerEngine.name (PlannerEngine.execute rCtx js cfg).
Proof.
  unfold PlannerEngine.execute.
  pose proof planner_makePlan_appends. pose proof planner_runTasks_appends.
  pose proof planner_synthesize_appends.
  answers_tac.
Qed.

Section Reflect.
Variable P : ReasoningStep -> Prop.
Hypothesis P_tool_result :
  forall name callId result error, P (tool_result name callId result error "runtime").

Lemma reflect_generateAnswer_appends (cfg : ReflectEngine.Config) (remaining : nat) :
  appends P (ReflectEngine.generateAnswer rCtx js cfg remaining).
Proof.
  induction remaining as [|remaining IH]; simpl; appends_tac.
Qed.

End Reflect.

Lemma reflect_critique_appends (cfg : ReflectEngine.Config) (question answer : string) :
  appends plain_step (ReflectEngine.critique rCtx js cfg question answer).
Proof. unfold ReflectEngine.critique. appends_tac. Qed.

Lemma reflect_revise_appends (question answer : string) (c : Json) :
  appends plain_step (ReflectEngine.revise rCtx js question answer c).
Proof. unfold ReflectEngine.revise. appends_tac. Qed.

Lemma reflect_loop_appends (cfg : ReflectEngine.Config) (remaining : nat) :
  forall i answer, appends plain_step (ReflectEngine.reflectLoop rCtx js cfg remaining i answer).
Proof.
  pose proof reflect_critique_appends. pose proof reflect_revise_appends.
  induction remaining as [|remaining IH]; intros i answer; simpl; appends_tac.
Qed.

Lemma reflect_execute_answers (cfg : ReflectEngine.Config) :
  answers ReflectEngine.name (ReflectEngine.execute rCtx js cfg).
Proof.
  unfold ReflectEngine.execute.
  pose proof (reflect_generateAnswer_appends plain_step plain_tool_result).
  pose proof reflect_loop_appends.
  answers_tac.
Qed.

Lemma autonomous_loop_answers (cfg : AutonomousEngine.Config) (remaining : nat) :
  answers AutonomousEngine.name (AutonomousEngine.loop rCtx js cfg remaining).
Proof.
  induction remaining as [|remaining IH]; simpl; answers_tac.
Qed.

Lemma engine_answers (e : BuiltinEngine) :
  answers (engine_name e) (engine_execute rCtx js e).
Proof.
  destruct e as [cfg|cfg|cfg|cfg|cfg]; simpl.
  - apply react_loop_answers.
  - apply cot_execute_answers.
  - apply planner_execute_answers.
  - apply reflect_execute_answers.
  - apply autonomous_loop_answers.
Qed.

(** C4: for every run of a built-in engine that returns a final text, the
    steps pushed during the run are some steps none of which is a response,
    followed by one response step carrying that text: exactly one response
    step is pushed and it is the last step of the list. *)
Theorem engine_single_response_last
    (e : BuiltinEngine) (s s' : Machine W) (text : string) :
  engine_execute rCtx js e s = (Ok text, s') ->
  exists before,
    steps_of s' = steps_of s ++ before ++ [response text (engine_name e)] /\
    Forall (fun st => is_response st = false) before /\
    length (List.filter is_response (before ++ [response text (engine_name e)])) = 1%nat /\
    last (steps_of s') = Some (response text (engine_name e)).
Proof.
  intros Hrun. destruct (engine_answers e s) as (pushed & Hsteps & Hshape).
  rewrite Hrun in Hsteps, Hshape. simpl in *.
  destruct Hshape as (before & -> & Hplain).
  assert (Forall (fun st => is_response st = false) before) as Hnone.
  { eapply Forall_impl; [exact Hplain|]. intros st [H _]. exact H. }
  exists before. split; [exact Hsteps|]. split; [exact Hnone|]. split.
  - rewrite List.filter_app, (filter_all_false is_response before Hnone). reflexivity.
  - rewrite Hsteps, app_assoc. apply last_snoc.
Qed.

(** C9: no run of a built-in engine, returning or throwing, pushes a step of
    type tool_call, and neither does [callTool], which builds such a value
    and drops it: the steps pushed never include one, so a run started on
    the fresh state of a run ends with a step list without tool_call steps,
    whatever tool_result steps it holds. *)
Theorem no_tool_call_step (e : BuiltinEngine) (s : Machine W) :
  (exists pushed,
     steps_of (snd (engine_execute rCtx js e s)) = steps_of s ++ pushed /\
     Forall (fun st => is_tool_call st = false) pushed) /\
  (forall name args callId,
     exists pushed,
       steps_of (snd (callTool rCtx name args callId s)) = steps_of s ++ pushed /\
       Forall (fun st => is_tool_call st = false) pushed) /\
  (forall input sessionId msgs w,
     Forall (fun st => is_tool_call st = false)
       (steps_of
          (snd (engine_execute rCtx js e
                  (mkMachine (mkContext input sessionId (mkState [] msgs [] emptyUsage)) w []))))).
Proof.
  assert (forall s0, exists pushed,
            steps_of (snd (engine_execute rCtx js e s0)) = steps_of s0 ++ pushed /\
            Forall (fun st => is_tool_call st = false) pushed) as Hany.
  { intros s0.
    destruct (engine_answers e s0) as (pushed & Hsteps & Hshape).
    exists pushed. split; [exact Hsteps|].
    destruct (fst (engine_execute rCtx js e s0)) as [text|err].
    - destruct Hshape as (before & -> & Hplain). apply Forall_app. split.
      + eapply Forall_impl; [exact Hplain|]. intros st [_ H]. exact H.
      + repeat constructor.
    - eapply Forall_impl; [exact Hshape|]. intros st [_ H]. exact H. }
  split; [exact (Hany s)|]. split.
  - intros name args callId.
    destruct (appends_callTool rCtx plain_step plain_tool_result name args callId s)
      as (pushed & Hsteps & Hplain & _).
    exists pushed. split; [exact Hsteps|].
    eapply Forall_impl; [exact Hplain|]. intros st [_ H]. exact H.
  - intros input_ sessionId_ msgs w.
    destruct (Hany (mkMachine (mkContext input_ sessionId_ (mkState [] msgs [] emptyUsage)) w []))
      as (pushed & Hsteps & Hnone).
    rewrite Hsteps. exact Hnone.
Qed.

End EngineFacts.

(* ===================================================================== *)
(** * The Reflect engine when the critique accepts *)
(* ===================================================================== *)

Section ReflectFacts.
Context {W : Type} (rCtx : ReasoningContext W) (js : Platform W).
Import ReflectEngine.






End ReflectFacts.

(* ===================================================================== *)
(** * Runs of the engines on the scenarios *)
(* ===================================================================== *)

Section EngineExamples.
Import Scenario.

Lemma engine_single_response_last_witness :
  exists before,
    steps_of (snd (engine_execute rctx_plain plain_js (React ReactEngine.defaultConfig) start))
    = steps_of start ++ before ++ [response "42" "react"] /\
    Forall (fun st => is_response st = false) before.
Proof.
  destruct (engine_single_response_last rctx_plain plain_js (React ReactEngine.defaultConfig)
              start
              (snd (engine_execute rctx_plain plain_js (React ReactEngine.defaultConfig) start))
              "42")
    as (before & Hsteps & Hnone & _).
  - vm_compute. reflexivity.
  - exists before. split; [exact Hsteps|exact Hnone].
Defined.



(** C1, the code at a turn that calls [search] and [finish] together: the
    run returns the [result] argument of [finish] and appends the synthetic
    tool message of the finish call, and the [search] call of the same turn
    is never executed -- no tool body runs, no pair and no tool message is
    recorded for it. *)
Lemma autonomous_finish_skips_other_calls :
  let run := AutonomousEngine.execute rctx_finish plain_js AutonomousEngine.defaultConfig start in
  r_toolCalls finish_turn
  = Some [ mkToolCall "c1" "search" [("query", JStr "rocq")];
           mkToolCall "c2" "finish" [("result", JStr "X")] ] /\
  ToolRegistry.get (rc_tools rctx_finish) "search" = Some search_tool /\
  fst run = Ok "X" /\
  messages (state (ctx (snd run)))
  = [ plain_message user "question";
      message finish_turn;
      tool_message (stringify (JObj [("done", JBool true)])) "c2" ] /\
  toolCalls (state (ctx (snd run))) = [] /\
  steps_of (snd run) = [ response "X" "autonomous" ] /\
  List.filter is_tool_obs (trace (snd run)) = [].
Proof. repeat split; vm_compute; reflexivity. Qed.

End EngineExamples.

(* ===================================================================== *)
(** * Further properties of token trimming *)
(* ===================================================================== *)

Section MoreTokenFacts.
Import Tokens.

Lemma estimate_nonneg (l : list ModelMessage) : 0 <= estimateMessagesTokens l.
Proof.
  induction l as [|m l IH]; [unfold estimateMessagesTokens; simpl; lia|].
  rewrite estimate_cons. pose proof (estimateTokens_nonneg (content m)). lia.
Qed.

(** X1. The estimate is the ceiling of a quarter of the length; the estimate of
    a list is additive and counts at least four tokens per message. *)
Theorem estimate_ceiling_and_overhead (text : string) (l1 l2 : list ModelMessage) :
  4 * estimateTokens text - 3 <= Z.of_nat (String.length text) <= 4 * estimateTokens text /\
  estimateMessagesTokens (l1 ++ l2) = estimateMessagesTokens l1 + estimateMessagesTokens l2 /\
  4 * Z.of_nat (length l1) <= estimateMessagesTokens l1.
Proof.
  split; [|split].
  - unfold estimateTokens.
    pose proof (Z.div_mod (Z.of_nat (String.length text) + 3) 4 ltac:(lia)) as Hdm.
    pose proof (Z.mod_pos_bound (Z.of_nat (String.length text) + 3) 4 ltac:(lia)) as Hb.
    lia.
  - apply estimate_app.
  - induction l1 as [|m l IH]; [unfold estimateMessagesTokens; simpl; lia|].
    rewrite estimate_cons. pose proof (estimateTokens_nonneg (content m)).
    simpl length. lia.
Qed.

(** When what is left of the budget covers the whole walk, every message is
    taken. *)
Lemma trimWalk_all_fit (maxTokens : Z) (newest : list ModelMessage) :
  forall tokens result,
    tokens + estimateMessagesTokens newest <= maxTokens ->
    trimWalk newest tokens maxTokens result = rev newest ++ result.
Proof.
  induction newest as [|msg older IH]; intros tokens result Hfit; simpl; [reflexivity|].
  rewrite estimate_cons in Hfit. pose proof (estimate_nonneg older).
  destruct (Z.gtb_spec (tokens + (estimateTokens (content msg) + 4)) maxTokens); [lia|].
  rewrite IH by lia. rewrite <- app_assoc. reflexivity.
Qed.

Lemma filter_system_partition (msgs : list ModelMessage) :
  estimateMessagesTokens msgs
  = estimateMessagesTokens (List.filter (fun m => is_system (role m)) msgs)
    + estimateMessagesTokens (List.filter non_system msgs).
Proof.
  induction msgs as [|m msgs IH]; simpl; [reflexivity|].
  unfold non_system at 1. destruct (is_system (role m)); simpl;
    rewrite !estimate_cons, IH; lia.
Qed.

Lemma system_filter_non_system (msgs : list ModelMessage) :
  Forall (fun m => non_system m = false) (List.filter (fun m => is_system (role m)) msgs).
Proof.
  eapply Forall_impl; [apply filter_Forall|]. intros m H. simpl in H.
  unfold non_system. rewrite H. reflexivity.
Qed.

Lemma non_system_filter_system (msgs : list ModelMessage) :
  Forall (fun m => is_system (role m) = false) (List.filter non_system msgs).
Proof.
  eapply Forall_impl; [apply filter_Forall|]. intros m H. simpl in H.
  unfold non_system in H. destruct (is_system (role m)); [discriminate|reflexivity].
Qed.

(** X2. [trimToTokenBudget] on any list: every system message is kept, in
    order and in front, whatever the budget; after them comes the longest
    suffix of the other messages that fits what the system messages leave of
    the budget. The total stays within the budget whenever one non-system
    message is kept. *)
Theorem trim_keeps_system_then_suffix (msgs : list ModelMessage) (maxTokens : Z) :
  let sys := List.filter (fun m => is_system (role m)) msgs in
  let others := List.filter non_system msgs in
  exists dropped kept,
    others = dropped ++ kept /\
    trimToTokenBudget msgs maxTokens = sys ++ kept /\
    (kept = [] \/ estimateMessagesTokens (trimToTokenBudget msgs maxTokens) <= maxTokens) /\
    (dropped = [] \/
     exists older m, dropped = older ++ [m] /\
       estimateMessagesTokens sys + estimateMessagesTokens (m :: kept) > maxTokens).
Proof.
  intros sys others. unfold trimToTokenBudget. fold sys. fold others.
  destruct (trimWalk_spec maxTokens (rev others) (estimateMessagesTokens sys) [])
    as (taken & left_ & Hsplit & Hwalk & Hfit & Hstop).
  rewrite Hwalk, app_nil_r.
  exists (rev left_), (rev taken). split; [|split; [reflexivity|split]].
  - rewrite <- rev_app_distr, <- Hsplit, rev_involutive. reflexivity.
  - destruct taken as [|t taken]; [left; reflexivity|right].
    rewrite estimate_app, estimate_rev. apply Hfit. congruence.
  - destruct Hstop as [->|(m & older & -> & Hover)]; [left; reflexivity|].
    right. exists (rev older), m. split; [reflexivity|].
    rewrite estimate_cons, estimate_rev.
    rewrite estimate_cons in Hover. unfold estimateMessagesTokens at 3 in Hover.
    simpl in Hover. lia.
Qed.

(** X3. Trimming twice with the same budget is trimming once. *)
Theorem trim_idempotent (msgs : list ModelMessage) (maxTokens : Z) :
  trimToTokenBudget (trimToTokenBudget msgs maxTokens) maxTokens
  = trimToTokenBudget msgs maxTokens.
Proof.
  set (sys := List.filter (fun m => is_system (role m)) msgs).
  set (others := List.filter non_system msgs).
  destruct (trimWalk_spec maxTokens (rev others) (estimateMessagesTokens sys) [])
    as (taken & left_ & Hsplit & Hwalk & Hfit & _).
  assert (trimToTokenBudget msgs maxTokens = sys ++ rev taken) as Heq.
  { unfold trimToTokenBudget. fold sys. fold others. rewrite Hwalk, app_nil_r. reflexivity. }
  rewrite Heq.
  assert (Forall (fun m => non_system m = true) (rev taken)) as Htaken.
  { apply Forall_rev.
    assert (Forall (fun m => non_system m = true) (rev others)) as H
      by (apply Forall_rev, filter_Forall).
    rewrite Hsplit in H. apply Forall_app in H. tauto. }
  unfold trimToTokenBudget.
  rewrite !List.filter_app.
  rewrite (filter_all_true (fun m => is_system (role m)) sys) by apply filter_Forall.
  rewrite (filter_all_false (fun m => is_system (role m)) (rev taken)).
  2:{ eapply Forall_impl; [exact Htaken|]. intros m H. unfold non_system in H.
      destruct (is_system (role m)); [discriminate|reflexivity]. }
  rewrite (filter_all_false non_system sys) by apply system_filter_non_system.
  rewrite (filter_all_true non_system (rev taken) Htaken).
  rewrite app_nil_r. simpl. rewrite rev_involutive.
  destruct taken as [|t taken]; [reflexivity|].
  rewrite trimWalk_all_fit; [rewrite app_nil_r; reflexivity|].
  apply Hfit. congruence.
Qed.

(** X4. A list whose estimate is within the budget loses no message; its
    system messages are moved in front of the others. *)
Theorem trim_within_budget (msgs : list ModelMessage) (maxTokens : Z) :
  estimateMessagesTokens msgs <= maxTokens ->
  trimToTokenBudget msgs maxTokens
  = List.filter (fun m => is_system (role m)) msgs ++ List.filter non_system msgs.
Proof.
  intros Hfit. unfold trimToTokenBudget.
  rewrite trimWalk_all_fit.
  - rewrite rev_involutive, app_nil_r. reflexivity.
  - rewrite estimate_rev, <- filter_system_partition. exact Hfit.
Qed.

End MoreTokenFacts.

(* ===================================================================== *)
(** * Further properties of the in-process stores *)
(* ===================================================================== *)

Section SliceFacts.
Context {A : Type}.

Lemma slice_from_last (n : Z) (l : list A) :
  0 < n -> slice_from (- n) l = drop (length l - Z.to_nat n) l.
Proof.
  intros Hn. unfold slice_from. destruct (Z.ltb_spec (- n) 0); [|lia]. f_equal. lia.
Qed.

Lemma slice_from_minus_zero (l : list A) : slice_from (- 0) l = l.
Proof.
  unfold slice_from. change (- 0) with 0. simpl.
  rewrite Z.min_l by lia. reflexivity.
Qed.

End SliceFacts.

Section MoreSlidingWindowFacts.
Import SlidingWindow.

Lemma groupLoop_shape (msgs : list ModelMessage) :
  forall turns current,
    Forall closed_turn turns ->
    Forall (fun m => ends_turn m = false) current ->
    Forall closed_turn (fst (groupLoop msgs turns current)) /\
    Forall (fun m => ends_turn m = false) (snd (groupLoop msgs turns current)).
Proof.
  induction msgs as [|msg rest IH]; intros turns current Hturns Hcur; simpl; [auto|].
  fold (ends_turn msg). destruct (ends_turn msg) eqn:Hend.
  - apply IH; [|constructor].
    apply Forall_app. split; [exact Hturns|].
    constructor; [|constructor]. exists current, msg. simpl. auto.
  - apply IH; [exact Hturns|].
    apply Forall_app. split; [exact Hcur|]. constructor; [exact Hend|constructor].
Qed.

(** X5. [groupIntoTurns] cuts a list into turns without losing or reordering a
    message: every turn but possibly the last ends with the only message of
    the turn that closes it, and a last turn that nothing closed is not
    empty. *)
Theorem groupIntoTurns_shape (msgs : list ModelMessage) :
  flatten (groupIntoTurns msgs) = msgs /\
  exists closed trailing,
    groupIntoTurns msgs = closed ++ trailing /\
    Forall closed_turn closed /\
    (trailing = [] \/ exists t, trailing = [t] /\ open_turn t).
Proof.
  split; [apply groupIntoTurns_flatten|].
  unfold groupIntoTurns.
  destruct (groupLoop_shape msgs [] [] ltac:(constructor) ltac:(constructor)) as [Hturns Hcur].
  destruct (groupLoop msgs [] []) as [turns current]. simpl in *.
  destruct current as [|c current].
  - exists turns, []. rewrite app_nil_r. auto.
  - exists turns, [mkTurn (c :: current)]. split; [reflexivity|]. split; [exact Hturns|].
    right. exists (mkTurn (c :: current)). split; [reflexivity|].
    split; [simpl; congruence|exact Hcur].
Qed.

(** X6. [write] appends the new turns to the session and keeps the [maxTurns]
    most recent turns; with [maxTurns = 0] the slice keeps every turn. *)
Theorem sliding_write_keeps_recent
    (cfg : Config) (sessions : Sessions) (msgs : list ModelMessage)
    (options : MemoryWriteOptions) :
  0 <= maxTurns cfg ->
  let sid := session_key (wo_sessionId options) in
  let all := default [] (sessions !! sid)
             ++ groupIntoTurns (List.filter non_system msgs) in
  let stored := default [] (write cfg sessions msgs options !! sid) in
  stored
  = (if maxTurns cfg =? 0 then all
     else drop (length all - Z.to_nat (maxTurns cfg)) all) /\
  (0 < maxTurns cfg -> Z.of_nat (length stored) <= maxTurns cfg).
Proof.
  intros Hpos sid all stored.
  assert (stored = slice_from (- maxTurns cfg) all) as Hstored.
  { subst stored. unfold write. fold sid. rewrite lookup_insert_eq. reflexivity. }
  assert (stored
          = (if maxTurns cfg =? 0 then all
             else drop (length all - Z.to_nat (maxTurns cfg)) all)) as Heq.
  { rewrite Hstored.
    destruct (Z.eqb_spec (maxTurns cfg) 0) as [H0|Hne].
    - rewrite H0. apply slice_from_minus_zero.
    - apply slice_from_last. lia. }
  split; [exact Heq|].
  intros Hlt. rewrite Heq.
  destruct (Z.eqb_spec (maxTurns cfg) 0); [lia|].
  rewrite length_drop. lia.
Qed.

End MoreSlidingWindowFacts.

Section MoreStoreFacts.

(** X7. A write addressed to one session changes no other session of a
    BufferMemory or a SlidingWindowMemory; sessions are told apart by
    [sessionId ?? 'default']. *)
Theorem write_other_session_unchanged
    (bcfg : Buffer.Config) (store : Buffer.Store)
    (scfg : SlidingWindow.Config) (sessions : SlidingWindow.Sessions)
    (msgs : list ModelMessage) (wopts : MemoryWriteOptions) (ropts : MemoryReadOptions) :
  session_key (wo_sessionId wopts) <> session_key (ro_sessionId ropts) ->
  Buffer.read bcfg (Buffer.write bcfg store msgs wopts) ropts = Buffer.read bcfg store ropts /\
  SlidingWindow.read scfg (SlidingWindow.write scfg sessions msgs wopts) ropts
  = SlidingWindow.read scfg sessions ropts.
Proof.
  intros Hne. split.
  - unfold Buffer.read, Buffer.write. rewrite lookup_insert_ne by exact Hne. reflexivity.
  - unfold SlidingWindow.read, SlidingWindow.write.
    rewrite lookup_insert_ne by exact Hne. reflexivity.
Qed.

(** X8. [clear] called without a session id, or with the empty string, empties
    every session of the store, not one session. *)
Theorem clear_without_session_clears_all
    (bcfg : Buffer.Config) (store : Buffer.Store)
    (scfg : SlidingWindow.Config) (sessions : SlidingWindow.Sessions)
    (summaries : Summarizing.Sessions)
    (sessionId : option string) (ropts : MemoryReadOptions) :
  sessionId = None \/ sessionId = Some "" ->
  Buffer.read bcfg (Buffer.clear store sessionId) ropts = [] /\
  SlidingWindow.read scfg (SlidingWindow.clear sessions sessionId) ropts = [] /\
  Summarizing.read (Summarizing.clear summaries sessionId) ropts = [].
Proof.
  intros H.
  assert (session_given sessionId = None) as Hgiven by (destruct H; subst; reflexivity).
  unfold Buffer.read, Buffer.clear, SlidingWindow.read, SlidingWindow.clear,
    Summarizing.read, Summarizing.clear.
  rewrite Hgiven, !lookup_empty. simpl. split; [|split; reflexivity].
  destruct (Buffer.maxTokens bcfg) as [b|]; [|reflexivity].
  destruct (b =? 0); reflexivity.
Qed.

(** X9. A BufferMemory without token budget reads back what the last write
    stored: the last [maxMessages] non-system messages written, whatever the
    session held before; with [maxMessages = 0] every message is kept. *)
Theorem buffer_write_then_read
    (cfg : Buffer.Config) (store : Buffer.Store) (msgs : list ModelMessage)
    (sessionId : option string) (agentName : option string) :
  Buffer.maxTokens cfg = None ->
  0 <= Buffer.maxMessages cfg ->
  let kept := List.filter non_system msgs in
  Buffer.read cfg (Buffer.write cfg store msgs (mkWriteOptions sessionId agentName))
    (mkReadOptions sessionId)
  = (if Buffer.maxMessages cfg =? 0 then kept
     else drop (length kept - Z.to_nat (Buffer.maxMessages cfg)) kept).
Proof.
  intros Hnone Hpos kept. unfold Buffer.read, Buffer.write. simpl.
  rewrite lookup_insert_eq, Hnone. simpl. fold kept.
  destruct (Z.gtb_spec (Z.of_nat (length kept)) (Buffer.maxMessages cfg)) as [Hgt|Hle].
  - destruct (Z.eqb_spec (Buffer.maxMessages cfg) 0) as [H0|Hne].
    + rewrite H0. apply slice_from_minus_zero.
    + apply slice_from_last. lia.
  - destruct (Z.eqb_spec (Buffer.maxMessages cfg) 0) as [H0|Hne].
    + reflexivity.
    + replace (length kept - Z.to_nat (Buffer.maxMessages cfg))%nat with 0%nat by lia.
      reflexivity.
Qed.

End MoreStoreFacts.

(* ===================================================================== *)
(** * Further properties of SummarizingMemory *)
(* ===================================================================== *)

Section MoreSummarizingFacts.
Import Summarizing.
Context {W : Type}.

(** X10. A write whose non-system messages fit [activeWindowTokens] calls no
    model: it replaces the window of the session by these messages, keeps the
    summary the session had, and a following [read] returns that summary (if
    not empty) as a system message followed by the messages written. *)
Theorem summarizing_write_within_budget
    (cfg : Config W) (sessions : Sessions) (msgs : list ModelMessage)
    (options : MemoryWriteOptions) (w : W) :
  let sid := session_key (wo_sessionId options) in
  let prior := default (mkSession None []) (sessions !! sid) in
  let window := List.filter non_system msgs in
  let sessions' := <[sid := mkSession (summary prior) window]> sessions in
  Tokens.estimateMessagesTokens window <= activeWindowTokens cfg ->
  write cfg sessions msgs options w = (Ok (), sessions', w) /\
  read sessions' (mkReadOptions (wo_sessionId options))
  = match summary_present prior with
    | Some s => [summary_message s]
    | None => []
    end ++ window.
Proof.
  intros sid prior window sessions' Hfit. split.
  - unfold write. fold sid. fold window.
    destruct (Z.gtb_spec (Tokens.estimateMessagesTokens window) (activeWindowTokens cfg));
      [lia|reflexivity].
  - unfold read. simpl ro_sessionId. fold sid. subst sessions'.
    rewrite lookup_insert_eq. reflexivity.
Qed.

(** X11. A write that needs a compression whose model call is rejected fails
    with the model's error. A session that did not exist is not created; a
    session that existed keeps its summary and has its window replaced by the
    messages of the failed write, uncompressed. *)
Theorem summarizing_write_model_failure
    (cfg : Config W) (sessions : Sessions) (msgs : list ModelMessage)
    (options : MemoryWriteOptions) (w w' : W) (e : Err) :
  let sid := session_key (wo_sessionId options) in
  let prior := default (mkSession None []) (sessions !! sid) in
  let window := List.filter non_system msgs in
  Tokens.estimateMessagesTokens window > activeWindowTokens cfg ->
  complete (model cfg) (compressRequest cfg (mkSession (summary prior) window)) w
  = (Throw e, w') ->
  write cfg sessions msgs options w
  = (Throw e,
     match sessions !! sid with
     | Some old => <[sid := mkSession (summary old) window]> sessions
     | None => sessions
     end,
     w').
Proof.
  intros sid prior window Hover Hcall. unfold write. fold sid. fold window.
  destruct (Z.gtb_spec (Tokens.estimateMessagesTokens window) (activeWindowTokens cfg));
    [|lia].
  unfold compress. fold prior. rewrite Hcall.
  subst prior. destruct (sessions !! sid); reflexivity.
Qed.

End MoreSummarizingFacts.

(* ===================================================================== *)
(** * Further properties of CompositeMemory *)
(* ===================================================================== *)

Section MoreCompositeFacts.
Import Composite.

Lemma dedupe_spec (rest : list ModelMessage) :
  forall (seen : gset string) (merged : list ModelMessage),
    (forall k, k ∈ seen <-> In k (List.map fingerprint merged)) ->
    NoDup (List.map fingerprint merged) ->
    exists extra,
      snd (dedupe rest seen merged) = merged ++ extra /\
      sublist extra rest /\
      NoDup (List.map fingerprint (merged ++ extra)) /\
      (forall m, In m rest -> In (fingerprint m) (List.map fingerprint (merged ++ extra))).
Proof.
  induction rest as [|msg rest IH]; intros seen merged Hseen Hnodup; cbn [dedupe].
  - exists []. simpl. rewrite app_nil_r. repeat split; [constructor|exact Hnodup|].
    intros m [].
  - destruct (decide _) as [Hin|Hnot].
    + destruct (IH seen merged Hseen Hnodup) as (extra & Hout & Hsub & Hnd & Hall).
      exists extra. repeat split; [exact Hout|apply sublist_cons; exact Hsub|exact Hnd|].
      intros m [->|Hm]; [|exact (Hall m Hm)].
      rewrite List.map_app. apply in_or_app. left. apply Hseen. exact Hin.
    + destruct (IH ({[fingerprint msg]} ∪ seen) (merged ++ [msg])) as (extra & Hout & Hsub & Hnd & Hall).
      * intros k. rewrite List.map_app, in_app_iff. simpl. rewrite elem_of_union, elem_of_singleton.
        rewrite Hseen. intuition.
      * rewrite List.map_app. simpl. apply NoDup_app. split; [exact Hnodup|]. split.
        -- intros k Hk Hk'. apply list_elem_of_In in Hk'. destruct Hk' as [Hk'|[]].
           subst k. apply Hnot, Hseen. apply list_elem_of_In. exact Hk.
        -- apply NoDup_singleton.
      * exists (msg :: extra). rewrite <- app_assoc in Hout, Hnd, Hall. simpl in *.
        repeat split; [exact Hout|apply sublist_skip; exact Hsub|exact Hnd|].
        intros m [->|Hm]; [|exact (Hall m Hm)].
        rewrite List.map_app. apply in_or_app. right. left. reflexivity.
Qed.

(** X12. The de-duplication of the [merge] strategy keeps messages in their
    order, keeps one message for every (role, first 100 characters)
    fingerprint of the input, and never two with the same fingerprint. *)
Theorem merge_dedupe (msgs : list ModelMessage) :
  let out := snd (dedupe msgs ∅ []) in
  sublist out msgs /\
  NoDup (List.map fingerprint out) /\
  (forall m, In m msgs -> In (fingerprint m) (List.map fingerprint out)).
Proof.
  intros out.
  destruct (dedupe_spec msgs ∅ []) as (extra & Hout & Hsub & Hnd & Hall).
  - intros k. simpl. rewrite elem_of_empty. tauto.
  - constructor.
  - subst out. rewrite Hout. simpl in *. auto.
Qed.

Context {W S : Type}.

Lemma firstHit_first_nonempty
    (rd : Provider W S -> Result (list ModelMessage) * Provider W S)
    (pre post : list (Provider W S)) (q : Provider W S) (m : ModelMessage)
    (ms : list ModelMessage) :
  Forall (fun p => fst (rd p) = Ok []) pre ->
  fst (rd q) = Ok (m :: ms) ->
  firstHit rd (pre ++ q :: post)
  = (Ok (m :: ms), List.map (fun p => snd (rd p)) pre ++ snd (rd q) :: post).
Proof.
  intros Hpre Hq. induction Hpre as [|p pre Hp _ IH]; simpl.
  - destruct (rd q) as [r q']. simpl in Hq. subst r. reflexivity.
  - destruct (rd p) as [r p']. simpl in Hp. subst r. rewrite IH. reflexivity.
Qed.

(** X13. The [first-hit] strategy returns the messages of the first provider,
    in array order, whose answer is not empty, and does not read the
    providers after it. *)
Theorem composite_first_hit
    (pre post : list (Provider W S)) (q : Provider W S)
    (options : MemoryReadOptions) (m : ModelMessage) (ms : list ModelMessage) :
  Forall (fun p => fst (read p options) = Ok []) pre ->
  fst (read q options) = Ok (m :: ms) ->
  read (PComposite first_hit (pre ++ q :: post)) options
  = (Ok (m :: ms),
     PComposite first_hit
       (List.map (fun p => snd (read p options)) pre ++ snd (read q options) :: post)).
Proof.
  intros Hpre Hq. simpl.
  rewrite (firstHit_first_nonempty (fun p => read p options) pre post q m ms Hpre Hq).
  reflexivity.
Qed.

End MoreCompositeFacts.

(* ===================================================================== *)
(** * Properties of the tool registry *)
(* ===================================================================== *)

Section RegistryFacts.
Import ToolRegistry.
Context {W : Type}.

Lemma get_set (name : string) (tool_ : ToolDefinition W) (reg : @ToolRegistry.t W) (n : string) :
  get (set name tool_ reg) n = if decide (name = n) then Some tool_ else get reg n.
Proof.
  induction reg as [|[k v] reg IH]; simpl.
  - destruct (decide (name = n)); reflexivity.
  - destruct (decide (k = name)) as [->|Hk]; simpl.
    + destruct (decide (name = n)); reflexivity.
    + destruct (decide (k = n)) as [->|Hn].
      * destruct (decide (name = n)); [congruence|reflexivity].
      * exact IH.
Qed.

Lemma keys_set (name : string) (tool_ : ToolDefinition W) (reg : @ToolRegistry.t W) :
  List.map fst (set name tool_ reg)
  = List.map fst reg ++ match get reg name with None => [name] | Some _ => [] end.
Proof.
  induction reg as [|[k v] reg IH]; simpl; [reflexivity|].
  destruct (decide (k = name)) as [->|Hk]; simpl.
  - rewrite app_nil_r. reflexivity.
  - rewrite IH. reflexivity.
Qed.

(** X14. A tool registered and then looked up by its schema name is the tool
    registered, and other names are looked up as before. A new name is added
    after the registered ones; an existing name keeps its place and gets the
    new definition. *)
Theorem registry_register_get (tool_ : ToolDefinition W) (reg : @ToolRegistry.t W) (n : string) :
  let name := schema_name (schema tool_) in
  get (register tool_ reg) name = Some tool_ /\
  get (register tool_ reg) n = (if decide (name = n) then Some tool_ else get reg n) /\
  List.map fst (register tool_ reg)
  = List.map fst reg ++ match get reg name with None => [name] | Some _ => [] end.
Proof.
  intros name. unfold register. fold name. split; [|split].
  - rewrite get_set. destruct (decide (name = name)); [reflexivity|congruence].
  - apply get_set.
  - apply keys_set.
Qed.

End RegistryFacts.

(* ===================================================================== *)
(** * What a computation adds to the trace *)
(* ===================================================================== *)

Section TraceFacts.
Context {W : Type}.

Lemma model_requests_app (t1 t2 : list (Obs W)) :
  model_requests (t1 ++ t2) = (model_requests t1 + model_requests t2)%nat.
Proof. unfold model_requests. rewrite List.filter_app, length_app. reflexivity. Qed.

Lemma adds_bind {A B} (R1 R2 R3 : list (Obs W) -> Prop) (m : M W A) (k : A -> M W B) :
  adds R1 m -> (forall a, adds R2 (k a)) ->
  (forall x y, R1 x -> R2 y -> R3 (x ++ y)) ->
  (forall x, R1 x -> R3 x) ->
  adds R3 (bind m k).
Proof.
  intros Hm Hk Happ Hstop s. unfold bind. destruct (Hm s) as (a1 & H1 & HR1).
  destruct (m s) as [[a|e] s1]; simpl in *.
  - destruct (Hk a s1) as (a2 & H2 & HR2). exists (a1 ++ a2).
    rewrite H2, H1, app_assoc. auto.
  - exists a1. auto.
Qed.

Lemma adds_weaken {A} (R1 R2 : list (Obs W) -> Prop) (m : M W A) :
  (forall x, R1 x -> R2 x) -> adds R1 m -> adds R2 m.
Proof. intros H Hm s. destruct (Hm s) as (a & Ha & HR). exists a. auto. Qed.

Lemma sends_bind {A B} (a b : nat) (m : M W A) (k : A -> M W B) :
  sends_at_most a m -> (forall x, sends_at_most b (k x)) -> sends_at_most (a + b) (bind m k).
Proof.
  intros Hm Hk. eapply adds_bind; [exact Hm|exact Hk| |].
  - intros x y Hx Hy. cbv beta in *. rewrite model_requests_app. lia.
  - intros x Hx. cbv beta in *. lia.
Qed.

Lemma sends_weaken {A} (a b : nat) (m : M W A) :
  (a <= b)%nat -> sends_at_most a m -> sends_at_most b m.
Proof. intros Hab. apply adds_weaken. intros x Hx. cbv beta in *. lia. Qed.

Lemma sends_nothing_keeps_trace {A} (m : M W A) :
  (forall s, trace (snd (m s)) = trace s) -> sends_at_most 0 m.
Proof. intros H s. exists []. rewrite H, app_nil_r. split; [reflexivity|]. reflexivity. Qed.

Lemma sends_ret {A} (a : A) : sends_at_most 0 (@ret W A a).
Proof. apply sends_nothing_keeps_trace. reflexivity. Qed.

Lemma sends_throw {A} (e : Err) : sends_at_most 0 (@throw W A e).
Proof. apply sends_nothing_keeps_trace. reflexivity. Qed.

Lemma sends_get_state : sends_at_most 0 (@get_state W).
Proof. apply sends_nothing_keeps_trace. reflexivity. Qed.

Lemma sends_get_ctx : sends_at_most 0 (@get_ctx W).
Proof. apply sends_nothing_keeps_trace. reflexivity. Qed.

Lemma sends_of_result {A} (r : Result A) : sends_at_most 0 (@of_result W A r).
Proof. apply sends_nothing_keeps_trace. reflexivity. Qed.

Lemma sends_modify_state (f : ExecutionState -> ExecutionState) :
  sends_at_most 0 (@modify_state W f).
Proof. apply sends_nothing_keeps_trace. reflexivity. Qed.

Lemma sends_on_world {A} (f : W -> Result A * W) : sends_at_most 0 (on_world f).
Proof.
  apply sends_nothing_keeps_trace. intros s. unfold on_world.
  destruct (f (world s)). reflexivity.
Qed.

Lemma sends_observe (o : Obs W) : is_model_obs o = false -> sends_at_most 0 (observe o).
Proof.
  intros Ho s. exists [o]. split; [reflexivity|].
  unfold model_requests. simpl. rewrite Ho. reflexivity.
Qed.

Lemma sends_observe_model (request : ModelRequest) :
  sends_at_most 1 (@observe W (ObsModel request)).
Proof. intros s. exists [ObsModel request]. split; reflexivity. Qed.

Lemma sends_try {A} (n : nat) (m : M W A) : sends_at_most n m -> sends_at_most n (try_ m).
Proof.
  intros Hm s. unfold try_. destruct (Hm s) as (a & Ha & Hn).
  destruct (m s) as [r s1]. exists a. auto.
Qed.

Lemma sends_bind0 {A B} (b : nat) (m : M W A) (k : A -> M W B) :
  sends_at_most 0 m -> (forall x, sends_at_most b (k x)) -> sends_at_most b (bind m k).
Proof. intros Hm Hk. change b with (0 + b)%nat. apply sends_bind; assumption. Qed.

Lemma sends_pushStep (st : ReasoningStep) : sends_at_most 0 (@pushStep W st).
Proof.
  unfold pushStep, push_step. apply sends_bind0; [apply sends_modify_state|].
  intros _. apply sends_observe. reflexivity.
Qed.

Lemma sends_exec (next : M W unit) (code : MwCode W) :
  sends_at_most 0 next -> sends_at_most 0 (Pipeline.exec next code).
Proof.
  intros Hnext.
  induction code as [|e|k IH|f k IH|c kt IHt kf IHf|body IHb handler IHh rest IHr]; simpl.
  - apply sends_ret.
  - apply sends_throw.
  - apply sends_bind0; [exact Hnext|intros _; exact IH].
  - apply sends_bind0; [apply sends_on_world|intros _; exact IH].
  - intros s. destruct (c (world s)); [apply IHt|apply IHf].
  - apply sends_bind0; [apply sends_try, IHb|intros outcome].
    apply sends_bind0; [|intros _; exact IHr].
    destruct outcome as [u|e]; [apply sends_ret|apply IHh].
Qed.

Lemma sends_dispatch (mCtx : MiddlewareContext) (l : list (Middleware W)) :
  sends_at_most 0 (Pipeline.dispatch mCtx l).
Proof.
  induction l as [|m l IH]; simpl; [apply sends_ret|].
  apply sends_bind0; [apply sends_observe; reflexivity|intros _].
  apply sends_exec, IH.
Qed.

End TraceFacts.

(** One rule of the request count, chosen by the shape of the computation. *)
Ltac sends_step :=
  first
    [ assumption
    | solve [auto with sends]
    | apply sends_ret | apply sends_throw | apply sends_get_state | apply sends_get_ctx
    | apply sends_of_result
    | apply sends_modify_state | apply sends_on_world | apply sends_pushStep
    | (apply sends_observe; reflexivity)
    | apply sends_try
    | (apply sends_bind0; [|intros ?])
    | match goal with |- sends_at_most _ (if ?b then _ else _) => destruct b end
    | match goal with |- sends_at_most _ (match ?x with _ => _ end) => destruct x end ].

Ltac sends_tac := repeat sends_step.

Create HintDb sends discriminated.

Section TraceUtilFacts.
Context {W : Type} (rCtx : ReasoningContext W).

Lemma sends_run_middleware (scope : MiddlewareScope) (info : ToolInfo) :
  sends_at_most 0 (run_middleware rCtx scope info).
Proof.
  unfold run_middleware. apply sends_bind0; [apply sends_get_ctx|intros c].
  unfold Pipeline.run. apply sends_dispatch.
Qed.

(** A tool invocation sends nothing to the model. *)
Lemma sends_callTool (name : string) (args : Args) (callId : string) :
  sends_at_most 0 (callTool rCtx name args callId).
Proof.
  unfold callTool, emit, push_step, push_toolCall, push_message.
  pose proof sends_run_middleware.
  destruct (ToolRegistry.get (rc_tools rCtx) name) as [tool_|]; [|apply sends_throw].
  destruct (negb (ToolRegistry.isAllowed name (allowedTools (rc_policy rCtx))));
    [apply sends_throw|].
  sends_tac.
Qed.

Lemma sends_callEach (calls : list ToolCall) : sends_at_most 0 (callEach rCtx calls).
Proof.
  induction calls as [|tc rest IH]; simpl; [apply sends_ret|].
  apply sends_bind0; [apply sends_callTool|intros _; exact IH].
Qed.

Lemma sends_executeToolCalls (resp : ModelResponse) :
  sends_at_most 0 (executeToolCalls rCtx resp).
Proof.
  unfold executeToolCalls.
  destruct (negb (has_items (r_toolCalls resp))); [apply sends_ret|apply sends_callEach].
Qed.

Lemma sends_accumulate (e : Err) (resp : ModelResponse) :
  sends_at_most 0 (accumulate rCtx e resp).
Proof. unfold accumulate, add_usage. sends_tac. Qed.

Lemma sends_model_complete (request : ModelRequest) :
  sends_at_most 1 (model_complete rCtx request).
Proof.
  unfold model_complete. change 1%nat with (1 + 0)%nat.
  apply sends_bind; [apply sends_observe_model|intros _; apply sends_on_world].
Qed.

(** A model call sends one request. *)
Lemma sends_callModel (msgs : list ModelMessage) (options : ModelCallOptions) :
  sends_at_most 1 (callModel rCtx msgs options).
Proof.
  unfold callModel. change 1%nat with (1 + 0)%nat.
  apply sends_bind; [apply sends_model_complete|intros resp].
  apply sends_bind0; [apply sends_accumulate|intros _; apply sends_ret].
Qed.

End TraceUtilFacts.

#[export] Hint Resolve sends_callTool sends_callEach sends_executeToolCalls
  sends_accumulate sends_run_middleware : sends.

(* ===================================================================== *)
(** * Further properties of the middleware pipeline *)
(* ===================================================================== *)

Section MorePipelineFacts.
Context {W : Type}.
Import Pipeline.

Lemma exec_throws (e : Err) (code : MwCode W) :
  throws_without_next e code = true ->
  forall next s, exists w', exec next code s = (Throw e, mkMachine (ctx s) w' (trace s)).
Proof.
  induction code as [|e'|k IH|f k IH|c kt IHt kf IHf|body IHb handler IHh rest IHr]; simpl;
    intros H next s; try discriminate.
  - apply bool_decide_eq_true in H. subst e'. exists (world s).
    unfold throw. rewrite machine_eta. reflexivity.
  - destruct (IH H next (mkMachine (ctx s) (f (world s)) (trace s))) as [w' Hw].
    exists w'. unfold bind, on_world. simpl. exact Hw.
  - apply andb_prop in H as [Ht Hf].
    destruct (c (world s)); [apply IHt|apply IHf]; assumption.
Qed.

Lemma dispatch_until_throw (mCtx : MiddlewareContext) (e : Err)
    (pre post : list (Middleware W)) (m : Middleware W) :
  Forall (fun p => passes (mw_run p mCtx) = true) pre ->
  throws_without_next e (mw_run m mCtx) = true ->
  forall s, exists w',
    dispatch mCtx (pre ++ m :: post) s
    = (Throw e,
       mkMachine (ctx s) w'
         (trace s ++ List.map (ObsMiddleware (mc_scope mCtx)) (pre ++ [m]))).
Proof.
  intros Hpre Hm. induction Hpre as [|p pre Hp _ IH]; intros s; simpl.
  - unfold bind at 1, observe. simpl.
    destruct (exec_throws e _ Hm (dispatch mCtx post)
                (mkMachine (ctx s) (world s) (trace s ++ [ObsMiddleware (mc_scope mCtx) m])))
      as [w' Hw].
    exists w'. rewrite Hw. reflexivity.
  - unfold bind at 1, observe. simpl.
    destruct (exec_passes _ Hp (dispatch mCtx (pre ++ m :: post))
                (mkMachine (ctx s) (world s) (trace s ++ [ObsMiddleware (mc_scope mCtx) p])))
      as [w1 Hw].
    simpl in Hw.
    destruct (IH (mkMachine (ctx s) w1 (trace s ++ [ObsMiddleware (mc_scope mCtx) p])))
      as [w2 Hnext].
    rewrite Hnext in Hw. exists w2. rewrite Hw. simpl. rewrite <- app_assoc. reflexivity.
Qed.

(** X15. A middleware that throws aborts the chain, unless a middleware
    before it catches. When the matching middleware before it each call
    their continuation once and contain no [try] statement, and it throws
    [e] before calling its own, the scope invocation fails with [e], the
    middleware after it are not entered, and the execution context is left
    as it was. When a matching middleware registered in front of them calls
    its continuation inside a [try] statement whose handler returns, the
    invocation returns normally instead, the same middleware having been
    entered after the catching one. *)
Theorem pipeline_throw_aborts
    (middlewares : list (Middleware W)) (mCtx : MiddlewareContext) (e : Err)
    (pre post : list (Middleware W)) (m : Middleware W) (s : Machine W) :
  scoped middlewares (mc_scope mCtx) = pre ++ m :: post ->
  Forall (fun p => passes (mw_run p mCtx) = true) pre ->
  throws_without_next e (mw_run m mCtx) = true ->
  (fst (run middlewares mCtx s) = Throw e /\
   entered (trace (snd (run middlewares mCtx s))) = entered (trace s) ++ pre ++ [m] /\
   ctx (snd (run middlewares mCtx s)) = ctx s) /\
  (forall (catcher : Middleware W) (handler : Err -> MwCode W),
     matches (mc_scope mCtx) catcher = true ->
     mw_run catcher mCtx = MwTry (MwNext MwReturn) handler MwReturn ->
     returns_without_next (handler e) = true ->
     fst (run (catcher :: middlewares) mCtx s) = Ok () /\
     entered (trace (snd (run (catcher :: middlewares) mCtx s)))
     = entered (trace s) ++ catcher :: pre ++ [m]).
Proof.
  intros Hscoped Hpre Hm. split.
  - destruct (dispatch_until_throw mCtx e pre post m Hpre Hm s) as [w' Hrun].
    unfold run. rewrite drop_0, Hscoped, Hrun. simpl.
    rewrite entered_app, entered_middleware. auto.
  - intros catcher handler Hmatch Hbody Hhandler.
    assert (exists w2,
              run (catcher :: middlewares) mCtx s
              = (Ok (),
                 mkMachine (ctx s) w2
                   ((trace s ++ [ObsMiddleware (mc_scope mCtx) catcher])
                      ++ List.map (ObsMiddleware (mc_scope mCtx)) (pre ++ [m]))))
      as [w2 Heq].
    { unfold run, scoped. rewrite drop_0. cbn [List.filter]. rewrite Hmatch.
      fold (scoped middlewares (mc_scope mCtx)). rewrite Hscoped.
      cbn [dispatch]. erewrite bind_ok by reflexivity.
      rewrite Hbody, exec_try. cbn [exec].
      destruct (dispatch_until_throw mCtx e pre post m Hpre Hm
                  (mkMachine (ctx s) (world s)
                     (trace s ++ [ObsMiddleware (mc_scope mCtx) catcher])))
        as [w' Hrun].
      erewrite bind_throw by exact Hrun.
      match goal with |- context [exec ?next (handler e) ?s1] =>
        destruct (exec_returns _ Hhandler next s1) as [w2 Hret]; rewrite Hret
      end.
      exists w2. reflexivity. }
    rewrite Heq. cbn [fst snd trace]. split; [reflexivity|].
    rewrite !entered_app, entered_middleware. simpl. rewrite <- app_assoc. reflexivity.
Qed.

(** X16. The pipeline does not guard against a continuation called twice: when
    the first matching middleware calls [next] two times and the others each
    call it once, the others run two times, in order. *)
Theorem pipeline_next_twice_runs_rest_twice
    (middlewares : list (Middleware W)) (mCtx : MiddlewareContext)
    (m : Middleware W) (rest : list (Middleware W)) (s : Machine W) :
  scoped middlewares (mc_scope mCtx) = m :: rest ->
  mw_run m mCtx = MwNext (MwNext MwReturn) ->
  Forall (fun p => passes (mw_run p mCtx) = true) rest ->
  fst (run middlewares mCtx s) = Ok () /\
  entered (trace (snd (run middlewares mCtx s))) = entered (trace s) ++ m :: rest ++ rest.
Proof.
  intros Hscoped Hm Hrest.
  assert (exists w',
            run middlewares mCtx s
            = (Ok (),
               mkMachine (ctx s) w'
                 ((trace s ++ [ObsMiddleware (mc_scope mCtx) m])
                    ++ List.map (ObsMiddleware (mc_scope mCtx)) rest
                    ++ List.map (ObsMiddleware (mc_scope mCtx)) rest))) as [w' Heq].
  { unfold run. rewrite drop_0, Hscoped. cbn [dispatch]. rewrite Hm. cbn [exec].
    erewrite bind_ok by reflexivity.
    assert (forall s0, exists w0,
              dispatch mCtx rest s0
              = (Ok (),
                 mkMachine (ctx s0) w0
                   (trace s0 ++ List.map (ObsMiddleware (mc_scope mCtx)) rest))) as Hd.
    { intros s0. destruct (dispatch_until_stop mCtx rest [] Hrest I s0) as [w0 H0].
      exists w0. change (take 1 (@nil (Middleware W))) with (@nil (Middleware W)) in H0.
      rewrite !app_nil_r in H0. exact H0. }
    destruct (Hd (mkMachine (ctx s) (world s) (trace s ++ [ObsMiddleware (mc_scope mCtx) m])))
      as [w1 H1].
    erewrite bind_ok by exact H1.
    match type of H1 with _ = (_, ?s1) => destruct (Hd s1) as [w2 H2] end.
    erewrite bind_ok by exact H2.
    exists w2. cbn [ret ctx trace]. rewrite <- !app_assoc. reflexivity. }
  rewrite Heq. cbn [fst snd trace]. split; [reflexivity|].
  rewrite !entered_app, !entered_middleware. cbn [entered].
  rewrite <- !app_assoc. reflexivity.
Qed.

End MorePipelineFacts.

(* ===================================================================== *)
(** * Further properties of the tool protocol *)
(* ===================================================================== *)

Section MoreCallToolFacts.
Context {W : Type} (rCtx : ReasoningContext W).

Lemma only_middleware_exec (next : M W unit) (code : MwCode W) :
  adds only_middleware next -> adds only_middleware (Pipeline.exec next code).
Proof.
  intros Hnext.
  assert (forall x y : list (Obs W),
            only_middleware x -> only_middleware y -> only_middleware (x ++ y)) as Happ.
  { intros x y Hx Hy. apply Forall_app. auto. }
  induction code as [|e|k IH|f k IH|c kt IHt kf IHf|body IHb handler IHh rest IHr]; simpl.
  - intros s. exists []. rewrite app_nil_r. split; [reflexivity|constructor].
  - intros s. exists []. rewrite app_nil_r. split; [reflexivity|constructor].
  - eapply adds_bind; [exact Hnext|intros _; exact IH|exact Happ|auto].
  - intros s. unfold bind, on_world. simpl.
    apply (IH (mkMachine (ctx s) (f (world s)) (trace s))).
  - intros s. destruct (c (world s)); [apply IHt|apply IHf].
  - eapply adds_bind with (R1 := only_middleware) (R2 := only_middleware);
      [|intros outcome|exact Happ|auto].
    + intros s. unfold try_. destruct (IHb s) as (a & Ha & Hm).
      destruct (Pipeline.exec next body s) as [r s1]. exists a. auto.
    + eapply adds_bind with (R1 := only_middleware) (R2 := only_middleware);
        [|intros _; exact IHr|exact Happ|auto].
      destruct outcome as [u|e]; [|apply IHh].
      intros s. exists []. rewrite app_nil_r. split; [reflexivity|constructor].
Qed.

Lemma only_middleware_dispatch (mCtx : MiddlewareContext) (l : list (Middleware W)) :
  adds only_middleware (Pipeline.dispatch mCtx l).
Proof.
  induction l as [|m l IH]; simpl.
  - intros s. exists []. rewrite app_nil_r. split; [reflexivity|constructor].
  - eapply adds_bind with (R1 := only_middleware) (R2 := only_middleware).
    + intros s. exists [ObsMiddleware (mc_scope mCtx) m]. split; [reflexivity|].
      repeat constructor.
    + intros _. apply only_middleware_exec, IH.
    + intros x y Hx Hy. apply Forall_app. auto.
    + auto.
Qed.

Lemma only_middleware_run (scope : MiddlewareScope) (info : ToolInfo) :
  adds only_middleware (run_middleware rCtx scope info).
Proof.
  intros s. unfold run_middleware, bind, get_ctx. simpl.
  apply only_middleware_dispatch.
Qed.

Lemma only_middleware_no_tool (added : list (Obs W)) :
  only_middleware added -> List.filter is_tool_obs added = [].
Proof.
  intros H. apply filter_all_false. eapply Forall_impl; [exact H|].
  intros o Ho. destruct o; simpl in *; congruence.
Qed.

(** X17. When a [tool:before] middleware throws, [callTool] ends with its error
    before the tool body: the body is not invoked and the execution context
    keeps its steps, messages and pairs as they were. *)
Theorem callTool_before_middleware_throws
    (name : string) (args : Args) (callId : string) (tool_ : ToolDefinition W)
    (s s1 : Machine W) (e : Err) :
  ToolRegistry.get (rc_tools rCtx) name = Some tool_ ->
  ToolRegistry.isAllowed name (allowedTools (rc_policy rCtx)) = true ->
  run_middleware rCtx tool_before (mkToolInfo name args None)
    (mkMachine (ctx s) (world s) (trace s ++ [ObsEmit "tool:before" (PayloadToolBefore name args)]))
  = (Throw e, s1) ->
  callTool rCtx name args callId s = (Throw e, s1) /\
  ctx s1 = ctx s /\
  List.filter is_tool_obs (trace s1) = List.filter is_tool_obs (trace s).
Proof.
  intros Hget Hallowed Hbefore.
  pose proof (run_middleware_keeps_ctx rCtx tool_before (mkToolInfo name args None)
                (mkMachine (ctx s) (world s)
                   (trace s ++ [ObsEmit "tool:before" (PayloadToolBefore name args)]))) as Hctx.
  destruct (only_middleware_run tool_before (mkToolInfo name args None)
              (mkMachine (ctx s) (world s)
                 (trace s ++ [ObsEmit "tool:before" (PayloadToolBefore name args)])))
    as (added & Htrace & Honly).
  rewrite Hbefore in Hctx, Htrace. simpl in Hctx, Htrace.
  split; [|split; [exact Hctx|]].
  - unfold callTool. rewrite Hget, Hallowed. change (negb true) with false. cbv iota.
    erewrite bind_ok by reflexivity.
    erewrite bind_throw by exact Hbefore. reflexivity.
  - rewrite Htrace, !List.filter_app, (only_middleware_no_tool added Honly).
    simpl. rewrite !app_nil_r. reflexivity.
Qed.






(** X19. [callModel] adds the usage of the response to the counters of the run
    before it checks the budget, so the counters are updated also when it
    throws; it throws exactly when [tokenBudget] is set and not zero and the
    new total has reached it; a response without usage is never refused. *)
Theorem callModel_usage_and_budget
    (msgs : list ModelMessage) (options : ModelCallOptions) (s : Machine W)
    (resp : ModelResponse) (w' : W) :
  complete (rc_model rCtx) (request_of rCtx msgs options) (world s) = (Ok resp, w') ->
  let old := state_usage (state (ctx s)) in
  let after := callModel rCtx msgs options s in
  match usage resp with
  | None =>
      fst after = Ok resp /\ state_usage (state (ctx (snd after))) = old
  | Some u =>
      state_usage (state (ctx (snd after)))
      = mkUsage (promptTokens old + promptTokens u)
                (completionTokens old + completionTokens u)
                (totalTokens old + totalTokens u) /\
      fst after
      = match tokenBudget (rc_policy rCtx) with
        | Some b =>
            if negb (b =? 0) && (totalTokens old + totalTokens u >=? b)
            then Throw "[Reasoning] Token budget exceeded."
            else Ok resp
        | None => Ok resp
        end
  end.
Proof.
  intros Hcall old after. subst after.
  unfold callModel, model_complete, accumulate, bind, observe, on_world. simpl.
  fold (request_of rCtx msgs options). rewrite Hcall. simpl.
  destruct (usage resp) as [u|]; simpl; [|split; reflexivity].
  unfold budget_exceeded. fold old.
  destruct (tokenBudget (rc_policy rCtx)) as [b|]; simpl; [|split; reflexivity].
  destruct (negb (b =? 0) && (totalTokens old + totalTokens u >=? b)); split; reflexivity.
Qed.

End MoreCallToolFacts.

(* ===================================================================== *)
(** * Requests sent by the engines *)
(* ===================================================================== *)

Section EngineRequestFacts.
Context {W : Type} (rCtx : ReasoningContext W) (js : Platform W).

Lemma sends_zero_any {A} (n : nat) (m : M W A) : sends_at_most 0 m -> sends_at_most n m.
Proof. apply sends_weaken. lia. Qed.

Lemma sends_push_message (msg : ModelMessage) : sends_at_most 0 (@push_message W msg).
Proof. apply sends_nothing_keeps_trace. reflexivity. Qed.

Lemma sends_final (text eng : string) :
  sends_at_most 0 (pushStep (response text eng) ;; @ret W string text).
Proof. apply sends_bind0; [apply sends_pushStep|intros _; apply sends_ret]. Qed.

Lemma react_loop_sends (cfg : ReactEngine.Config) (n : nat) :
  sends_at_most n (ReactEngine.loop rCtx cfg n).
Proof.
  induction n as [|n IH]; cbn [ReactEngine.loop]; [apply sends_throw|].
  apply sends_bind0; [apply sends_get_state|intros st].
  change (S n) with (1 + n)%nat. apply sends_bind; [apply sends_callModel|intros resp].
  apply sends_bind0; [apply sends_push_message|intros _].
  apply sends_bind0.
  { destruct (_ && _); [apply sends_pushStep|apply sends_ret]. }
  intros _. destruct (negb _).
  - apply sends_zero_any, sends_final.
  - apply sends_bind0; [apply sends_executeToolCalls|intros _; exact IH].
Qed.

Lemma cot_toolLoop_sends (cfg : ChainOfThoughtEngine.Config) (n : nat) :
  sends_at_most n (ChainOfThoughtEngine.toolLoop rCtx js cfg n).
Proof.
  induction n as [|n IH]; cbn [ChainOfThoughtEngine.toolLoop]; [apply sends_throw|].
  apply sends_bind0; [apply sends_get_state|intros st].
  change (S n) with (1 + n)%nat. apply sends_bind; [apply sends_callModel|intros resp].
  apply sends_bind0; [apply sends_push_message|intros _].
  destruct (negb _).
  - apply sends_zero_any, sends_final.
  - apply sends_bind0; [apply sends_executeToolCalls|intros _; exact IH].
Qed.

Lemma cot_execute_sends (cfg : ChainOfThoughtEngine.Config) :
  sends_at_most (1 + Z.to_nat (ChainOfThoughtEngine.maxToolSteps cfg - 1))
    (ChainOfThoughtEngine.execute rCtx js cfg).
Proof.
  unfold ChainOfThoughtEngine.execute.
  apply sends_bind0; [apply sends_get_state|intros st].
  apply sends_bind; [apply sends_callModel|intros resp].
  apply sends_bind0; [apply sends_push_message|intros _].
  apply sends_bind0.
  { destruct (ChainOfThoughtEngine.useThinkingTags cfg); [|apply sends_ret].
    destruct (extractThinking js _) as [thinking|]; [|apply sends_ret].
    destruct (truthy thinking); [apply sends_pushStep|apply sends_ret]. }
  intros _. destruct (negb _).
  - apply sends_zero_any, sends_final.
  - apply sends_bind0; [apply sends_executeToolCalls|intros _; apply cot_toolLoop_sends].
Qed.

Lemma autonomous_loop_sends (cfg : AutonomousEngine.Config) (n : nat) :
  sends_at_most n (AutonomousEngine.loop rCtx js cfg n).
Proof.
  induction n as [|n IH]; cbn [AutonomousEngine.loop]; [apply sends_throw|].
  apply sends_bind0; [apply sends_get_state|intros st].
  change (S n) with (1 + n)%nat. apply sends_bind; [apply sends_model_complete|intros resp].
  apply sends_bind0; [apply sends_accumulate|intros _].
  apply sends_bind0; [apply sends_push_message|intros _].
  apply sends_bind0.
  { destruct (truthy _); [apply sends_pushStep|apply sends_ret]. }
  intros _. destruct (has_items _).
  - destruct (List.find _ _) as [finishCall|].
    + apply sends_zero_any.
      apply sends_bind0; [apply sends_push_message|intros _; apply sends_final].
    + apply sends_bind0; [apply sends_callEach|intros _; exact IH].
  - apply sends_zero_any, sends_final.
Qed.

Lemma reflect_generateAnswer_sends (cfg : ReflectEngine.Config) (n : nat) :
  sends_at_most n (ReflectEngine.generateAnswer rCtx js cfg n).
Proof.
  induction n as [|n IH]; cbn [ReflectEngine.generateAnswer]; [apply sends_throw|].
  apply sends_bind0; [apply sends_get_state|intros st].
  change (S n) with (1 + n)%nat. apply sends_bind; [apply sends_callModel|intros resp].
  apply sends_bind0; [apply sends_push_message|intros _].
  destruct (negb _).
  - apply sends_zero_any, sends_ret.
  - apply sends_bind0; [apply sends_executeToolCalls|intros _; exact IH].
Qed.

Lemma reflect_critique_sends (cfg : ReflectEngine.Config) (question answer : string) :
  sends_at_most 1 (ReflectEngine.critique rCtx js cfg question answer).
Proof.
  unfold ReflectEngine.critique. change 1%nat with (1 + 0)%nat.
  apply sends_bind; [apply sends_callModel|intros resp; apply sends_ret].
Qed.

Lemma reflect_revise_sends (question answer : string) (c : Json) :
  sends_at_most 2 (ReflectEngine.revise rCtx js question answer c).
Proof.
  unfold ReflectEngine.revise.
  apply sends_bind0; [apply sends_of_result|intros revisionMessages_].
  change 2%nat with (1 + 1)%nat.
  apply sends_bind; [apply sends_callModel|intros resp].
  destruct (has_items _); [|apply sends_zero_any, sends_ret].
  apply sends_bind0; [apply sends_push_message|intros _].
  apply sends_bind0; [apply sends_executeToolCalls|intros _].
  apply sends_bind0; [apply sends_get_state|intros st].
  change 1%nat with (1 + 0)%nat.
  apply sends_bind; [apply sends_callModel|intros final; apply sends_ret].
Qed.

Lemma reflect_loop_sends (cfg : ReflectEngine.Config) (n : nat) :
  forall i answer, sends_at_most (3 * n) (ReflectEngine.reflectLoop rCtx js cfg n i answer).
Proof.
  induction n as [|n IH]; intros i answer; cbn [ReflectEngine.reflectLoop];
    [apply sends_ret|].
  apply sends_bind0; [apply sends_get_ctx|intros c].
  replace (3 * S n)%nat with (1 + (2 + 3 * n))%nat by lia.
  apply sends_bind; [apply reflect_critique_sends|intros crit].
  apply sends_bind0; [apply sends_of_result|intros step].
  apply sends_bind0; [apply sends_pushStep|intros _].
  apply sends_bind0; [apply sends_of_result|intros needs_revision].
  apply sends_bind0; [apply sends_of_result|intros score].
  destruct (_ || _); [apply sends_zero_any, sends_ret|].
  apply sends_bind0; [apply sends_pushStep|intros _].
  apply sends_bind; [apply reflect_revise_sends|intros answer'; apply IH].
Qed.

Lemma reflect_execute_sends (cfg : ReflectEngine.Config) :
  sends_at_most
    (Z.to_nat (ReflectEngine.maxAnswerSteps cfg) + 3 * Z.to_nat (ReflectEngine.maxReflections cfg))
    (ReflectEngine.execute rCtx js cfg).
Proof.
  unfold ReflectEngine.execute.
  apply sends_bind; [apply reflect_generateAnswer_sends|intros answer].
  apply sends_bind0; [apply sends_pushStep|intros _].
  replace (3 * Z.to_nat (ReflectEngine.maxReflections cfg))%nat
    with (3 * Z.to_nat (ReflectEngine.maxReflections cfg) + 0)%nat by lia.
  apply sends_bind; [apply reflect_loop_sends|intros answer'].
  apply sends_final.
Qed.

(** X20. Every loop engine bounds the requests it sends to the model by its
    configuration, whatever the model and the tools do: ReAct and the
    autonomous engine by [maxSteps], chain of thought by one request plus
    [maxToolSteps - 1], reflection by [maxAnswerSteps] plus three requests
    per reflection round. A limit of zero or less sends no request in the
    loop it governs. *)
Theorem engine_request_bounds :
  (forall cfg, sends_at_most (Z.to_nat (ReactEngine.maxSteps cfg))
                 (engine_execute rCtx js (React cfg))) /\
  (forall cfg, sends_at_most (1 + Z.to_nat (ChainOfThoughtEngine.maxToolSteps cfg - 1))
                 (engine_execute rCtx js (ChainOfThought cfg))) /\
  (forall cfg, sends_at_most
                 (Z.to_nat (ReflectEngine.maxAnswerSteps cfg)
                  + 3 * Z.to_nat (ReflectEngine.maxReflections cfg))
                 (engine_execute rCtx js (Reflect cfg))) /\
  (forall cfg, sends_at_most (Z.to_nat (AutonomousEngine.maxSteps cfg))
                 (engine_execute rCtx js (Autonomous cfg))).
Proof.
  repeat split; intros cfg; simpl.
  - apply react_loop_sends.
  - apply cot_execute_sends.
  - apply reflect_execute_sends.
  - apply autonomous_loop_sends.
Qed.

Lemma planner_taskTools_sends (calls : list ToolCall) :
  forall taskMessages, sends_at_most 0 (PlannerEngine.taskTools rCtx calls taskMessages).
Proof.
  induction calls as [|tc rest IH]; intros taskMessages; cbn [PlannerEngine.taskTools];
    [apply sends_ret|].
  apply sends_bind0; [apply sends_callTool|intros result].
  apply sends_bind0; [apply sends_of_result|intros text; apply IH].
Qed.

Lemma planner_taskLoop_sends (task : PlanTask) (n : nat) :
  forall taskMessages, sends_at_most n (PlannerEngine.taskLoop rCtx js task n taskMessages).
Proof.
  induction n as [|n IH]; intros taskMessages; cbn [PlannerEngine.taskLoop];
    [apply sends_throw|].
  change (S n) with (1 + n)%nat. apply sends_bind; [apply sends_callModel|intros resp].
  cbv zeta. destruct (negb _); [apply sends_zero_any, sends_ret|].
  apply sends_bind0; [apply planner_taskTools_sends|intros taskMessages2; apply IH].
Qed.

Lemma planner_executeTask_sends (cfg : PlannerEngine.Config) (task : PlanTask)
    (previousResults : gmap string string) :
  sends_at_most 5 (PlannerEngine.executeTask rCtx js cfg task previousResults).
Proof.
  unfold PlannerEngine.executeTask.
  apply sends_bind0; [apply sends_get_ctx|intros c]. apply planner_taskLoop_sends.
Qed.

(** X21. The task loop of the planner sends at most five requests per task that
    is left to run, and none once [maxExecutionSteps] tasks have completed. *)
Theorem planner_runTasks_request_bound (cfg : PlannerEngine.Config) (todo : list PlanTask) :
  forall i plan_ taskResults executionSteps,
    sends_at_most
      (if executionSteps >=? PlannerEngine.maxExecutionSteps cfg then 0 else 5 * length todo)
      (PlannerEngine.runTasks rCtx js cfg todo i plan_ taskResults executionSteps).
Proof.
  assert (forall todo i plan_ taskResults executionSteps,
    sends_at_most (5 * length todo)
      (PlannerEngine.runTasks rCtx js cfg todo i plan_ taskResults executionSteps)) as Hall.
  { clear todo. induction todo as [|task later IH]; intros i plan_ taskResults executionSteps;
      cbn [PlannerEngine.runTasks]; [apply sends_ret|].
    destruct (executionSteps >=? _); [apply sends_zero_any, sends_throw|].
    cbv zeta.
    assert (forall p t e, sends_at_most (5 * length (task :: later))
              (PlannerEngine.runTasks rCtx js cfg later (S i) p t e)) as Hlater.
    { intros p t e. eapply sends_weaken; [|apply IH]. simpl. lia. }
    destruct (List.filter _ (dependsOn task)) as [|dep deps]; [|apply Hlater].
    apply sends_bind0; [apply sends_pushStep|intros _].
    replace (5 * length (task :: later))%nat with (5 + 5 * length later)%nat by (simpl; lia).
    apply sends_bind; [apply sends_try, planner_executeTask_sends|intros outcome].
    destruct outcome as [result|err]; [apply IH|].
    destruct (negb _); [apply sends_zero_any, sends_throw|apply IH]. }
  intros i plan_ taskResults executionSteps.
  destruct (executionSteps >=? PlannerEngine.maxExecutionSteps cfg) eqn:Hfull; [|apply Hall].
  destruct todo as [|task later]; cbn [PlannerEngine.runTasks]; [apply sends_ret|].
  rewrite Hfull. apply sends_throw.
Qed.

End EngineRequestFacts.

(* ===================================================================== *)
(** * Reflection rounds *)
(* ===================================================================== *)

Section ReflectionCountFacts.
Context {W : Type} (rCtx : ReasoningContext W) (js : Platform W).

Lemma count_steps_app (f : ReasoningStep -> bool) (l1 l2 : list ReasoningStep) :
  count_steps f (l1 ++ l2) = (count_steps f l1 + count_steps f l2)%nat.
Proof. unfold count_steps. rewrite List.filter_app, length_app. reflexivity. Qed.

Lemma count_steps_none (f : ReasoningStep -> bool) (l : list ReasoningStep) :
  Forall (fun st => f st = false) l -> count_steps f l = 0%nat.
Proof. intros H. unfold count_steps. rewrite (filter_all_false _ _ H). reflexivity. Qed.

Lemma pushes_quiet {A} (n : nat) (m : M W A) :
  appends quiet_step m -> pushes_at_most is_reflection n m.
Proof.
  intros Hm s. destruct (Hm s) as (pushed & Hsteps & Hall & _).
  exists pushed. split; [exact Hsteps|]. rewrite (count_steps_none _ _ Hall). lia.
Qed.

Lemma pushes_bind {A B} (a b : nat) (m : M W A) (k : A -> M W B) :
  pushes_at_most is_reflection a m -> (forall x, pushes_at_most is_reflection b (k x)) ->
  pushes_at_most is_reflection (a + b) (bind m k).
Proof.
  intros Hm Hk s. unfold bind. destruct (Hm s) as (p1 & H1 & Hn1).
  destruct (m s) as [[x|e] s1]; simpl in *.
  - destruct (Hk x s1) as (p2 & H2 & Hn2).
    exists (p1 ++ p2). rewrite H2, H1, app_assoc, count_steps_app. split; [reflexivity|lia].
  - exists p1. split; [exact H1|lia].
Qed.

Lemma pushes_bind0 {A B} (b : nat) (m : M W A) (k : A -> M W B) :
  appends quiet_step m -> (forall x, pushes_at_most is_reflection b (k x)) ->
  pushes_at_most is_reflection b (bind m k).
Proof.
  intros Hm Hk. change b with (0 + b)%nat. apply pushes_bind; [apply pushes_quiet, Hm|exact Hk].
Qed.

Lemma pushes_then_quiet {A B} (a : nat) (m : M W A) (k : A -> M W B) :
  pushes_at_most is_reflection a m -> (forall x, appends quiet_step (k x)) ->
  pushes_at_most is_reflection a (bind m k).
Proof.
  intros Hm Hk. replace a with (a + 0)%nat by lia.
  apply pushes_bind; [exact Hm|intros x; apply pushes_quiet, Hk].
Qed.

Lemma pushes_one (st : ReasoningStep) : pushes_at_most is_reflection 1 (@pushStep W st).
Proof.
  intros s. exists [st]. split; [reflexivity|].
  unfold count_steps. simpl. destruct (is_reflection st); simpl; lia.
Qed.

Lemma reflect_critique_quiet (cfg : ReflectEngine.Config) (question answer : string) :
  appends quiet_step (ReflectEngine.critique rCtx js cfg question answer).
Proof.
  unfold ReflectEngine.critique.
  apply appends_bind; [apply appends_callModel|intros resp; apply appends_ret].
Qed.

Lemma reflect_revise_quiet (question answer : string) (c : Json) :
  appends quiet_step (ReflectEngine.revise rCtx js question answer c).
Proof.
  unfold ReflectEngine.revise.
  apply appends_bind; [apply appends_of_result|intros revisionMessages_].
  apply appends_bind; [apply appends_callModel|intros resp].
  destruct (has_items _); [|apply appends_ret].
  apply appends_bind; [apply appends_push_message|intros _].
  apply appends_bind; [apply appends_executeToolCalls; reflexivity|intros _].
  apply appends_bind; [apply appends_get_state|intros st].
  apply appends_bind; [apply appends_callModel|intros final; apply appends_ret].
Qed.

Lemma reflect_loop_reflections (cfg : ReflectEngine.Config) (n : nat) :
  forall i answer,
    pushes_at_most is_reflection n (ReflectEngine.reflectLoop rCtx js cfg n i answer).
Proof.
  induction n as [|n IH]; intros i answer; cbn [ReflectEngine.reflectLoop].
  - apply pushes_quiet, appends_ret.
  - apply pushes_bind0; [apply appends_get_ctx|intros c].
    apply pushes_bind0; [apply reflect_critique_quiet|intros crit].
    apply pushes_bind0; [apply appends_of_result|intros step].
    change (S n) with (1 + n)%nat.
    apply pushes_bind; [apply pushes_one|intros _].
    apply pushes_bind0; [apply appends_of_result|intros needs_revision].
    apply pushes_bind0; [apply appends_of_result|intros score].
    destruct (_ || _); [apply pushes_quiet, appends_ret|].
    apply pushes_bind0; [apply appends_pushStep; reflexivity|intros _].
    apply pushes_bind0; [apply reflect_revise_quiet|intros answer'; apply IH].
Qed.

(** X22. A run of the reflect engine pushes at most [maxReflections] reflection
    steps, whatever the critiques say, and none when [maxReflections] is
    zero or negative. *)
Theorem reflect_reflection_steps_bounded (cfg : ReflectEngine.Config) (s : Machine W) :
  exists pushed,
    steps_of (snd (ReflectEngine.execute rCtx js cfg s)) = steps_of s ++ pushed /\
    (count_steps is_reflection pushed <= Z.to_nat (ReflectEngine.maxReflections cfg))%nat /\
    (ReflectEngine.maxReflections cfg <= 0 -> Forall (fun st => is_reflection st = false) pushed).
Proof.
  assert (pushes_at_most is_reflection (Z.to_nat (ReflectEngine.maxReflections cfg))
            (ReflectEngine.execute rCtx js cfg)) as H.
  { unfold ReflectEngine.execute.
    apply pushes_bind0; [apply reflect_generateAnswer_appends; reflexivity|intros answer].
    apply pushes_bind0; [apply appends_pushStep; reflexivity|intros _].
    apply pushes_then_quiet; [apply reflect_loop_reflections|intros answer'].
    apply appends_bind; [apply appends_pushStep; reflexivity|intros _; apply appends_ret]. }
  destruct (H s) as (pushed & Hsteps & Hcount). exists pushed.
  split; [exact Hsteps|]. split; [exact Hcount|].
  intros Hzero. replace (Z.to_nat (ReflectEngine.maxReflections cfg)) with 0%nat in Hcount by lia.
  unfold count_steps in Hcount.
  apply List.Forall_forall. intros st Hin.
  destruct (is_reflection st) eqn:Hst; [|reflexivity].
  assert (In st (List.filter is_reflection pushed)) as Hf
    by (apply List.filter_In; split; assumption).
  destruct (List.filter is_reflection pushed); [destruct Hf|simpl in Hcount; lia].
Qed.

End ReflectionCountFacts.

(* ===================================================================== *)
(** * The task loop of the planner *)
(* ===================================================================== *)

Section PlannerFacts.
Context {W : Type} (rCtx : ReasoningContext W) (js : Platform W).
Import PlannerEngine.

(** One iteration of the task loop on a task whose dependencies are met:
    what the loop goes on with. *)
Lemma runTasks_step (cfg : Config) (task : PlanTask) (later : list PlanTask) (i : nat)
    (plan0 : list PlanTask) (tr : gmap string string) (n : Z) (s : Machine W)
    (done : list PlanTask * gmap string string) (s' : Machine W) :
  runTasks rCtx js cfg (task :: later) i plan0 tr n s = (Ok done, s') ->
  exists plan1 tr1 n1 s1,
    runTasks rCtx js cfg later (S i) plan1 tr1 n1 s1 = (Ok done, s') /\
    (forall k, k <> i -> plan1 !! k = plan0 !! k) /\
    (plan1 = plan0 \/ List.filter (fun dep => bool_decide (tr !! dep = None)) (dependsOn task) = []) /\
    (forall d, d <> task_id task -> tr1 !! d = tr !! d).
Proof.
  cbn [runTasks]. destruct (n >=? maxExecutionSteps cfg); [discriminate|]. cbv zeta.
  destruct (List.filter _ (dependsOn task)) as [|dep deps] eqn:Hdeps.
  2:{ intros Hrun. exists plan0, tr, n, s. auto. }
  erewrite bind_ok by reflexivity.
  unfold bind at 1. unfold try_.
  destruct (executeTask rCtx js cfg task tr _) as [[result|err] s2].
  - intros Hrun. eexists _, _, _, _. split; [exact Hrun|].
    split; [|split; [right; reflexivity|]].
    + intros k Hk. rewrite !list_lookup_insert_ne by congruence. reflexivity.
    + intros d Hd. apply lookup_insert_ne. congruence.
  - destruct (negb (allowReplan cfg)); [discriminate|].
    intros Hrun. eexists _, _, _, _. split; [exact Hrun|].
    split; [|split; [right; reflexivity|reflexivity]].
    intros k Hk. rewrite !list_lookup_insert_ne by congruence. reflexivity.
Qed.

Lemma runTasks_keeps_before (cfg : Config) (todo : list PlanTask) :
  forall i plan0 tr n s done s',
    runTasks rCtx js cfg todo i plan0 tr n s = (Ok done, s') ->
    forall k, (k < i)%nat -> fst done !! k = plan0 !! k.
Proof.
  induction todo as [|task later IH]; intros i plan0 tr n s done s' Hrun k Hk.
  - cbn [runTasks] in Hrun. injection Hrun as <- _. reflexivity.
  - destruct (runTasks_step _ _ _ _ _ _ _ _ _ _ Hrun) as (plan1 & tr1 & n1 & s1 & Hrest & Hplan & _).
    rewrite (IH _ _ _ _ _ _ _ Hrest k) by lia. apply Hplan. lia.
Qed.

Lemma runTasks_skips (cfg : Config) (todo : list PlanTask) :
  forall i plan0 tr n s done s',
    runTasks rCtx js cfg todo i plan0 tr n s = (Ok done, s') ->
    forall j task d,
      todo !! j = Some task ->
      plan0 !! (i + j)%nat = Some task ->
      In d (dependsOn task) ->
      tr !! d = None ->
      Forall (fun t => task_id t <> d) (take j todo) ->
      fst done !! (i + j)%nat = Some task.
Proof.
  induction todo as [|head later IH]; intros i plan0 tr n s done s' Hrun j task d Hj Hplan Hd Htr Hids;
    [discriminate|].
  destruct (runTasks_step _ _ _ _ _ _ _ _ _ _ Hrun)
    as (plan1 & tr1 & n1 & s1 & Hrest & Hkeep & Hskip & Hres).
  destruct j as [|j].
  - injection Hj as ->. rewrite Nat.add_0_r in *.
    destruct Hskip as [->|Hmet].
    + rewrite (runTasks_keeps_before _ _ _ _ _ _ _ _ _ Hrest i) by lia. exact Hplan.
    + exfalso.
      assert (In d (List.filter (fun dep => bool_decide (tr !! dep = None)) (dependsOn task))) as Hin.
      { apply List.filter_In. split; [exact Hd|]. apply bool_decide_eq_true. exact Htr. }
      rewrite Hmet in Hin. destruct Hin.
  - simpl in Hj, Hids. apply Forall_cons in Hids as [Hhead Hids].
    replace (i + S j)%nat with (S i + j)%nat in * by lia.
    apply (IH _ _ _ _ _ _ _ Hrest j task d); try assumption.
    + rewrite Hkeep by lia. exact Hplan.
    + rewrite Hres by congruence. exact Htr.
Qed.

(** X23. The planner visits the tasks once, in plan order. A task that depends
    on an id no earlier task of the plan carries is skipped and never
    revisited: when the task loop ends normally the task is as the plan
    had it, even if a later task with that id has completed. *)
Theorem planner_forward_dependency_never_runs
    (cfg : Config) (plan_ : list PlanTask) (k : nat) (task : PlanTask) (d : string)
    (s s' : Machine W) (done : list PlanTask * gmap string string) :
  plan_ !! k = Some task ->
  In d (dependsOn task) ->
  Forall (fun t => task_id t <> d) (take k plan_) ->
  runTasks rCtx js cfg plan_ 0 plan_ ∅ 0 s = (Ok done, s') ->
  fst done !! k = Some task.
Proof.
  intros Hk Hd Hids Hrun.
  exact (runTasks_skips cfg plan_ 0 plan_ ∅ 0 s done s' Hrun k task d Hk Hk Hd
           (lookup_empty d) Hids).
Qed.

End PlannerFacts.

(* ===================================================================== *)
(** * The thinking instruction of the chain-of-thought engine *)
(* ===================================================================== *)

Section InjectFacts.
Import ChainOfThoughtEngine.

Lemma augmentFirstSystem_none (instruction : string) (msgs : list ModelMessage) :
  Forall (fun m => role m <> system) msgs -> augmentFirstSystem instruction msgs = None.
Proof.
  induction 1 as [|m rest Hm _ IH]; simpl; [reflexivity|].
  destruct (role m); try congruence; simpl; rewrite IH; reflexivity.
Qed.

Lemma augmentFirstSystem_some (instruction : string) (pre : list ModelMessage)
    (sys : ModelMessage) (post : list ModelMessage) :
  Forall (fun m => role m <> system) pre -> role sys = system ->
  augmentFirstSystem instruction (pre ++ sys :: post)
  = Some (pre ++ mkMessage system (content sys +:+ newline +:+ newline +:+ instruction)
                    (toolCallId sys) (m_toolCalls sys) :: post).
Proof.
  intros Hpre Hsys. induction Hpre as [|m rest Hm _ IH]; simpl.
  - rewrite Hsys. reflexivity.
  - destruct (role m); try congruence; simpl; rewrite IH; reflexivity.
Qed.

(** X24. With thinking tags on, [_injectInstruction] appends the instruction,
    after a blank line, to the first system message and to that one only;
    without a system message it puts a new system message in front. Every
    other message is kept, in order, and the list is returned as it is
    when thinking tags are off. *)
Theorem injectInstruction_first_system_only (cfg : Config) (msgs : list ModelMessage) :
  (useThinkingTags cfg = false -> injectInstruction cfg msgs = msgs) /\
  (useThinkingTags cfg = true ->
   (forall pre sys post,
      msgs = pre ++ sys :: post ->
      Forall (fun m => role m <> system) pre -> role sys = system ->
      injectInstruction cfg msgs
      = pre ++ mkMessage system
                 (content sys +:+ newline +:+ newline +:+ thinkingInstruction cfg)
                 (toolCallId sys) (m_toolCalls sys) :: post) /\
   (Forall (fun m => role m <> system) msgs ->
    injectInstruction cfg msgs = plain_message system (thinkingInstruction cfg) :: msgs) /\
   List.filter non_system (injectInstruction cfg msgs) = List.filter non_system msgs).
Proof.
  unfold injectInstruction. split; [intros ->; reflexivity|].
  intros ->. simpl. split; [|split].
  - intros pre sys post -> Hpre Hsys.
    rewrite (augmentFirstSystem_some _ _ _ _ Hpre Hsys). reflexivity.
  - intros Hnone. rewrite (augmentFirstSystem_none _ _ Hnone). reflexivity.
  - induction msgs as [|m rest IH]; [reflexivity|]. simpl.
    destruct (is_system (role m)) eqn:Hm.
    + simpl. unfold non_system. simpl. rewrite Hm. reflexivity.
    + destruct (augmentFirstSystem (thinkingInstruction cfg) rest) as [rest'|].
      * simpl in *. rewrite IH. reflexivity.
      * reflexivity.
Qed.

End InjectFacts.

(* ===================================================================== *)
(** * The event emitter *)
(* ===================================================================== *)

Section EmitterFacts.
Import EventEmitter.

(** X25. [on] adds a handler after the ones already registered for the event,
    and a handler registered more than once is called as often; one [off]
    removes every registration of the handler for that event and keeps
    the other handlers in order; the handlers of other events are not
    touched by either. *)
Theorem emitter_off_removes_every_registration
    (event : string) (h : Handler) (handlers : t) :
  emit event (on event h handlers) = emit event handlers ++ [h] /\
  emit event (off event h handlers)
  = List.filter (fun k => negb (bool_decide (k = h))) (emit event handlers) /\
  emit event (off event h (on event h (on event h handlers)))
  = List.filter (fun k => negb (bool_decide (k = h))) (emit event handlers) /\
  (forall other, other <> event ->
     emit other (on event h handlers) = emit other handlers /\
     emit other (off event h handlers) = emit other handlers).
Proof.
  assert (forall hs, emit event (off event h hs)
            = List.filter (fun k => negb (bool_decide (k = h))) (emit event hs)) as Hoff.
  { intros hs. unfold emit, off. destruct (hs !! event) as [l|] eqn:E.
    - rewrite lookup_insert_eq. reflexivity.
    - rewrite E. reflexivity. }
  assert (forall hs, emit event (on event h hs) = emit event hs ++ [h]) as Hon.
  { intros hs. unfold emit, on. rewrite lookup_insert_eq. reflexivity. }
  split; [apply Hon|]. split; [apply Hoff|]. split.
  - rewrite Hoff, !Hon, !List.filter_app. simpl.
    rewrite bool_decide_eq_true_2 by reflexivity. simpl. rewrite !app_nil_r. reflexivity.
  - intros other Hother. unfold emit, on, off. split.
    + rewrite lookup_insert_ne by congruence. reflexivity.
    + destruct (handlers !! event); [|reflexivity].
      rewrite lookup_insert_ne by congruence. reflexivity.
Qed.

End EmitterFacts.

(* ===================================================================== *)
(** * The agent runtime *)
(* ===================================================================== *)

Section AgentFacts.
Context {W : Type}.
Import Agent.

Lemma a_bind_ok {A B} (m : AM W A) (k : A -> AM W B) (s s' : AgentMachine W) (a : A) :
  m s = (Ok a, s') -> a_bind m k s = k a s'.
Proof. intros H. unfold a_bind. rewrite H. reflexivity. Qed.

Lemma a_bind_throw {A B} (m : AM W A) (k : A -> AM W B) (s s' : AgentMachine W) (e : Err) :
  m s = (Throw e, s') -> a_bind m k s = (Throw e, s').
Proof. intros H. unfold a_bind. rewrite H. reflexivity. Qed.

Lemma lift_run {A} (m : M W A) (a : AgentMachine W) (r : Result A) (s' : Machine W) :
  m (mkMachine (am_ctx a) (am_world a) []) = (r, s') ->
  lift m a = (r, mkAgentMachine (ctx s') (world s') (am_log a ++ List.map Inner (trace s'))).
Proof. intros H. unfold lift. rewrite H. reflexivity. Qed.

Lemma extends_ret {A} (x : A) : extends_log (@a_ret W A x).
Proof. intros a. exists []. rewrite app_nil_r. reflexivity. Qed.

Lemma extends_throw {A} (e : Err) : extends_log (@a_throw W A e).
Proof. intros a. exists []. rewrite app_nil_r. reflexivity. Qed.

Lemma extends_get_ctx : extends_log (@a_get_ctx W).
Proof. intros a. exists []. rewrite app_nil_r. reflexivity. Qed.

Lemma extends_modify_state (f : ExecutionState -> ExecutionState) :
  extends_log (@a_modify_state W f).
Proof. intros a. exists []. rewrite app_nil_r. reflexivity. Qed.

Lemma extends_on_world {A} (f : W -> Result A * W) : extends_log (a_on_world f).
Proof.
  intros a. exists []. unfold a_on_world. destruct (f (am_world a)).
  rewrite app_nil_r. reflexivity.
Qed.

Lemma extends_emit (ev : AgentEvent) : extends_log (@a_emit W ev).
Proof. intros a. exists [Emitted ev]. reflexivity. Qed.

Lemma extends_lift {A} (m : M W A) : extends_log (lift m).
Proof.
  intros a. unfold lift. destruct (m _) as [r s']. eexists. reflexivity.
Qed.

Lemma extends_result {A} (r : Result A) : extends_log (@a_result W A r).
Proof. destruct r; [apply extends_ret|apply extends_throw]. Qed.

Lemma extends_bind {A B} (m : AM W A) (k : A -> AM W B) :
  extends_log m -> (forall x, extends_log (k x)) -> extends_log (a_bind m k).
Proof.
  intros Hm Hk a. unfold a_bind. destruct (Hm a) as (l1 & H1).
  destruct (m a) as [[x|e] a1]; simpl in *.
  - destruct (Hk x a1) as (l2 & H2). exists (l1 ++ l2). rewrite H2, H1, app_assoc. reflexivity.
  - exists l1. exact H1.
Qed.

Ltac extends_tac :=
  repeat first
    [ apply extends_ret | apply extends_throw | apply extends_get_ctx
    | apply extends_modify_state | apply extends_on_world | apply extends_emit
    | apply extends_lift | apply extends_result
    | (apply extends_bind; [|intros ?])
    | match goal with |- extends_log (match ?x with _ => _ end) => destruct x end ].

Variable agent : AgentInstance W.
Variable engineRegistry : gmap string (ReasoningEngine W).

Lemma extends_executeWithEngine : extends_log (executeWithEngine agent engineRegistry).
Proof. unfold executeWithEngine, set_messages. extends_tac. Qed.

(** What [attempt] leaves when it returns. *)
Lemma attempt_ok (a a' : AgentMachine W) (r : RunResult) :
  attempt agent engineRegistry a = (Ok r, a') ->
  result_state r = state (am_ctx a') /\
  exists log, am_log a' = am_log a ++ log ++ [Emitted (RunEnd (output r) (result_state r))].
Proof.
  unfold attempt. unfold a_bind at 1. unfold a_get_ctx at 1.
  unfold a_bind at 1.
  match goal with |- context [lift ?m a] =>
    destruct (extends_lift m a) as (l1 & H1); destruct (lift m a) as [[[]|e] a1]
  end; [|discriminate].
  unfold a_bind at 1.
  destruct (extends_executeWithEngine a1) as (l2 & H2).
  destruct (executeWithEngine agent engineRegistry a1) as [[out|e] a2]; [|discriminate].
  unfold a_bind at 1. unfold a_get_ctx at 1.
  unfold a_bind at 1.
  match goal with |- context [lift ?m a2] =>
    destruct (extends_lift m a2) as (l3 & H3); destruct (lift m a2) as [[[]|e] a3]
  end; [|discriminate].
  unfold a_bind, a_get_ctx, a_emit, a_ret. intros H. injection H as <- <-.
  simpl in *. split; [reflexivity|]. exists (l1 ++ l2 ++ l3).
  rewrite H3, H2, H1, <- !app_assoc. reflexivity.
Qed.

Lemma extends_attempt : extends_log (attempt agent engineRegistry).
Proof.
  unfold attempt. pose proof extends_executeWithEngine. 
  repeat first [assumption | apply extends_get_ctx | apply extends_lift | apply extends_emit
               | apply extends_ret | (apply extends_bind; [|intros ?])].
Qed.

(** X26. Every run ends with one event that tells its outcome: a run that
    returns has emitted [run:end] last, with the output and the state it
    returns; a run that throws has emitted [error] last, with the error it
    throws. The first event is [run:start], with the session id the run
    was given or, when it was given none, the one it drew. *)
Theorem agent_run_announces_outcome (js : Platform W) (options : RunOptions) (w : W) :
  let final := run agent engineRegistry js options w in
  let sid :=
    match opt_sessionId options with
    | Some s => s
    | None => fst (randomUUID js w)
    end in
  exists log,
    am_log (snd final)
    = Emitted (RunStart (opt_input options) sid) :: log
      ++ [Emitted match fst final with
                  | Ok r => RunEnd (output r) (result_state r)
                  | Throw e => ErrorEvent e
                  end] /\
    match fst final with
    | Ok r => result_state r = state (am_ctx (snd final))
    | Throw _ => True
    end.
Proof.
  intros final sid. subst final. unfold run.
  assert (exists w1,
            (match opt_sessionId options with
             | Some s => (s, w)
             | None => randomUUID js w
             end) = (sid, w1)) as (w1 & ->).
  { subst sid. destruct (opt_sessionId options); [eexists; reflexivity|].
    destruct (randomUUID js w). eexists. reflexivity. }
  unfold run_from, a_bind, a_get_ctx, a_emit, a_try. simpl.
  match goal with |- context [attempt agent engineRegistry ?a0] =>
    destruct (extends_attempt a0) as (added & Hlog);
    destruct (attempt agent engineRegistry a0) as [[r|e] a1] eqn:Hattempt
  end; simpl in *.
  - destruct (attempt_ok _ _ _ Hattempt) as (Hstate & log & Hend). simpl in Hend.
    exists log. split; [exact Hend|exact Hstate].
  - exists added. rewrite Hlog. split; [reflexivity|exact I].
Qed.

End AgentFacts.

Section AgentRunFacts.
Context {W : Type}.
Import Agent.

Variable agent : AgentInstance W.
Variable engineRegistry : gmap string (ReasoningEngine W).

(** X27. An agent without a model fails with the error that names the agent,
    but only after the [run:before] middleware has run: what it did to the
    world stays, no memory is read, the [run:after] middleware is not run,
    and the error is announced by an [error] event. *)
Theorem agent_run_without_model (a : AgentMachine W) (s1 : Machine W) :
  _model agent = None ->
  Pipeline.run (_middleware agent) (mkMwContext run_before (am_ctx a) None)
    (mkMachine (am_ctx a) (am_world a) []) = (Ok (), s1) ->
  let err := "[Agent:" +:+ config_name agent +:+ "] No model provider configured." in
  run_from agent engineRegistry a
  = (Throw err,
     mkAgentMachine (ctx s1) (world s1)
       (am_log a ++ [Emitted (RunStart (input (am_ctx a)) (sessionId (am_ctx a)))]
          ++ List.map Inner (trace s1) ++ [Emitted (ErrorEvent err)])).
Proof.
  intros Hmodel Hbefore err.
  unfold run_from, attempt, a_bind, a_get_ctx, a_emit, a_try, lift. simpl.
  rewrite Hbefore. unfold executeWithEngine. rewrite Hmodel. unfold a_throw. simpl.
  rewrite <- !app_assoc. reflexivity.
Qed.

(** X28. With a memory, the engine starts from the history read for the
    session followed by the system prompt and the user input, in that
    order. When the engine throws, nothing is written to the memory and the
    world is as the engine left it; when it returns, the whole message list
    of the state, the history included, is written under the session id
    and the agent name, and a failure of that write fails the run. *)
Theorem agent_memory_around_engine
    (model : ModelProvider W) (memory : MemoryProvider W) (engine : ReasoningEngine W)
    (a : AgentMachine W) (history : list ModelMessage) (w1 : W)
    (outcome : Result string) (s' : Machine W) :
  _model agent = Some model ->
  _memory agent = Some memory ->
  resolveEngine agent engineRegistry = Ok engine ->
  let c := am_ctx a in
  mem_read memory (mkReadOptions (Some (sessionId c))) (am_world a) = (Ok history, w1) ->
  eng_execute engine
    (mkReasoningContext W model (_tools agent) (_policy agent) (_middleware agent))
    (mkMachine
       (mkContext (input c) (sessionId c)
          (mkState (steps (state c)) (history ++ seedMessages agent (input c))
             (toolCalls (state c)) (state_usage (state c))))
       w1 [])
  = (outcome, s') ->
  let log := am_log a ++ [Emitted (MemoryRead (sessionId c))] ++ List.map Inner (trace s') in
  executeWithEngine agent engineRegistry a
  = match outcome with
    | Throw e => (Throw e, mkAgentMachine (ctx s') (world s') log)
    | Ok out =>
        let written :=
          mem_write memory (messages (state (ctx s')))
            (mkWriteOptions (Some (sessionId c)) (Some (config_name agent))) (world s') in
        (match fst written with Ok _ => Ok out | Throw e => Throw e end,
         mkAgentMachine (ctx s') (snd written) (log ++ [Emitted (MemoryWrite (sessionId c))]))
    end.
Proof.
  intros Hmodel Hmemory Hengine c Hread Hrun log.
  unfold executeWithEngine. rewrite Hmodel, Hengine, Hmemory.
  unfold a_result, a_bind, a_ret, a_get_ctx, set_messages, a_modify_state, a_emit,
    a_on_world, lift. simpl.
  fold c. rewrite Hread. simpl. rewrite Hrun.
  subst log. destruct outcome as [out|e]; simpl.
  - destruct (mem_write memory _ _ (world s')) as [[[]|e] w2]; simpl;
      rewrite <- !app_assoc; reflexivity.
  - rewrite <- !app_assoc. reflexivity.
Qed.

End AgentRunFacts.

Section AgentBufferFacts.
Import Agent.

(** X29. A run of an agent that has a buffer memory and falls back to the
    passthrough engine: the model is sent one request, without tools, with
    the stored history followed by the system prompt and the input; the
    answer is the output; and the store the model left is written with the
    messages of the run, history and answer included. *)
Theorem agent_passthrough_run_with_buffer
    (cfg : Buffer.Config) (agent : AgentInstance Buffer.Store)
    (engineRegistry : gmap string (ReasoningEngine Buffer.Store))
    (model : ModelProvider Buffer.Store) (c : ExecutionContext)
    (store store' : Buffer.Store) (resp : ModelResponse) :
  _model agent = Some model ->
  _memory agent = Some (bufferMemory cfg) ->
  _engine agent = None ->
  reasoningStrategy agent = None ->
  engineRegistry !! "react" = None ->
  _middleware agent = [] ->
  let sent :=
    Buffer.read cfg store (mkReadOptions (Some (sessionId c)))
    ++ seedMessages agent (input c) in
  complete model (mkRequest sent None) store = (Ok resp, store') ->
  let final := run_from agent engineRegistry (mkAgentMachine c store []) in
  let answer := content (message resp) in
  fst final = Ok (mkRunResult answer (state (am_ctx (snd final)))) /\
  messages (state (am_ctx (snd final))) = sent ++ [message resp] /\
  steps (state (am_ctx (snd final))) = steps (state c) ++ [response answer "passthrough"] /\
  am_world (snd final)
  = Buffer.write cfg store' (sent ++ [message resp])
      (mkWriteOptions (Some (sessionId c)) (Some (config_name agent))) /\
  List.filter is_model_obs (inner (am_log (snd final))) = [ObsModel (mkRequest sent None)] /\
  events (am_log (snd final))
  = [ RunStart (input c) (sessionId c); MemoryRead (sessionId c); MemoryWrite (sessionId c);
      RunEnd answer (state (am_ctx (snd final))) ].
Proof.
  intros Hmodel Hmemory Hengine Hstrategy Hreact Hmw sent Hcomplete final answer.
  subst final.
  unfold run_from, attempt, executeWithEngine, resolveEngine.
  rewrite Hmodel, Hmemory, Hengine, Hstrategy, Hreact, Hmw.
  unfold a_result, a_bind, a_ret, a_get_ctx, set_messages, a_modify_state, a_emit,
    a_on_world, a_try, lift, bufferMemory. simpl.
  unfold Pipeline.run, Pipeline.scoped. simpl.
  unfold model_complete. unfold bind, get_state, observe, on_world. simpl.
  fold sent. rewrite Hcomplete. simpl.
  destruct (usage resp) as [u|]; simpl; repeat split; reflexivity.
Qed.

End AgentBufferFacts.

(* ===================================================================== *)
(** * Writing back what was read *)
(* ===================================================================== *)

Section WriteBackFacts.
Import SlidingWindow.

(** X30. The sliding window appends on [write]. When the messages written
    start with what [read] returned for the session, as the messages the
    agent writes after a run do, the stored history is stored a second
    time, in new turns after the old ones. *)
Theorem sliding_write_of_read_stores_history_again
    (cfg : Config) (sessions : Sessions) (sid : string) (more : list ModelMessage) :
  reachable cfg sessions ->
  let existing := default [] (sessions !! sid) in
  Tokens.estimateMessagesTokens (flatten existing) <= maxTokens cfg ->
  let history := read cfg sessions (mkReadOptions (Some sid)) in
  let stored :=
    default []
      (write cfg sessions (history ++ more) (mkWriteOptions (Some sid) None) !! sid) in
  history = flatten existing /\
  stored
  = slice_from (- maxTurns cfg)
      (existing ++ groupIntoTurns (flatten existing ++ List.filter non_system more)) /\
  (maxTurns cfg = 0 ->
   flatten stored = flatten existing ++ flatten existing ++ List.filter non_system more).
Proof.
  intros Hreach existing Hfit history stored.
  assert (Forall (fun m => non_system m = true) (flatten existing)) as Hclean.
  { subst existing. destruct (sessions !! sid) as [turns|] eqn:E; [|constructor].
    exact (reachable_no_system cfg sessions Hreach sid turns E). }
  assert (history = flatten existing) as Hhistory.
  { subst history. unfold read. simpl. fold existing.
    unfold Tokens.trimToTokenBudget.
    rewrite (filter_all_true non_system _ Hclean).
    rewrite (filter_all_false (fun m => is_system (role m)) (flatten existing)).
    2:{ eapply Forall_impl; [exact Hclean|]. intros m Hm. unfold non_system in Hm.
        destruct (is_system (role m)); [discriminate|reflexivity]. }
    change (Tokens.estimateMessagesTokens []) with 0.
    rewrite trimWalk_all_fit by (rewrite estimate_rev; lia).
    rewrite rev_involutive, app_nil_r. reflexivity. }
  assert (stored
          = slice_from (- maxTurns cfg)
              (existing ++ groupIntoTurns (flatten existing ++ List.filter non_system more)))
    as Hstored.
  { subst stored. unfold write. simpl. rewrite lookup_insert_eq. simpl. fold existing.
    rewrite Hhistory, List.filter_app, (filter_all_true non_system _ Hclean). reflexivity. }
  split; [exact Hhistory|]. split; [exact Hstored|].
  intros Hall. rewrite Hstored, Hall, slice_from_minus_zero, flatten_app, groupIntoTurns_flatten.
  reflexivity.
Qed.

End WriteBackFacts.

(* ===================================================================== *)
(** * The further properties on concrete inputs *)
(* ===================================================================== *)

(** A closed hypothesis, settled by evaluation. *)
Ltac evaluated :=
  first [ reflexivity
        | vm_compute; first [ reflexivity | discriminate | intro; discriminate ] ].

Section MemoryWitnesses.
Import Scenario MoreScenario.

(** X4, on a conversation of three short messages under a budget of 100: the
    system message comes first and nothing is lost. *)
Lemma trim_within_budget_witness :
  Tokens.trimToTokenBudget mixed_msgs 100
  = [ plain_message system "Be brief."; plain_message user "hi"; plain_message assistant "yo" ].
Proof. exact (trim_within_budget mixed_msgs 100 ltac:(evaluated)). Defined.

(** X6, on a window of one turn that holds a turn and is written a second
    one: only the new turn is left. *)
Lemma sliding_write_keeps_recent_witness :
  default []
    (SlidingWindow.write sw_one_turn sw_sessions sum_msgs (mkWriteOptions None None)
       !! "default")
  = [ SlidingWindow.mkTurn sum_msgs ].
Proof.
  exact (proj1 (sliding_write_keeps_recent sw_one_turn sw_sessions sum_msgs
                  (mkWriteOptions None None) ltac:(evaluated))).
Defined.

(** X7, on a write to session s2: the default session reads as before in
    both stores. *)
Lemma write_other_session_unchanged_witness :
  Buffer.read buf_two
    (Buffer.write buf_two {[ "default" := sum_msgs ]} mixed_msgs
       (mkWriteOptions (Some "s2") None))
    (mkReadOptions None)
  = sum_msgs /\
  SlidingWindow.read sw_cfg
    (SlidingWindow.write sw_cfg sw_sessions mixed_msgs (mkWriteOptions (Some "s2") None))
    (mkReadOptions None)
  = SlidingWindow.read sw_cfg sw_sessions (mkReadOptions None).
Proof.
  exact (write_other_session_unchanged buf_two {[ "default" := sum_msgs ]} sw_cfg sw_sessions
           mixed_msgs (mkWriteOptions (Some "s2") None) (mkReadOptions None)
           ltac:(simpl; discriminate)).
Defined.

(** X8, on [clear] called with the empty string: session s1 reads as empty
    in the three stores. *)
Lemma clear_without_session_clears_all_witness :
  Buffer.read buf_two (Buffer.clear buf_store (Some "")) (mkReadOptions (Some "s1")) = [] /\
  SlidingWindow.read sw_cfg (SlidingWindow.clear sw_sessions (Some "")) (mkReadOptions (Some "s1"))
  = [] /\
  Summarizing.read (Summarizing.clear ∅ (Some "")) (mkReadOptions (Some "s1")) = [].
Proof.
  exact (clear_without_session_clears_all buf_two buf_store sw_cfg sw_sessions ∅ (Some "")
           (mkReadOptions (Some "s1")) (or_intror eq_refl)).
Defined.

(** X9, on a buffer of two messages written six: the last two non-system
    messages are read back. *)
Lemma buffer_write_then_read_witness :
  Buffer.read buf_two
    (Buffer.write buf_two ∅ (mixed_msgs ++ second_exchange) (mkWriteOptions (Some "s1") None))
    (mkReadOptions (Some "s1"))
  = [ plain_message user "again"; plain_message assistant "sure" ].
Proof.
  exact (buffer_write_then_read buf_two ∅ (mixed_msgs ++ second_exchange) (Some "s1") None
           eq_refl ltac:(evaluated)).
Defined.

(** X10, on a window of 100 tokens written three short messages: they are
    read back without their system message, and no summary. *)
Lemma summarizing_write_within_budget_witness :
  Summarizing.read
    (<[ "default" := Summarizing.mkSession None (List.filter non_system mixed_msgs) ]>
       (∅ : Summarizing.Sessions))
    (mkReadOptions None)
  = [ plain_message user "hi"; plain_message assistant "yo" ].
Proof.
  exact (proj2 (summarizing_write_within_budget sum_cfg_wide ∅ mixed_msgs
                  (mkWriteOptions None None) () ltac:(evaluated))).
Defined.

(** X11, on a summarizer whose model is down and a session that did not
    exist: the write fails and nothing is stored. *)
Lemma summarizing_write_model_failure_witness :
  Summarizing.write sum_cfg_down ∅ mixed_msgs (mkWriteOptions None None) ()
  = (Throw "offline", ∅, ()).
Proof.
  exact (summarizing_write_model_failure sum_cfg_down ∅ mixed_msgs (mkWriteOptions None None)
           () () "offline" ltac:(evaluated) eq_refl).
Defined.

(** X13, on an empty buffer in front of a buffer that holds the session: the
    second answers. *)
Lemma composite_first_hit_witness :
  fst (Composite.read
         (Composite.PComposite Composite.first_hit
            ([empty_buffer] ++ full_buffer :: [Composite.PCustom keeper]))
         (mkReadOptions (Some "s1")))
  = Ok sum_msgs.
Proof.
  exact (f_equal fst
           (composite_first_hit [empty_buffer] [Composite.PCustom keeper] full_buffer
              (mkReadOptions (Some "s1")) (plain_message user "hi")
              [plain_message assistant "yo"]
              ltac:(repeat constructor) eq_refl)).
Defined.

(** X30, on a window that keeps every turn and holds one turn: after the
    write-back the turn is stored twice, before the new exchange. *)
Lemma sliding_write_of_read_stores_history_again_witness :
  SlidingWindow.flatten
    (default []
       (SlidingWindow.write sw_every_turn sw_history
          (SlidingWindow.read sw_every_turn sw_history (mkReadOptions (Some "default"))
             ++ second_exchange)
          (mkWriteOptions (Some "default") None) !! "default"))
  = sw_turn ++ sw_turn ++ [ plain_message user "again"; plain_message assistant "sure" ].
Proof.
  exact (proj2 (proj2 (sliding_write_of_read_stores_history_again sw_every_turn sw_history
                         "default" second_exchange
                         (SlidingWindow.reach_write _ _ _ _ (SlidingWindow.reach_new _))
                         ltac:(evaluated)))
           eq_refl).
Defined.

End MemoryWitnesses.

Section RuntimeWitnesses.
Import Scenario MoreScenario.

(** X15, on a chain of three where the second throws: the third is not
    entered; with a catching middleware in front, the invocation returns. *)
Lemma pipeline_throw_aborts_witness :
  (fst (Pipeline.run [mw_count; mw_deny; mw_tools] mw_ctx start) = Throw "denied" /\
   entered (trace (snd (Pipeline.run [mw_count; mw_deny; mw_tools] mw_ctx start)))
   = [mw_count; mw_deny] /\
   ctx (snd (Pipeline.run [mw_count; mw_deny; mw_tools] mw_ctx start)) = ctx start) /\
  (fst (Pipeline.run [mw_catch; mw_count; mw_deny; mw_tools] mw_ctx start) = Ok () /\
   entered (trace (snd (Pipeline.run [mw_catch; mw_count; mw_deny; mw_tools] mw_ctx start)))
   = [mw_catch; mw_count; mw_deny]).
Proof.
  destruct (pipeline_throw_aborts [mw_count; mw_deny; mw_tools] mw_ctx "denied"
              [mw_count] [mw_tools] mw_deny start eq_refl ltac:(repeat constructor) eq_refl)
    as [Hthrow Hcatch].
  split; [exact Hthrow|].
  exact (Hcatch mw_catch (fun _ => MwReturn) eq_refl eq_refl eq_refl).
Defined.

(** X16, on a middleware that calls [next] twice in front of a counting one:
    the counting one is entered twice. *)
Lemma pipeline_next_twice_runs_rest_twice_witness :
  fst (Pipeline.run [mw_twice; mw_count] mw_ctx start) = Ok () /\
  entered (trace (snd (Pipeline.run [mw_twice; mw_count] mw_ctx start)))
  = [mw_twice; mw_count; mw_count].
Proof.
  exact (pipeline_next_twice_runs_rest_twice [mw_twice; mw_count] mw_ctx mw_twice [mw_count]
           start eq_refl eq_refl ltac:(repeat constructor)).
Defined.

(** X17, on a [tool:before] middleware that denies: [search] is not invoked. *)
Lemma callTool_before_middleware_throws_witness :
  callTool rctx_deny "search" [("query", JStr "rocq")] "c1" start
  = (Throw "denied", snd (callTool rctx_deny "search" [("query", JStr "rocq")] "c1" start)) /\
  ctx (snd (callTool rctx_deny "search" [("query", JStr "rocq")] "c1" start)) = ctx start /\
  List.filter is_tool_obs
    (trace (snd (callTool rctx_deny "search" [("query", JStr "rocq")] "c1" start)))
  = [].
Proof.
  exact (callTool_before_middleware_throws rctx_deny "search" [("query", JStr "rocq")] "c1"
           search_tool start
           (snd (callTool rctx_deny "search" [("query", JStr "rocq")] "c1" start))
           "denied" eq_refl eq_refl eq_refl).
Defined.


(** X19, on a response that uses ten tokens under a budget of ten: the
    counters are updated and the call throws. *)
Lemma callModel_usage_and_budget_witness :
  state_usage (state (ctx (snd (callModel rctx_metered [] defaultOptions start))))
  = mkUsage 6 4 10 /\
  fst (callModel rctx_metered [] defaultOptions start)
  = Throw "[Reasoning] Token budget exceeded.".
Proof.
  exact (callModel_usage_and_budget rctx_metered [] defaultOptions start metered_response
           0%nat eq_refl).
Defined.

(** X23, on a plan whose first task depends on its second: the second
    completes and the first is still pending. *)
Lemma planner_forward_dependency_never_runs_witness :
  fst planner_done !! 0%nat = Some report_task.
Proof.
  exact (planner_forward_dependency_never_runs rctx_plain plain_js planner_cfg backward_plan
           0%nat report_task "facts" start (snd planner_run) planner_done
           eq_refl (or_introl eq_refl) (Forall_nil_2 _) ltac:(evaluated)).
Defined.

(** X24, on a conversation with two system messages: only the first carries
    the instruction. *)
Lemma injectInstruction_first_system_only_witness :
  ChainOfThoughtEngine.injectInstruction cot_cfg two_systems
  = [ plain_message user "hi";
      plain_message system ("Be brief." +:+ newline +:+ newline +:+ "Think.");
      plain_message system "Be kind." ].
Proof.
  exact (proj1 (proj2 (injectInstruction_first_system_only cot_cfg two_systems) eq_refl)
           [plain_message user "hi"] (plain_message system "Be brief.")
           [plain_message system "Be kind."] eq_refl
           ltac:(repeat constructor; discriminate) eq_refl).
Defined.

End RuntimeWitnesses.

Section AgentWitnesses.
Import Scenario MoreScenario Agent.

(** X27, on an agent with one [run:before] middleware and no model. *)
Lemma agent_run_without_model_witness :
  run_from agent_no_model ∅ agent_start
  = (Throw "[Agent:helper] No model provider configured.",
     mkAgentMachine (createContext "question" "s1") 0%nat
       [ Emitted (RunStart "question" "s1");
         Inner (ObsMiddleware run_before mw_start);
         Emitted (ErrorEvent "[Agent:helper] No model provider configured.") ]).
Proof.
  exact (agent_run_without_model agent_no_model ∅ agent_start
           (mkMachine (createContext "question" "s1") 0%nat [ObsMiddleware run_before mw_start])
           eq_refl eq_refl).
Defined.

(** X28, on an agent whose engine throws: the history precedes the system
    prompt, and the store is not written. *)
Lemma agent_memory_around_engine_witness :
  executeWithEngine agent_failing ∅ buffer_start
  = (Throw "engine failed",
     mkAgentMachine
       (mkContext "question" "s1"
          (mkState []
             (sum_msgs ++ [plain_message system "Be brief."; plain_message user "question"])
             [] emptyUsage))
       buf_store
       [Emitted (MemoryRead "s1")]).
Proof.
  exact (agent_memory_around_engine agent_failing ∅ store_model (bufferMemory buf_two)
           failing_engine buffer_start sum_msgs buf_store (Throw "engine failed")
           (mkMachine
              (mkContext "question" "s1"
                 (mkState []
                    (sum_msgs ++ [plain_message system "Be brief."; plain_message user "question"])
                    [] emptyUsage))
              buf_store [])
           eq_refl eq_refl eq_refl ltac:(evaluated) eq_refl).
Defined.

(** X29, on an agent with a buffer of two messages: the output is the
    answer, and the session holds the question and the answer. *)
Lemma agent_passthrough_run_with_buffer_witness :
  output_of (fst (run_from agent_plain ∅ buffer_start)) = Some "42" /\
  am_world (snd (run_from agent_plain ∅ buffer_start)) !! "s1"
  = Some [ plain_message user "question"; plain_message assistant "42" ] /\
  events (am_log (snd (run_from agent_plain ∅ buffer_start)))
  = [ RunStart "question" "s1"; MemoryRead "s1"; MemoryWrite "s1";
      RunEnd "42" (state (am_ctx (snd (run_from agent_plain ∅ buffer_start)))) ].
Proof.
  destruct (agent_passthrough_run_with_buffer buf_two agent_plain ∅ store_model
              (createContext "question" "s1") buf_store buf_store
              (mkResponse (plain_message assistant "42") None None)
              eq_refl eq_refl eq_refl eq_refl (lookup_empty "react") eq_refl eq_refl)
    as (Hout & _ & _ & Hworld & _ & Hevents).
  split; [|split].
  - unfold buffer_start. rewrite Hout. reflexivity.
  - unfold buffer_start. rewrite Hworld. vm_compute. reflexivity.
  - exact Hevents.
Defined.

End AgentWitnesses.
